(** * producer_consumer.c: a bounded buffer between one producer and
      [cons] consumer kernel threads

    The kernel module of [producer_consumer.c] is embedded as a
    transition system.  Each C statement of a thread body is one
    transition of that thread, so a schedule interleaves the threads
    statement by statement.  What the kernel supplies is an explicit input
    of the transition functions: the task list, the clock, whether a signal
    is pending, the outcome of allocations and thread creations.

    - A [struct semaphore] is its count.  [down_interruptible] takes a unit
      if there is one; otherwise the caller sleeps (its transition changes
      nothing) and a pending signal makes the call return [-EINTR].
    - [kthread_stop] sets the flag that [kthread_should_stop] reads and
      then waits until the thread has returned; waking a thread that sleeps
      in [down_interruptible] does not make that call return.
    - [printk] appends a record to the log.
    - [producer_consumer_init] runs as one step: the statements that
      remain once a thread has been started only start further threads.
    - [kfree(buffer)] leaves the module without buffer storage; what a
      thread writes through the stale pointer afterwards is not tracked.
    - [sprintf] is kept as the text it produces; whether the text fits the
      array it is written to is a separate predicate. *)

From Stdlib Require Import ZArith Lia Ascii String List Bool.
From stdpp Require Import base list.

Local Open Scope Z_scope.

(** ** Machine integers *)

Module Int.

Definition INT_MAX : Z := 2147483647.
Definition LONG_MAX : Z := 9223372036854775807.

(** Two's-complement wrap of a result to [int] and to [long]. *)
Definition wrap_int (x : Z) : Z := (x + 2147483648) mod 4294967296 - 2147483648.
Definition wrap_long (x : Z) : Z :=
  (x + 9223372036854775808) mod 18446744073709551616 - 9223372036854775808.

End Int.

(** ** [sprintf] with the conversions the module uses *)

Module Fmt.

Local Open Scope string_scope.
Local Open Scope Z_scope.

Definition digit_char (d : Z) : ascii := ascii_of_nat (48 + Z.to_nat d).

(** Decimal digits of a non-negative number, most significant first;
    [fuel] bounds the number of digits (20 covers 64 bits). *)
Fixpoint dec_digits (fuel : nat) (n : Z) (acc : string) : string :=
  match fuel with
  | O => acc
  | S f =>
      let acc' := String (digit_char (n mod 10)) acc in
      if n <? 10 then acc' else dec_digits f (n / 10) acc'
  end.

(** ["%ld"] (and ["%d"]). *)
Definition print_ld (n : Z) : string :=
  if n <? 0 then String "-" (dec_digits 20 (- n) "") else dec_digits 20 n "".

(** ["%02ld"]: minimum field width 2, padded with zeros, never cut. *)
Definition print_02ld (n : Z) : string :=
  let s := print_ld n in
  if (String.length s <? 2)%nat then String "0" s else s.

(** ["%02ld:%02ld:%02ld"]. *)
Definition sprintf_02ld_02ld_02ld (a b c : Z) : string :=
  (print_02ld a ++ ":" ++ print_02ld b ++ ":" ++ print_02ld c)%string.

(** Line 217: the arguments are [long] expressions, so [/] and [%] are
    C's truncating division and remainder. *)
Definition consumer_timeFormat (taskTime : Z) : string :=
  sprintf_02ld_02ld_02ld
    (Z.quot taskTime 3600000000000)
    (Z.rem (Z.quot taskTime 60000000000) 60)
    (Z.rem (Z.quot taskTime 1000000000) 60).

(** Line 252, in [producer_consumer_exit]. *)
Definition exit_timeFormat (totalProcessNanoseconds : Z) : string :=
  sprintf_02ld_02ld_02ld
    (Z.quot totalProcessNanoseconds 3600000000000)
    (Z.rem (Z.quot totalProcessNanoseconds 60000000000) 60)
    (Z.rem (Z.quot totalProcessNanoseconds 1000000000) 60).

(** [char timeFormat[9]]: the text and its terminating NUL have to fit. *)
Definition timeFormat_size : Z := 9.
Definition fits_timeFormat (s : string) : bool :=
  Z.of_nat (String.length s) + 1 <=? timeFormat_size.

(** Reading a decimal numeral back. *)
Definition digit_value (c : ascii) : Z := Z.of_nat (nat_of_ascii c) - 48.
Fixpoint dec_value_from (acc : Z) (s : string) : Z :=
  match s with
  | EmptyString => acc
  | String c s' => dec_value_from (10 * acc + digit_value c) s'
  end.
Definition dec_value (s : string) : Z := dec_value_from 0 s.

End Fmt.

(** ** Data *)

(** The fields of [struct task_struct] the module reads:
    [task->pid], [task->cred->uid.val] and [task->start_time]. *)
Record task_struct := Task { pid : Z; uid : Z; start_time : Z }.

(** [for_each_process] starts from [&init_task]. *)
Definition init_task : task_struct := Task 0 0 0.

(** One record per [printk] call, in the order of the calls.  The two
    per-item records keep the task whose [pid] is printed, and the consumer's
    one also keeps the [taskTime] its [timeFormat] was rendered from. *)
Inductive event :=
| KInfo (msg : string)
| KErr (msg : string)
| Produced (count idx : Z) (task : task_struct)
| Consumed (thread_name : string) (item idx : Z) (task : task_struct)
    (taskTime : Z) (timeFormat : string)
| Summary (uid : Z) (timeFormat : string).

(** The file-scope variables. [buffer] is [None] while no storage is
    owned (before [kmalloc], after [kfree]); a slot is [None] until it is
    written, since [kmalloc] does not initialise. *)
Record globals := Globals {
  buffSize : Z; prod : Z; cons : Z; uuid : Z;
  empty : Z; full : Z; mutex : Z;
  buffer : option (list (option task_struct));
  head : Z; tail : Z;
  totalConsumed : Z; totalProcessNanoseconds : Z;
  klog : list event
}.

Definition set_empty (v : Z) (g : globals) : globals :=
  let 'Globals bs pr co uu _ fu mu bf hd tl tc tn lg := g in
  Globals bs pr co uu v fu mu bf hd tl tc tn lg.
Definition set_full (v : Z) (g : globals) : globals :=
  let 'Globals bs pr co uu em _ mu bf hd tl tc tn lg := g in
  Globals bs pr co uu em v mu bf hd tl tc tn lg.
Definition set_mutex (v : Z) (g : globals) : globals :=
  let 'Globals bs pr co uu em fu _ bf hd tl tc tn lg := g in
  Globals bs pr co uu em fu v bf hd tl tc tn lg.
Definition set_buffer (v : option (list (option task_struct))) (g : globals) : globals :=
  let 'Globals bs pr co uu em fu mu _ hd tl tc tn lg := g in
  Globals bs pr co uu em fu mu v hd tl tc tn lg.
Definition set_head (v : Z) (g : globals) : globals :=
  let 'Globals bs pr co uu em fu mu bf _ tl tc tn lg := g in
  Globals bs pr co uu em fu mu bf v tl tc tn lg.
Definition set_tail (v : Z) (g : globals) : globals :=
  let 'Globals bs pr co uu em fu mu bf hd _ tc tn lg := g in
  Globals bs pr co uu em fu mu bf hd v tc tn lg.
Definition set_totalConsumed (v : Z) (g : globals) : globals :=
  let 'Globals bs pr co uu em fu mu bf hd tl _ tn lg := g in
  Globals bs pr co uu em fu mu bf hd tl v tn lg.
Definition set_totalProcessNanoseconds (v : Z) (g : globals) : globals :=
  let 'Globals bs pr co uu em fu mu bf hd tl tc _ lg := g in
  Globals bs pr co uu em fu mu bf hd tl tc v lg.
Definition printk (e : event) (g : globals) : globals :=
  let 'Globals bs pr co uu em fu mu bf hd tl tc tn lg := g in
  Globals bs pr co uu em fu mu bf hd tl tc tn (lg ++ [e]).

(** [buffer[i]] as an rvalue and as an lvalue. *)
Definition buffer_read (g : globals) (i : Z) : option task_struct :=
  match buffer g with
  | Some b => if 0 <=? i then mjoin (b !! Z.to_nat i) else None
  | None => None
  end.
Definition buffer_write (i : Z) (t : task_struct) (g : globals) : globals :=
  match buffer g with
  | Some b => if 0 <=? i then set_buffer (Some (<[Z.to_nat i := Some t]> b)) g else g
  | None => g
  end.

(** ** Semaphores

    [struct semaphore] is kept as its count.  [down_interruptible] takes
    a unit when there is one; otherwise the caller sleeps, and a pending
    signal ends the sleep with [-EINTR]. *)
Inductive down_result := Acquired (count' : Z) | Interrupted | Sleeping.

Definition down_interruptible (count : Z) (signal_pending : bool) : down_result :=
  if 0 <? count then Acquired (count - 1)
  else if signal_pending then Interrupted else Sleeping.

Definition up (count : Z) : Z := count + 1.

(** ** The producer thread, [kthread_producer] *)

Inductive ppc :=
| PLoop        (* for_each_process(task)                  l.178 *)
| PFilter      (* if (task->cred->uid.val == uuid)        l.179 *)
| PDownEmpty   (* if (down_interruptible(&empty)) break;  l.182 *)
| PDownMutex   (* if (down_interruptible(&mutex)) break;  l.183 *)
| PWrite       (* buffer[tail] = task;                    l.185 *)
| PCount       (* count++;                                l.187 *)
| PPrintk      (* printk(... count, tail, task->pid);     l.188 *)
| PAdvance     (* tail = (tail + 1) % buffSize;           l.189 *)
| PUpMutex     (* up(&mutex);                             l.191 *)
| PUpFull      (* up(&full);                              l.192 *)
| PDone.       (* return 0;                               l.196 *)

Record producer := Producer {
  p_pc : ppc;
  p_todo : list task_struct;   (* what for_each_process has not visited yet *)
  p_task : task_struct;
  p_count : Z
}.

Definition p_goto (pc : ppc) (p : producer) : producer :=
  Producer pc (p_todo p) (p_task p) (p_count p).

Definition kthread_producer (signal_pending : bool) (g : globals) (p : producer)
  : globals * producer :=
  match p_pc p with
  | PLoop =>
      match p_todo p with
      | [] => (g, p_goto PDone p)
      | t :: rest => (g, Producer PFilter rest t (p_count p))
      end
  | PFilter =>
      if uid (p_task p) =? uuid g then (g, p_goto PDownEmpty p) else (g, p_goto PLoop p)
  | PDownEmpty =>
      match down_interruptible (empty g) signal_pending with
      | Acquired n => (set_empty n g, p_goto PDownMutex p)
      | Interrupted => (g, p_goto PDone p)
      | Sleeping => (g, p)
      end
  | PDownMutex =>
      match down_interruptible (mutex g) signal_pending with
      | Acquired n => (set_mutex n g, p_goto PWrite p)
      | Interrupted => (g, p_goto PDone p)
      | Sleeping => (g, p)
      end
  | PWrite => (buffer_write (tail g) (p_task p) g, p_goto PCount p)
  | PCount => (g, Producer PPrintk (p_todo p) (p_task p) (Int.wrap_int (p_count p + 1)))
  | PPrintk => (printk (Produced (p_count p) (tail g) (p_task p)) g, p_goto PAdvance p)
  | PAdvance =>
      (set_tail (Z.rem (Int.wrap_int (tail g + 1)) (buffSize g)) g, p_goto PUpMutex p)
  | PUpMutex => (set_mutex (up (mutex g)) g, p_goto PUpFull p)
  | PUpFull => (set_full (up (full g)) g, p_goto PLoop p)
  | PDone => (g, p)
  end.

(** ** A consumer thread, [kthread_consumer] *)

Inductive cpc :=
| CStart       (* printk("Consumer thread created");      l.205 *)
| CLoop        (* while (!kthread_should_stop())          l.206 *)
| CDownFull    (* if (down_interruptible(&full)) break;   l.209 *)
| CDownMutex   (* if (down_interruptible(&mutex)) break;  l.210 *)
| CRead        (* task = buffer[head];                    l.212 *)
| CCount       (* totalConsumed++;                        l.213 *)
| CTime        (* taskTime = ktime_get_ns() - task->start_time;  l.214 *)
| CAdd         (* totalProcessNanoseconds += taskTime;    l.215 *)
| CSprintf     (* sprintf(timeFormat, ...);               l.217 *)
| CPrintk      (* printk(... thread_name, totalConsumed, head, task->pid, timeFormat);  l.220 *)
| CAdvance     (* head = (head + 1) % buffSize;           l.221 *)
| CUpMutex     (* up(&mutex);                             l.223 *)
| CUpEmpty     (* up(&empty);                             l.224 *)
| CKfree       (* kfree(thread_name);                     l.227 *)
| CDone        (* return 0;                               l.228 *)
| CFault.      (* task is not a task: the dereference oopses *)

Record consumer := Consumer {
  c_pc : cpc;
  c_name : string;             (* thread_name *)
  c_should_stop : bool;        (* what kthread_should_stop() reads *)
  c_task : option task_struct; (* None: a slot that was never written *)
  c_taskTime : Z;
  c_timeFormat : string
}.

Definition c_goto (pc : cpc) (c : consumer) : consumer :=
  Consumer pc (c_name c) (c_should_stop c) (c_task c) (c_taskTime c) (c_timeFormat c).

(** [now] is what [ktime_get_ns()] returns when the step calls it. *)
Definition kthread_consumer (signal_pending : bool) (now : Z) (g : globals) (c : consumer)
  : globals * consumer :=
  match c_pc c with
  | CStart => (printk (KInfo "Consumer thread created") g, c_goto CLoop c)
  | CLoop => if c_should_stop c then (g, c_goto CKfree c) else (g, c_goto CDownFull c)
  | CDownFull =>
      match down_interruptible (full g) signal_pending with
      | Acquired n => (set_full n g, c_goto CDownMutex c)
      | Interrupted => (g, c_goto CKfree c)
      | Sleeping => (g, c)
      end
  | CDownMutex =>
      match down_interruptible (mutex g) signal_pending with
      | Acquired n => (set_mutex n g, c_goto CRead c)
      | Interrupted => (g, c_goto CKfree c)
      | Sleeping => (g, c)
      end
  | CRead =>
      (g, Consumer CCount (c_name c) (c_should_stop c) (buffer_read g (head g))
            (c_taskTime c) (c_timeFormat c))
  | CCount => (set_totalConsumed (Int.wrap_int (totalConsumed g + 1)) g, c_goto CTime c)
  | CTime =>
      match c_task c with
      | Some t =>
          (g, Consumer CAdd (c_name c) (c_should_stop c) (c_task c)
                (Int.wrap_long (now - start_time t)) (c_timeFormat c))
      | None => (g, c_goto CFault c)
      end
  | CAdd =>
      (set_totalProcessNanoseconds
         (Int.wrap_long (totalProcessNanoseconds g + c_taskTime c)) g,
       c_goto CSprintf c)
  | CSprintf =>
      (g, Consumer CPrintk (c_name c) (c_should_stop c) (c_task c) (c_taskTime c)
            (Fmt.consumer_timeFormat (c_taskTime c)))
  | CPrintk =>
      match c_task c with
      | Some t =>
          (printk (Consumed (c_name c) (totalConsumed g) (head g) t
                     (c_taskTime c) (c_timeFormat c)) g,
           c_goto CAdvance c)
      | None => (g, c_goto CFault c)
      end
  | CAdvance =>
      (set_head (Z.rem (Int.wrap_int (head g + 1)) (buffSize g)) g, c_goto CUpMutex c)
  | CUpMutex => (set_mutex (up (mutex g)) g, c_goto CUpEmpty c)
  | CUpEmpty => (set_empty (up (empty g)) g, c_goto CLoop c)
  | CKfree => (g, c_goto CDone c)
  | CDone => (g, c)
  | CFault => (g, c)
  end.

(** ** Unloading the module, [producer_consumer_exit] *)

Inductive xpc :=
| XStop (i : Z)   (* for (i...; i < cons; ...) kthread_stop(consumerThreads[i]):
                     the stop flag is set and the thread woken   l.240-241 *)
| XWait (i : Z)   (* ... and kthread_stop waits for the thread to return *)
| XUpMutex        (* up(&mutex);                                 l.244 *)
| XUpFull         (* up(&full);                                  l.245 *)
| XKfreeBuffer    (* kfree(buffer);                              l.247 *)
| XKfreeThreads   (* if (cons > 0) kfree(consumerThreads);       l.248 *)
| XSprintf        (* sprintf(timeFormat, ...);                   l.252 *)
| XPrintk         (* printk(... uuid, timeFormat);               l.253 *)
| XDone.

Record exit_thread := ExitThread { x_pc : xpc; x_timeFormat : string }.

Definition x_goto (pc : xpc) (x : exit_thread) : exit_thread :=
  ExitThread pc (x_timeFormat x).

Record system := System {
  glob : globals;
  producerThread : option producer;   (* NULL until kthread_run *)
  consumerThreads : list consumer;    (* the threads started, by index *)
  rmmod : exit_thread
}.

Definition stop_request (c : consumer) : consumer :=
  Consumer (c_pc c) (c_name c) true (c_task c) (c_taskTime c) (c_timeFormat c).

Definition returned (c : consumer) : bool :=
  match c_pc c with CDone => true | _ => false end.

Definition producer_consumer_exit (s : system) : system :=
  let g := glob s in
  let x := rmmod s in
  match x_pc x with
  | XStop i =>
      if i <? cons g then
        System g (producerThread s)
          (alter stop_request (Z.to_nat i) (consumerThreads s)) (x_goto (XWait i) x)
      else System g (producerThread s) (consumerThreads s) (x_goto XUpMutex x)
  | XWait i =>
      match consumerThreads s !! Z.to_nat i with
      | Some c =>
          if returned c then
            System g (producerThread s) (consumerThreads s)
              (x_goto (XStop (Int.wrap_int (i + 1))) x)
          else s
      | None => s
      end
  | XUpMutex =>
      System (set_mutex (up (mutex g)) g) (producerThread s) (consumerThreads s)
        (x_goto XUpFull x)
  | XUpFull =>
      System (set_full (up (full g)) g) (producerThread s) (consumerThreads s)
        (x_goto XKfreeBuffer x)
  | XKfreeBuffer =>
      System (set_buffer None g) (producerThread s) (consumerThreads s)
        (x_goto XKfreeThreads x)
  | XKfreeThreads =>
      System g (producerThread s) (consumerThreads s) (x_goto XSprintf x)
  | XSprintf =>
      System g (producerThread s) (consumerThreads s)
        (ExitThread XPrintk (Fmt.exit_timeFormat (totalProcessNanoseconds g)))
  | XPrintk =>
      System (printk (Summary (uuid g) (x_timeFormat x)) g)
        (producerThread s) (consumerThreads s) (x_goto XDone x)
  | XDone => s
  end.

(** ** Loading the module, [producer_consumer_init] *)

(** What the kernel answers during [producer_consumer_init]; a failed
    [kthread_run] returns [ERR_PTR(-errno)], from which [PTR_ERR] extracts
    the negative [-errno]. *)
Record kernel := Kernel {
  tasks : list task_struct;
  kmalloc_buffer : bool;
  kmalloc_consumerThreads : bool;
  kthread_run_consumer : Z -> option positive;
  kthread_run_producer : option positive
}.

(** The module as loaded with its four parameters, before the initializer. *)
Definition insmod (buffSize prod cons uuid : Z) : system :=
  System (Globals buffSize prod cons uuid 0 0 0 None 0 0 0 0 [])
    None [] (ExitThread (XStop 0) EmptyString).

Definition with_glob (f : globals -> globals) (s : system) : system :=
  System (f (glob s)) (producerThread s) (consumerThreads s) (rmmod s).

(** Lines 150-158, [n] iterations left. *)
Fixpoint create_consumers (k : kernel) (n : nat) (i : Z) (s : system)
  : option Z * system :=
  match n with
  | O => (None, s)
  | S n' =>
      let name := String.append "Consumer-" (Fmt.print_ld (Int.wrap_int (i + 1))) in
      match kthread_run_consumer k i with
      | None =>
          create_consumers k n' (Int.wrap_int (i + 1))
            (System (glob s) (producerThread s)
               (consumerThreads s ++ [Consumer CStart name false None 0 EmptyString])
               (rmmod s))
      | Some errno =>
          (Some (Z.neg errno),
           with_glob (printk (KInfo "ERROR: Cannot create thread Consumer")) s)
      end
  end.

Definition producer_consumer_init (k : kernel) (s : system) : Z * system :=
  let s := with_glob (printk (KInfo "producer_consumer module loaded")) s in
  let g := glob s in
  if buffSize g <? 1 then
    (-1, with_glob (printk (KErr "buffSize must be greater than 0")) s)
  else if (prod g <? 0) || (1 <? prod g) then
    (-1, with_glob (printk (KErr "prod must be 0 or 1")) s)
  else if cons g <? 0 then
    (-1, with_glob (printk (KErr "cons must be greater than or equal to 0")) s)
  else
    let s := with_glob (fun g => set_mutex 1 (set_full 0 (set_empty (buffSize g) g))) s in
    if negb (kmalloc_buffer k) then
      (-1, with_glob (printk (KErr "Failed to allocate memory for buffer")) s)
    else
      let s := with_glob (set_buffer (Some (replicate (Z.to_nat (buffSize g)) None))) s in
      let '(r, s) :=
        if 0 <? cons g then
          let s := with_glob (printk (KInfo "Creating consumer threads")) s in
          if negb (kmalloc_consumerThreads k) then
            (Some (-1),
             with_glob (printk (KErr "Failed to allocate memory for consumer threads")) s)
          else create_consumers k (Z.to_nat (cons g)) 0 s
        else (None, s) in
      match r with
      | Some err => (err, s)
      | None =>
          if prod g =? 1 then
            let s := with_glob (printk (KInfo "Creating producer thread")) s in
            match kthread_run_producer k with
            | None =>
                (0, System (glob s) (Some (Producer PLoop (tasks k) init_task 0))
                      (consumerThreads s) (rmmod s))
            | Some errno =>
                (Z.neg errno,
                 with_glob (printk (KInfo "ERROR: Cannot create thread Producer-1")) s)
            end
          else (0, s)
      end.

(** ** Executions *)

Inductive tid := TProducer | TConsumer (i : nat) | TRmmod.

(** One scheduling decision: the thread that runs its next statement,
    whether a signal is pending for it, and the clock. *)
Record action := Action { who : tid; signal_pending : bool; now : Z }.

Definition step (s : system) (a : action) : system :=
  match who a with
  | TProducer =>
      match producerThread s with
      | Some p =>
          let '(g', p') := kthread_producer (signal_pending a) (glob s) p in
          System g' (Some p') (consumerThreads s) (rmmod s)
      | None => s
      end
  | TConsumer i =>
      match consumerThreads s !! i with
      | Some c =>
          let '(g', c') := kthread_consumer (signal_pending a) (now a) (glob s) c in
          System g' (producerThread s) (<[i := c']> (consumerThreads s)) (rmmod s)
      | None => s
      end
  | TRmmod => producer_consumer_exit s
  end.

Definition run (sched : list action) (s : system) : system := fold_left step sched s.

(** A state some execution of the loaded module reaches. *)
Definition reachable (k : kernel) (bs pr co uu : Z) (s : system) : Prop :=
  exists s0 sched,
    producer_consumer_init k (insmod bs pr co uu) = (0, s0) /\ s = run sched s0.

(** ** What the log says *)

Definition put_of (e : event) : list task_struct :=
  match e with Produced _ _ t => [t] | _ => [] end.
Definition take_of (e : event) : list task_struct :=
  match e with Consumed _ _ _ t _ _ => [t] | _ => [] end.
Definition elapsed_of (e : event) : list Z :=
  match e with Consumed _ _ _ _ ns _ => [ns] | _ => [] end.

(** The items of the [Produced] records and of the [Consumed] records. *)
Definition puts (log : list event) : list task_struct := flat_map put_of log.
Definition takes (log : list event) : list task_struct := flat_map take_of log.
Definition elapsed (log : list event) : list Z := flat_map elapsed_of log.

Definition sumZ (l : list Z) : Z := fold_right Z.add 0 l.

(** ** Where each thread stands

    Weights on the program counters: 1 while the thread is in the stated
    span of its loop body, 0 elsewhere. *)

(** The producer holds [mutex]: from its [down] to its [up]. *)
Definition p_mx (p : producer) : Z :=
  match p_pc p with PWrite | PCount | PPrintk | PAdvance | PUpMutex => 1 | _ => 0 end.
(** It has taken a unit of [empty] and not yet stored the item. *)
Definition p_a (p : producer) : Z :=
  match p_pc p with PDownMutex | PWrite => 1 | _ => 0 end.
(** It has stored the item and not yet released a unit of [full]. *)
Definition p_b (p : producer) : Z :=
  match p_pc p with PCount | PPrintk | PAdvance | PUpMutex | PUpFull => 1 | _ => 0 end.
(** It has stored the item and not yet logged it. *)
Definition p_wl (p : producer) : Z :=
  match p_pc p with PCount | PPrintk => 1 | _ => 0 end.
(** It has stored the item and not yet advanced [tail]. *)
Definition p_t (p : producer) : Z :=
  match p_pc p with PCount | PPrintk | PAdvance => 1 | _ => 0 end.

Definition c_mx (c : consumer) : Z :=
  match c_pc c with
  | CRead | CCount | CTime | CAdd | CSprintf | CPrintk | CAdvance | CUpMutex => 1
  | _ => 0
  end.
(** The consumer has taken a unit of [full] and not yet read the item. *)
Definition c_a (c : consumer) : Z :=
  match c_pc c with CDownMutex | CRead => 1 | _ => 0 end.
(** It has read the item and not yet released a unit of [empty]. *)
Definition c_b (c : consumer) : Z :=
  match c_pc c with
  | CCount | CTime | CAdd | CSprintf | CPrintk | CAdvance | CUpMutex | CUpEmpty => 1
  | _ => 0
  end.
(** It has read the item and not yet logged it. *)
Definition c_rl (c : consumer) : Z :=
  match c_pc c with CCount | CTime | CAdd | CSprintf | CPrintk => 1 | _ => 0 end.
(** It has read the item and not yet advanced [head]. *)
Definition c_h (c : consumer) : Z :=
  match c_pc c with
  | CCount | CTime | CAdd | CSprintf | CPrintk | CAdvance => 1
  | _ => 0
  end.
(** It has counted the item and not yet logged it. *)
Definition c_cnt (c : consumer) : Z :=
  match c_pc c with CTime | CAdd | CSprintf | CPrintk => 1 | _ => 0 end.
(** The nanoseconds it has added to the total and not yet logged. *)
Definition c_ns (c : consumer) : Z :=
  match c_pc c with CSprintf | CPrintk => c_taskTime c | _ => 0 end.

Definition wsum (f : consumer -> Z) (cs : list consumer) : Z :=
  fold_right (fun c acc => f c + acc) 0 cs.

Definition pw (f : producer -> Z) (p : option producer) : Z :=
  match p with Some p => f p | None => 0 end.

(** The item a thread has in hand between the buffer and the log. *)
Definition c_in_hand (c : consumer) : list task_struct :=
  match c_pc c with
  | CCount | CTime | CAdd | CSprintf | CPrintk =>
      match c_task c with Some t => [t] | None => [] end
  | _ => []
  end.
Definition p_in_hand (p : option producer) : list task_struct :=
  match p with
  | Some p => match p_pc p with PCount | PPrintk => [p_task p] | _ => [] end
  | None => []
  end.

(** The items stored into the buffer so far, and the items read out of it
    so far, each in order. *)
Definition written (s : system) : list task_struct :=
  puts (klog (glob s)) ++ p_in_hand (producerThread s).
Definition read_out (s : system) : list task_struct :=
  takes (klog (glob s)) ++ flat_map c_in_hand (consumerThreads s).

(** The items stored and not yet read, oldest first, and their number:
    the count of filled slots. *)
Definition unconsumed (s : system) : list task_struct :=
  drop (length (read_out s)) (written s).
Definition filled (s : system) : Z :=
  Z.of_nat (length (written s)) - Z.of_nat (length (read_out s)).

(** The slot of the [k]-th unconsumed item. *)
Definition slot_of (s : system) (k : nat) : Z :=
  (head (glob s) + wsum c_h (consumerThreads s) + Z.of_nat k) mod buffSize (glob s).

(** How far [producer_consumer_exit] has come. *)
Definition x_mx (x : exit_thread) : Z :=
  match x_pc x with XStop _ | XWait _ | XUpMutex => 0 | _ => 1 end.
Definition x_f (x : exit_thread) : Z :=
  match x_pc x with XStop _ | XWait _ | XUpMutex | XUpFull => 0 | _ => 1 end.
Definition x_freed (x : exit_thread) : bool :=
  match x_pc x with
  | XStop _ | XWait _ | XUpMutex | XUpFull | XKfreeBuffer => false
  | _ => true
  end.
(** The consumers [kthread_stop] has already waited for: those below. *)
Definition x_joined (co : Z) (x : exit_thread) : Z :=
  match x_pc x with XStop i | XWait i => i | _ => co end.

Definition window (b : list (option task_struct)) (C h : Z) (pending : list task_struct)
  : Prop :=
  forall (k : nat) t, pending !! k = Some t ->
    b !! Z.to_nat ((h + Z.of_nat k) mod C) = Some (Some t).

Definition consumer_ok (c : consumer) : Prop :=
  c_pc c <> CFault /\ (c_rl c = 1 -> is_Some (c_task c)).

(** The invariant of the executions. *)
Record Inv (s : system) : Prop := {
  inv_size : 1 <= buffSize (glob s) <= Int.INT_MAX;
  inv_cons : Z.of_nat (length (consumerThreads s)) = cons (glob s) /\
             cons (glob s) <= Int.INT_MAX;
  inv_head : 0 <= head (glob s) < buffSize (glob s);
  inv_tail : 0 <= tail (glob s) < buffSize (glob s);
  inv_sems : 0 <= empty (glob s) /\ 0 <= full (glob s) /\ 0 <= mutex (glob s);
  inv_mutex :
    mutex (glob s) + pw p_mx (producerThread s) + wsum c_mx (consumerThreads s)
    = 1 + x_mx (rmmod s);
  inv_ok : Forall consumer_ok (consumerThreads s);
  inv_xpc :
    match x_pc (rmmod s) with
    | XStop i => 0 <= i <= cons (glob s)
    | XWait i => 0 <= i < cons (glob s)
    | _ => True
    end;
  inv_joined :
    forall (j : nat) c, consumerThreads s !! j = Some c ->
      Z.of_nat j < x_joined (cons (glob s)) (rmmod s) -> c_pc c = CDone;
  inv_buffer :
    match buffer (glob s) with
    | Some b => Z.of_nat (length b) = buffSize (glob s)
    | None => x_freed (rmmod s) = true
    end;
  inv_items :
    exists pending,
      written s = read_out s ++ pending /\
      empty (glob s) + Z.of_nat (length pending) + pw p_a (producerThread s)
        + wsum c_b (consumerThreads s) <= buffSize (glob s) /\
      full (glob s) + pw p_b (producerThread s) + wsum c_a (consumerThreads s)
        <= Z.of_nat (length pending) + x_f (rmmod s) /\
      pw p_b (producerThread s) + wsum c_a (consumerThreads s)
        <= Z.of_nat (length pending) /\
      (tail (glob s) + pw p_t (producerThread s)) mod buffSize (glob s)
      = (head (glob s) + wsum c_h (consumerThreads s) + Z.of_nat (length pending))
          mod buffSize (glob s) /\
      forall b, buffer (glob s) = Some b ->
        window b (buffSize (glob s))
          (head (glob s) + wsum c_h (consumerThreads s)) pending;
  inv_stats :
    totalConsumed (glob s)
    = Int.wrap_int (Z.of_nat (length (takes (klog (glob s))))
                    + wsum c_cnt (consumerThreads s)) /\
    totalProcessNanoseconds (glob s)
    = Int.wrap_long (sumZ (elapsed (klog (glob s))) + wsum c_ns (consumerThreads s))
}.

(** The producer's pass over the task list: the matching tasks among
    those visited are the ones stored, followed by the one in progress. *)
Definition matches (uu : Z) (t : task_struct) : bool := uid t =? uu.

Definition p_carrying (uu : Z) (p : producer) : list task_struct :=
  match p_pc p with
  | PFilter => if matches uu (p_task p) then [p_task p] else []
  | PDownEmpty | PDownMutex | PWrite => [p_task p]
  | _ => []
  end.

Definition pass_inv (strict : bool) (all : list task_struct) (s : system) : Prop :=
  match producerThread s with
  | None => puts (klog (glob s)) = []
  | Some p =>
      exists visited,
        all = visited ++ p_todo p /\
        match p_pc p with
        | PDone =>
            exists rest,
              List.filter (matches (uuid (glob s))) visited = written s ++ rest /\
              (length rest <= 1)%nat /\
              (strict = true -> rest = [] /\ p_todo p = [])
        | _ =>
            List.filter (matches (uuid (glob s))) visited
            = written s ++ p_carrying (uuid (glob s)) p
        end
  end.

(** No signal is ever pending when the producer runs. *)
Definition producer_uninterrupted (sched : list action) : Prop :=
  Forall (fun a => who a = TProducer -> signal_pending a = false) sched.

(** The module parameters are [int]s. *)
Definition is_int (x : Z) : Prop := - 2147483648 <= x <= Int.INT_MAX.

(** A step leaves the module parameters alone. *)
Definition same_params (g g' : globals) : Prop :=
  buffSize g' = buffSize g /\ prod g' = prod g /\ cons g' = cons g /\ uuid g' = uuid g.

(** ** A small system to run *)

(** Five tasks with owner ids 1, 1, 2, 3, 1; the kernel grants every
    allocation and every thread. *)
Definition demo_kernel : kernel :=
  Kernel [Task 101 1 10; Task 102 1 20; Task 103 2 30; Task 104 3 40; Task 105 1 50]
    true true (fun _ => None) None.

(** The module loaded with [buffSize = bs], [prod = pr], [cons = co] and
    [uuid = 1] on [demo_kernel]. *)
Definition demo_boot (bs pr co : Z) : system :=
  snd (producer_consumer_init demo_kernel (insmod bs pr co 1)).

(** [n] statements of one thread, no signal pending, the clock at [now]. *)
Definition quiet (t : tid) (now : Z) (n : nat) : list action :=
  repeat (Action t false now) n.

(** The producer fills a buffer of two slots and blocks, consumer 0
    takes what it can get, the producer goes on. *)
Definition demo_sched : list action :=
  quiet TProducer 0 30 ++ quiet (TConsumer 0) 1000 40 ++ quiet TProducer 0 30
  ++ quiet (TConsumer 1) 2000 40.

(** Three hundred tasks of user 0, all started at boot, on a machine that
    has been up for a year when the consumer looks at them. *)
Definition year_ns : Z := 31536000000000000.
Definition old_kernel : kernel :=
  Kernel (map (fun i => Task (Z.of_nat i) 0 0) (seq 1 300))
    true true (fun _ => None) None.
Definition old_sched : list action :=
  quiet TProducer 0 3100 ++ quiet (TConsumer 0) year_ns 4000.
Definition old_state : system :=
  run old_sched (snd (producer_consumer_init old_kernel (insmod 300 1 1 0))).

(** ** The two waits of one put, of one take *)

(** Lines 182-183: the wait for a free slot and, if that one is passed,
    the wait for the lock; [sig1] and [sig2] say whether a signal is
    pending during each. *)
Definition put_waits (sig1 sig2 : bool) (g : globals) (p : producer)
  : globals * producer :=
  let '(g1, p1) := kthread_producer sig1 g p in
  match p_pc p1 with
  | PDownMutex => kthread_producer sig2 g1 p1
  | _ => (g1, p1)
  end.

(** Lines 209-210. *)
Definition take_waits (sig1 sig2 : bool) (now : Z) (g : globals) (c : consumer)
  : globals * consumer :=
  let '(g1, c1) := kthread_consumer sig1 now g c in
  match c_pc c1 with
  | CDownMutex => kthread_consumer sig2 now g1 c1
  | _ => (g1, c1)
  end.

(** The producer has stored one item and met its second task; consumer 0
    is inside the critical section. *)
Definition contended : system :=
  run (quiet TProducer 0 10 ++ quiet (TConsumer 0) 0 4 ++ quiet TProducer 0 2)
    (demo_boot 2 1 1).

(** No producer, five consumers all asleep in [down_interruptible(&full)],
    and [producer_consumer_exit] has just called [kthread_stop] on the
    first of them. *)
Definition all_asleep : system :=
  run (quiet (TConsumer 0) 0 3 ++ quiet (TConsumer 1) 0 3 ++ quiet (TConsumer 2) 0 3
       ++ quiet (TConsumer 3) 0 3 ++ quiet (TConsumer 4) 0 3)
    (demo_boot 2 0 5).
Definition unloading : system := step all_asleep (Action TRmmod false 0).

Definition no_signal (sched : list action) : Prop :=
  Forall (fun a => signal_pending a = false) sched.

(** ** Further vocabulary *)

(** Line 151: [kmalloc(20 * sizeof(char))] holds the thread name and its
    terminating NUL. *)
Definition thread_name_size : Z := 20.

(** Line 152: [sprintf(name, "Consumer-%d", i+1)] for the loop index [i]. *)
Definition consumer_name (i : Z) : string :=
  String.append "Consumer-" (Fmt.print_ld (i + 1)).

(** The consumers the loop of lines 150-158 has started after [n]
    iterations from index [i]. *)
Definition fresh_consumers (i : Z) (n : nat) : list consumer :=
  map (fun j => Consumer CStart (consumer_name (i + Z.of_nat j)) false None 0 EmptyString)
    (seq 0 n).

(** The kernel grants every request a load with [prod = pr] and
    [cons = co] makes. *)
Definition kernel_grants (k : kernel) (pr co : Z) : Prop :=
  kmalloc_buffer k = true /\
  (0 < co -> kmalloc_consumerThreads k = true /\
             forall i, 0 <= i < co -> kthread_run_consumer k i = None) /\
  (pr = 1 -> kthread_run_producer k = None).

(** The module after the three checks of lines 108-119 and the
    [sema_init] calls. *)
Definition checked (bs pr co uu : Z) : system :=
  System (Globals bs pr co uu bs 0 1 None 0 0 0 0
            [KInfo "producer_consumer module loaded"])
    None [] (ExitThread (XStop 0) EmptyString).

(** The module as a successful [producer_consumer_init] leaves it. *)
Definition loaded (k : kernel) (bs pr co uu : Z) : system :=
  System
    (Globals bs pr co uu bs 0 1 (Some (replicate (Z.to_nat bs) None)) 0 0 0 0
       ([KInfo "producer_consumer module loaded"]
        ++ (if 0 <? co then [KInfo "Creating consumer threads"] else [])
        ++ (if pr =? 1 then [KInfo "Creating producer thread"] else [])))
    (if pr =? 1 then Some (Producer PLoop (tasks k) init_task 0) else None)
    (fresh_consumers 0 (Z.to_nat co))
    (ExitThread (XStop 0) EmptyString).

(** The numbers of the per-item records: item number, buffer index, and
    the task whose pid is printed. *)
Definition produced_of (e : event) : list (Z * Z * task_struct) :=
  match e with Produced n i t => [(n, i, t)] | _ => [] end.
Definition consumed_of (e : event) : list (Z * Z * task_struct) :=
  match e with Consumed _ n i t _ _ => [(n, i, t)] | _ => [] end.
Definition produced (log : list event) : list (Z * Z * task_struct) :=
  flat_map produced_of log.
Definition consumed (log : list event) : list (Z * Z * task_struct) :=
  flat_map consumed_of log.

(** Items numbered from 1 in an [int], at slots that go round the buffer. *)
Definition numbered (bs : Z) (items : list task_struct) : list (Z * Z * task_struct) :=
  imap (fun j t => (Int.wrap_int (Z.of_nat j + 1), Z.of_nat j mod bs, t)) items.

(** The count was incremented and the record is not yet printed. *)
Definition p_cnt (p : producer) : Z :=
  match p_pc p with PPrintk => 1 | _ => 0 end.

(** What the producer's records have to say so far. *)
Definition producer_log_inv (s : system) : Prop :=
  produced (klog (glob s)) = numbered (buffSize (glob s)) (puts (klog (glob s))) /\
  (tail (glob s) + pw p_t (producerThread s) - pw p_wl (producerThread s))
    mod buffSize (glob s)
  = Z.of_nat (length (puts (klog (glob s)))) mod buffSize (glob s) /\
  forall p, producerThread s = Some p ->
    p_count p = Int.wrap_int (Z.of_nat (length (puts (klog (glob s)))) + p_cnt p).

(** What a consumer's records have to say so far. *)
Definition consumer_log_inv (s : system) : Prop :=
  consumed (klog (glob s)) = numbered (buffSize (glob s)) (takes (klog (glob s))) /\
  (head (glob s) + wsum c_h (consumerThreads s) - wsum c_rl (consumerThreads s))
    mod buffSize (glob s)
  = Z.of_nat (length (takes (klog (glob s)))) mod buffSize (glob s).

(** A [Consumed] record: who printed it, and how its two time fields
    came about. *)
Definition consumed_fields (names : list string) (e : event) : Prop :=
  match e with
  | Consumed name _ _ t ns tf =>
      elem_of name names /\ tf = Fmt.consumer_timeFormat ns /\
      exists now, ns = Int.wrap_long (now - start_time t)
  | _ => True
  end.

(** A consumer's locals between [ktime_get_ns()] and the [printk]. *)
Definition consumer_locals (c : consumer) : Prop :=
  (c_pc c = CPrintk -> c_timeFormat c = Fmt.consumer_timeFormat (c_taskTime c)) /\
  (c_pc c = CAdd \/ c_pc c = CSprintf \/ c_pc c = CPrintk ->
   exists now t, c_task c = Some t /\ c_taskTime c = Int.wrap_long (now - start_time t)).

Definition fields_inv (names : list string) (s : system) : Prop :=
  map c_name (consumerThreads s) = names /\
  Forall consumer_locals (consumerThreads s) /\
  Forall (consumed_fields names) (klog (glob s)).

(** The bookkeeping of the semaphores while nothing is interrupted:
    the free slots and the filled slots, counted with those a thread has
    taken and not yet passed on. *)
Definition free_slots (s : system) : Z :=
  empty (glob s) + pw p_a (producerThread s) + wsum c_b (consumerThreads s).
Definition filled_slots (s : system) : Z :=
  full (glob s) + pw p_b (producerThread s) + wsum c_a (consumerThreads s).

(** [producer_consumer_exit] from its first statement to its last, when
    no consumer keeps it waiting: two statements per consumer, the test
    that ends the loop, and the six statements after it. *)
Definition exit_sched (co : Z) : list action :=
  quiet TRmmod 0 (Z.to_nat co * 2 + 7).


(** The items stored and not yet read, counted from the log and from
    what the threads have in hand. *)
Definition stored (s : system) : Z :=
  Z.of_nat (length (puts (klog (glob s)))) + pw p_wl (producerThread s)
  - Z.of_nat (length (takes (klog (glob s)))) - wsum c_rl (consumerThreads s).

Definition accounts (s : system) : Prop :=
  free_slots s + stored s = buffSize (glob s) /\
  filled_slots s = stored s + x_f (rmmod s).

(** The closing record of [producer_consumer_exit]. *)
Definition summary_of (e : event) : list (Z * string) :=
  match e with Summary u tf => [(u, tf)] | _ => [] end.
Definition summaries (log : list event) : list (Z * string) := flat_map summary_of log.

Definition summary_inv (s : system) : Prop :=
  match x_pc (rmmod s) with
  | XDone =>
      summaries (klog (glob s))
      = [(uuid (glob s), Fmt.exit_timeFormat (totalProcessNanoseconds (glob s)))]
  | XPrintk =>
      summaries (klog (glob s)) = [] /\
      x_timeFormat (rmmod s) = Fmt.exit_timeFormat (totalProcessNanoseconds (glob s))
  | _ => summaries (klog (glob s)) = []
  end.

(** Both consumers of the small system have been interrupted in their
    first wait and have returned. *)
Definition interrupted_consumers : system :=
  run (repeat (Action (TConsumer 0) true 0) 5 ++ repeat (Action (TConsumer 1) true 0) 5)
    (demo_boot 2 1 2).

(** No signal is pending and [producer_consumer_exit] does not run. *)
Definition undisturbed (sched : list action) : Prop :=
  Forall (fun a => signal_pending a = false /\ who a <> TRmmod) sched.

(** A consumer that nothing has told to leave its loop. *)
Definition c_running (c : consumer) : Prop :=
  c_should_stop c = false /\ c_pc c <> CKfree /\ c_pc c <> CDone.

(** [n] statements of the producer, of a consumer, with no other thread
    in between and no signal pending. *)
Fixpoint producer_steps (n : nat) (g : globals) (p : producer) : globals * producer :=
  match n with
  | O => (g, p)
  | S n => let '(g1, p1) := kthread_producer false g p in producer_steps n g1 p1
  end.
Fixpoint consumer_steps (n : nat) (now : Z) (g : globals) (c : consumer)
  : globals * consumer :=
  match n with
  | O => (g, c)
  | S n => let '(g1, c1) := kthread_consumer false now g c in consumer_steps n now g1 c1
  end.

(** What one whole put, lines 182-192, and one whole take, lines 209-224,
    come to. *)
Definition after_put (g : globals) (p : producer) : globals * producer :=
  (Globals (buffSize g) (prod g) (cons g) (uuid g)
     (empty g - 1) (full g + 1) (mutex g)
     (buffer (buffer_write (tail g) (p_task p) g))
     (head g) ((tail g + 1) mod buffSize g)
     (totalConsumed g) (totalProcessNanoseconds g)
     (klog g ++ [Produced (Int.wrap_int (p_count p + 1)) (tail g) (p_task p)]),
   Producer PLoop (p_todo p) (p_task p) (Int.wrap_int (p_count p + 1))).

Definition after_take (now : Z) (g : globals) (c : consumer) (t : task_struct)
  : globals * consumer :=
  let ns := Int.wrap_long (now - start_time t) in
  (Globals (buffSize g) (prod g) (cons g) (uuid g)
     (empty g + 1) (full g - 1) (mutex g)
     (buffer g)
     ((head g + 1) mod buffSize g) (tail g)
     (Int.wrap_int (totalConsumed g + 1))
     (Int.wrap_long (totalProcessNanoseconds g + ns))
     (klog g ++ [Consumed (c_name c) (Int.wrap_int (totalConsumed g + 1)) (head g) t ns
                   (Fmt.consumer_timeFormat ns)]),
   Consumer CLoop (c_name c) (c_should_stop c) (Some t) ns (Fmt.consumer_timeFormat ns)).

(** * Properties *)

(** ** Machine integers *)

Lemma wrap_int_id x : - 2147483648 <= x <= Int.INT_MAX -> Int.wrap_int x = x.
Proof.
  unfold Int.wrap_int, Int.INT_MAX. intros H.
  rewrite Z.mod_small by lia. lia.
Qed.

Lemma wrap_long_id x :
  - 9223372036854775808 <= x <= Int.LONG_MAX -> Int.wrap_long x = x.
Proof.
  unfold Int.wrap_long, Int.LONG_MAX. intros H.
  rewrite Z.mod_small by lia. lia.
Qed.

Lemma wrap_int_add_l a b : Int.wrap_int (Int.wrap_int a + b) = Int.wrap_int (a + b).
Proof.
  unfold Int.wrap_int.
  replace ((a + 2147483648) mod 4294967296 - 2147483648 + b + 2147483648)
    with ((a + 2147483648) mod 4294967296 + b) by lia.
  rewrite Zplus_mod_idemp_l. f_equal. f_equal. lia.
Qed.

Lemma wrap_long_add_l a b : Int.wrap_long (Int.wrap_long a + b) = Int.wrap_long (a + b).
Proof.
  unfold Int.wrap_long.
  replace ((a + 9223372036854775808) mod 18446744073709551616
           - 9223372036854775808 + b + 9223372036854775808)
    with ((a + 9223372036854775808) mod 18446744073709551616 + b) by lia.
  rewrite Zplus_mod_idemp_l. f_equal. f_equal. lia.
Qed.

(** ** Formatting *)

Section Formatting.
Import Fmt.

Lemma digit_value_char d : 0 <= d < 10 -> digit_value (digit_char d) = d.
Proof.
  intros H. unfold digit_value, digit_char.
  rewrite nat_ascii_embedding by lia. lia.
Qed.

Lemma dec_value_from_app a s1 s2 :
  dec_value_from a (String.append s1 s2) = dec_value_from (dec_value_from a s1) s2.
Proof. revert a. induction s1 as [|c s1 IH]; intros a; simpl; [reflexivity|apply IH]. Qed.

Lemma string_app_assoc_cons s c acc :
  String.append s (String c acc) = String.append (String.append s (String c EmptyString)) acc.
Proof. induction s as [|d s IH]; simpl; [reflexivity|now rewrite IH]. Qed.

Lemma string_length_app s1 s2 :
  String.length (String.append s1 s2) = (String.length s1 + String.length s2)%nat.
Proof. induction s1 as [|c s1 IH]; simpl; [reflexivity|now rewrite IH]. Qed.

(** The digits [dec_digits] puts in front of its accumulator: their value
    is [n] and their number is the number of decimal digits of [n]. *)
Lemma dec_digits_spec fuel : forall n acc,
  (1 <= fuel)%nat -> 0 <= n < 10 ^ Z.of_nat fuel ->
  exists d,
    dec_digits fuel n acc = String.append d acc /\
    (forall a, dec_value_from a d = a * 10 ^ Z.of_nat (String.length d) + n) /\
    n < 10 ^ Z.of_nat (String.length d) /\
    (1 <= String.length d)%nat /\
    (n < 10 -> String.length d = 1%nat) /\
    (10 <= n -> 10 ^ (Z.of_nat (String.length d) - 1) <= n).
Proof.
  induction fuel as [|f IH]; intros n acc Hf Hn.
  - lia.
  - simpl dec_digits. destruct (n <? 10) eqn:E.
    + apply Z.ltb_lt in E.
      exists (String (digit_char (n mod 10)) EmptyString). simpl.
      repeat split; try lia.
      intros a. rewrite Z.mod_small by lia. rewrite digit_value_char by lia. lia.
    + apply Z.ltb_ge in E.
      assert (Hq : 0 <= n / 10 < 10 ^ Z.of_nat f).
      { split; [apply Z.div_pos; lia|].
        apply Z.div_lt_upper_bound; [lia|].
        replace (Z.of_nat (S f)) with (Z.succ (Z.of_nat f)) in Hn by lia.
        rewrite Z.pow_succ_r in Hn by lia. lia. }
      assert (Hf1 : (1 <= f)%nat).
      { destruct f; [|lia]. simpl in Hq.
        assert (1 <= n / 10) by (apply Z.div_le_lower_bound; lia). lia. }
      destruct (IH (n / 10) (String (digit_char (n mod 10)) acc) Hf1 Hq)
        as (d & Hd & Hv & Hlt & Hlen & Hone & Hge).
      exists (String.append d (String (digit_char (n mod 10)) EmptyString)).
      rewrite string_length_app. simpl String.length.
      replace (Z.of_nat (String.length d + 1)) with (Z.succ (Z.of_nat (String.length d))) by lia.
      rewrite Z.pow_succ_r by lia.
      pose proof (Z.div_mod n 10 ltac:(lia)) as Hdm.
      pose proof (Z.mod_pos_bound n 10 ltac:(lia)) as Hmb.
      split; [rewrite Hd; apply string_app_assoc_cons|].
      split.
      { intros a. rewrite dec_value_from_app, Hv. simpl.
        rewrite digit_value_char by lia. lia. }
      split; [lia|]. split; [lia|]. split; [lia|].
      intros _. replace (Z.succ (Z.of_nat (String.length d)) - 1)
        with (Z.of_nat (String.length d)) by lia.
      destruct (Z.le_gt_cases 10 (n / 10)) as [H10|H10].
      * specialize (Hge H10).
        replace (Z.of_nat (String.length d))
          with (Z.succ (Z.of_nat (String.length d) - 1)) by lia.
        rewrite Z.pow_succ_r by lia. lia.
      * rewrite (Hone H10). simpl. lia.
Qed.

Lemma string_app_nil s : String.append s EmptyString = s.
Proof. induction s as [|c s IH]; simpl; [reflexivity|now rewrite IH]. Qed.

(** ["%02ld"] of a non-negative number: it reads back as the number, it is
    never shorter than two characters, and it is longer exactly from 100 on. *)
Lemma print_02ld_spec x :
  0 <= x < 10 ^ 20 ->
  dec_value (print_02ld x) = x /\
  (2 <= String.length (print_02ld x))%nat /\
  (x <= 99 -> String.length (print_02ld x) = 2%nat) /\
  (100 <= x -> (3 <= String.length (print_02ld x))%nat).
Proof.
  intros Hx. unfold print_02ld, print_ld.
  assert ((x <? 0) = false) as -> by (apply Z.ltb_ge; lia).
  destruct (dec_digits_spec 20 x EmptyString ltac:(lia) Hx)
    as (d & Hd & Hv & Hlt & Hlen & Hone & Hge).
  rewrite string_app_nil in Hd. rewrite Hd. clear Hd.
  destruct (String.length d <? 2)%nat eqn:E.
  - apply Nat.ltb_lt in E.
    assert (El : String.length d = 1%nat) by lia.
    rewrite El in Hlt. change (10 ^ Z.of_nat 1) with 10 in Hlt.
    unfold dec_value. simpl. rewrite Hv, El. repeat split; lia.
  - apply Nat.ltb_ge in E.
    assert (H10 : 10 <= x).
    { destruct (Z.le_gt_cases 10 x) as [H|H]; [exact H|]. specialize (Hone H). lia. }
    specialize (Hge H10).
    unfold dec_value. rewrite Hv. repeat split; try lia.
    + intros H99.
      destruct (Nat.le_gt_cases 3 (String.length d)) as [H3|H3]; [|lia].
      assert (10 ^ 2 <= 10 ^ (Z.of_nat (String.length d) - 1))
        by (apply Z.pow_le_mono_r; lia).
      lia.
    + intros H100.
      destruct (Nat.le_gt_cases 3 (String.length d)) as [H3|H3]; [exact H3|].
      assert (10 ^ Z.of_nat (String.length d) <= 10 ^ 2)
        by (apply Z.pow_le_mono_r; lia).
      lia.
Qed.

Lemma sprintf_length a b c :
  String.length (sprintf_02ld_02ld_02ld a b c) =
  (String.length (print_02ld a) + String.length (print_02ld b)
   + String.length (print_02ld c) + 2)%nat.
Proof.
  unfold sprintf_02ld_02ld_02ld.
  repeat (rewrite string_length_app; simpl String.length). lia.
Qed.

(** On a non-negative [long], C's [/] and [%] are the floor division and
    modulus. *)
Lemma timeFormat_fields t :
  0 <= t ->
  consumer_timeFormat t =
  sprintf_02ld_02ld_02ld (t / 3600000000000)
    ((t / 60000000000) mod 60) ((t / 1000000000) mod 60).
Proof.
  intros Ht. unfold consumer_timeFormat.
  rewrite !Z.quot_div_nonneg by lia.
  rewrite !Z.rem_mod_nonneg by (try apply Z.div_pos; lia).
  reflexivity.
Qed.

(** C7. For an elapsed time [t >= 0] the text is
    hours:minutes:seconds, every field zero-padded to two digits and
    truncated: hours is [t / 3600000000000], minutes is
    [(t / 60000000000) mod 60], seconds is [(t / 1000000000) mod 60];
    5025000000000 ns gives "01:23:45"; and the final summary line of
    [producer_consumer_exit] renders the total with the same function. *)
Theorem elapsed_time_format (t : Z) :
  0 <= t <= Int.LONG_MAX ->
  let h := t / 3600000000000 in
  let m := (t / 60000000000) mod 60 in
  let sec := (t / 1000000000) mod 60 in
  consumer_timeFormat t =
    String.append (print_02ld h)
      (String.append ":" (String.append (print_02ld m)
         (String.append ":" (print_02ld sec)))) /\
  dec_value (print_02ld h) = h /\
  dec_value (print_02ld m) = m /\
  dec_value (print_02ld sec) = sec /\
  String.length (print_02ld m) = 2%nat /\
  String.length (print_02ld sec) = 2%nat /\
  (2 <= String.length (print_02ld h))%nat /\
  (h <= 99 -> String.length (print_02ld h) = 2%nat) /\
  consumer_timeFormat 5025000000000 = "01:23:45"%string /\
  exit_timeFormat t = consumer_timeFormat t.
Proof.
  intros Ht h m sec. unfold Int.LONG_MAX in Ht.
  assert (Hh : 0 <= h < 10 ^ 20).
  { subst h. split; [apply Z.div_pos; lia|].
    apply Z.div_lt_upper_bound; lia. }
  assert (Hm : 0 <= m < 60) by (subst m; apply Z.mod_pos_bound; lia).
  assert (Hs : 0 <= sec < 60) by (subst sec; apply Z.mod_pos_bound; lia).
  destruct (print_02ld_spec h Hh) as (Vh & Lh & Lh2 & _).
  destruct (print_02ld_spec m ltac:(lia)) as (Vm & _ & Lm & _).
  destruct (print_02ld_spec sec ltac:(lia)) as (Vs & _ & Ls & _).
  split; [rewrite timeFormat_fields by lia; reflexivity|].
  split; [exact Vh|]. split; [exact Vm|]. split; [exact Vs|].
  split; [apply Lm; lia|]. split; [apply Ls; lia|].
  split; [exact Lh|]. split; [exact Lh2|].
  split; [vm_compute; reflexivity|reflexivity].
Qed.

Lemma elapsed_time_format_witness :
  0 <= 5025000000000 <= Int.LONG_MAX /\
  dec_value (print_02ld (5025000000000 / 3600000000000)) = 5025000000000 / 3600000000000.
Proof.
  assert (H : 0 <= 5025000000000 <= Int.LONG_MAX) by (unfold Int.LONG_MAX; lia).
  split; [exact H|].
  exact (proj1 (proj2 (elapsed_time_format 5025000000000 H))).
Defined.

(** The text fits [char timeFormat[9]] exactly while the hours stay
    below 100. *)
Lemma timeFormat_fits_iff t :
  0 <= t <= Int.LONG_MAX ->
  fits_timeFormat (consumer_timeFormat t) = true <-> t < 360000000000000.
Proof.
  intros Ht. unfold Int.LONG_MAX in Ht.
  rewrite timeFormat_fields by lia.
  unfold fits_timeFormat, timeFormat_size. rewrite sprintf_length.
  set (h := t / 3600000000000).
  assert (Hh : 0 <= h < 10 ^ 20).
  { subst h. split; [apply Z.div_pos; lia|apply Z.div_lt_upper_bound; lia]. }
  destruct (print_02ld_spec h Hh) as (_ & Lh & Lh2 & Lh3).
  destruct (print_02ld_spec ((t / 60000000000) mod 60)
              ltac:(pose proof (Z.mod_pos_bound (t / 60000000000) 60); lia))
    as (_ & _ & Lm & _).
  destruct (print_02ld_spec ((t / 1000000000) mod 60)
              ltac:(pose proof (Z.mod_pos_bound (t / 1000000000) 60); lia))
    as (_ & _ & Ls & _).
  rewrite Lm, Ls
    by (pose proof (Z.mod_pos_bound (t / 60000000000) 60);
        pose proof (Z.mod_pos_bound (t / 1000000000) 60); lia).
  rewrite Z.leb_le.
  assert (Hiff : h <= 99 <-> t < 360000000000000).
  { subst h. split; intros H.
    - destruct (Z.lt_ge_cases t 360000000000000) as [|Hge]; [assumption|].
      assert (100 <= t / 3600000000000) by (apply Z.div_le_lower_bound; lia). lia.
    - assert (t / 3600000000000 < 100) by (apply Z.div_lt_upper_bound; lia). lia. }
  split; intros H.
  - apply Hiff. destruct (Z.le_gt_cases h 99) as [|Hgt]; [assumption|].
    specialize (Lh3 ltac:(lia)). lia.
  - rewrite (Lh2 (proj2 Hiff H)). lia.
Qed.

(** C9. A task that has run for 100 hours: the hours field is printed in
    full, three digits, and the text with its terminator then takes 10
    bytes, one more than [timeFormat] has.  The same holds for the total
    that [producer_consumer_exit] formats. *)
Theorem timeFormat_overflows_at_100_hours :
  consumer_timeFormat 360000000000000 = "100:00:00"%string /\
  exit_timeFormat 360000000000000 = "100:00:00"%string /\
  Z.of_nat (String.length (consumer_timeFormat 360000000000000)) + 1 = 10 /\
  timeFormat_size = 9 /\
  fits_timeFormat (consumer_timeFormat 360000000000000) = false /\
  fits_timeFormat (exit_timeFormat 360000000000000) = false.
Proof. repeat split; vm_compute; reflexivity. Qed.

End Formatting.

(** ** Loading *)

Lemma create_consumers_granted k n : forall i s,
  (forall j, kthread_run_consumer k j = None) ->
  fst (create_consumers k n i s) = None.
Proof.
  induction n as [|n IH]; intros i s Hk; simpl; [reflexivity|].
  rewrite Hk. apply IH, Hk.
Qed.

(** When the loop of [kthread_run] calls completes, it has appended
    [n] fresh consumers and touched nothing else. *)
Lemma create_consumers_done k n : forall i s s',
  create_consumers k n i s = (None, s') ->
  glob s' = glob s /\ producerThread s' = producerThread s /\ rmmod s' = rmmod s /\
  exists l, consumerThreads s' = consumerThreads s ++ l /\ length l = n /\
            Forall (fun c => c_pc c = CStart) l.
Proof.
  induction n as [|n IH]; intros i s s' H; simpl in H.
  - inversion H; subst. repeat split; auto. exists []. rewrite app_nil_r. auto.
  - destruct (kthread_run_consumer k i); [discriminate|].
    apply IH in H. simpl in H. destruct H as (Hg & Hp & Hx & l & Hl & Hn & Hall).
    repeat split; auto.
    eexists (_ :: l). rewrite Hl, <- app_assoc. simpl.
    repeat split; auto.
Qed.

Lemma create_consumers_error k n : forall i s e s',
  create_consumers k n i s = (Some e, s') -> e < 0.
Proof.
  induction n as [|n IH]; intros i s e s' H; simpl in H; [discriminate|].
  destruct (kthread_run_consumer k i) as [errno|].
  - inversion H. lia.
  - eapply IH, H.
Qed.

(** The state a successful [producer_consumer_init] leaves. *)
Lemma init_success k bs pr co uu s0 :
  producer_consumer_init k (insmod bs pr co uu) = (0, s0) ->
  1 <= bs /\ 0 <= co /\ (pr = 0 \/ pr = 1) /\
  (exists log,
     glob s0 = Globals bs pr co uu bs 0 1 (Some (replicate (Z.to_nat bs) None))
                 0 0 0 0 log /\
     puts log = [] /\ takes log = [] /\ elapsed log = []) /\
  (producerThread s0 = None \/
   producerThread s0 = Some (Producer PLoop (tasks k) init_task 0)) /\
  length (consumerThreads s0) = Z.to_nat co /\
  Forall (fun c => c_pc c = CStart) (consumerThreads s0) /\
  rmmod s0 = ExitThread (XStop 0) EmptyString.
Proof.
  unfold producer_consumer_init, insmod, with_glob. cbn.
  destruct (bs <? 1) eqn:E1; [intros H; inversion H|]. apply Z.ltb_ge in E1.
  destruct ((pr <? 0) || (1 <? pr)) eqn:E2; [intros H; inversion H|].
  apply orb_false_iff in E2. destruct E2 as [E2 E2']. apply Z.ltb_ge in E2, E2'.
  destruct (co <? 0) eqn:E3; [intros H; inversion H|]. apply Z.ltb_ge in E3.
  destruct (kmalloc_buffer k); cbn; [|intros H; inversion H].
  destruct (0 <? co) eqn:E4.
  - destruct (kmalloc_consumerThreads k); cbn; [|intros H; inversion H].
    match goal with |- context [create_consumers k ?n ?i ?s] =>
      destruct (create_consumers k n i s) as [r s1] eqn:Ec end.
    destruct r as [e|].
    + (* a failed kthread_run returns a negative value *)
      apply create_consumers_error in Ec. intros H. inversion H. lia.
    + apply create_consumers_done in Ec. cbn in Ec.
      destruct Ec as (Hg & Hp & Hx & l & Hl & Hn & Hall).
      destruct (pr =? 1) eqn:E5.
      * destruct (kthread_run_producer k); intros H; inversion H; subst; clear H.
        cbn. rewrite Hg, Hx. cbn.
        repeat split; try lia; auto.
        eexists. split; [reflexivity|]. cbn. auto.
      * intros H; inversion H; subst; clear H. rewrite Hg, Hp, Hx. cbn.
        apply Z.eqb_neq in E5.
        repeat split; try lia; auto.
        eexists. split; [reflexivity|]. cbn. auto.
  - apply Z.ltb_ge in E4.
    destruct (pr =? 1) eqn:E5.
    + destruct (kthread_run_producer k); intros H; inversion H; subst; clear H.
      cbn. repeat split; try lia; auto.
      eexists. split; [reflexivity|]. cbn. auto.
    + intros H; inversion H; subst; clear H. cbn.
      apply Z.eqb_neq in E5.
      repeat split; try lia; auto.
      eexists. split; [reflexivity|]. cbn. auto.
Qed.

Lemma create_consumers_sems k n : forall i s r s',
  create_consumers k n i s = (r, s') ->
  empty (glob s') = empty (glob s) /\ full (glob s') = full (glob s) /\
  mutex (glob s') = mutex (glob s).
Proof.
  induction n as [|n IH]; intros i s r s' H; simpl in H.
  - inversion H; subst; auto.
  - destruct (kthread_run_consumer k i).
    + inversion H; subst. destruct s as [g ? ? ?], g; cbn. auto.
    + apply IH in H. cbn in H. exact H.
Qed.

(** C8. With [buffSize < 1], [cons < 0] or [prod] outside {0,1} the
    initializer returns -1 having only printed: the module is as loaded,
    no storage is owned and no thread exists.  With a valid configuration
    the checks pass and the semaphores are initialised; if the kernel then
    grants the allocations and the threads, it returns 0 with the buffer,
    [cons] consumers and the producer exactly when [prod = 1]. *)
Theorem init_validation (k : kernel) (bs pr co uu : Z) :
  let r := producer_consumer_init k (insmod bs pr co uu) in
  ((bs < 1 \/ co < 0 \/ (pr <> 0 /\ pr <> 1)) ->
     fst r = -1 /\
     (exists msg,
        snd r = with_glob (printk (KErr msg))
                  (with_glob (printk (KInfo "producer_consumer module loaded"))
                     (insmod bs pr co uu))) /\
     buffer (glob (snd r)) = None /\
     producerThread (snd r) = None /\
     consumerThreads (snd r) = [] /\
     empty (glob (snd r)) = 0 /\ full (glob (snd r)) = 0 /\ mutex (glob (snd r)) = 0) /\
  ((1 <= bs /\ 0 <= co /\ (pr = 0 \/ pr = 1)) ->
     empty (glob (snd r)) = bs /\ full (glob (snd r)) = 0 /\ mutex (glob (snd r)) = 1 /\
     (kmalloc_buffer k = true -> kmalloc_consumerThreads k = true ->
      (forall i, kthread_run_consumer k i = None) -> kthread_run_producer k = None ->
      fst r = 0 /\
      buffer (glob (snd r)) = Some (replicate (Z.to_nat bs) None) /\
      length (consumerThreads (snd r)) = Z.to_nat co /\
      (producerThread (snd r) <> None <-> pr = 1))).
Proof.
  cbv zeta. split.
  - intros Hbad.
    unfold producer_consumer_init, insmod, with_glob. cbn.
    destruct (bs <? 1) eqn:E1.
    { cbn. repeat split; eauto. }
    apply Z.ltb_ge in E1.
    destruct ((pr <? 0) || (1 <? pr)) eqn:E2.
    { cbn. repeat split; eauto. }
    apply orb_false_iff in E2. destruct E2 as [E2 E2']. apply Z.ltb_ge in E2, E2'.
    destruct (co <? 0) eqn:E3.
    { cbn. repeat split; eauto. }
    apply Z.ltb_ge in E3. lia.
  - intros (Hbs & Hco & Hpr).
    destruct (producer_consumer_init k (insmod bs pr co uu)) as [r s1] eqn:Hinit.
    cbn [fst snd].
    assert (Hsem : empty (glob s1) = bs /\ full (glob s1) = 0 /\ mutex (glob s1) = 1).
    { revert Hinit. unfold producer_consumer_init, insmod, with_glob. cbn.
      assert ((bs <? 1) = false) as -> by (apply Z.ltb_ge; lia).
      assert ((pr <? 0) || (1 <? pr) = false) as ->
        by (apply orb_false_iff; split; apply Z.ltb_ge; lia).
      assert ((co <? 0) = false) as -> by (apply Z.ltb_ge; lia).
      destruct (kmalloc_buffer k); cbn; [|intros H; inversion H; cbn; auto].
      destruct (0 <? co) eqn:E4.
      - destruct (kmalloc_consumerThreads k); cbn; [|intros H; inversion H; cbn; auto].
        match goal with |- context [create_consumers k ?n ?i ?s] =>
          destruct (create_consumers k n i s) as [e s2] eqn:Ec end.
        apply create_consumers_sems in Ec. cbn in Ec. rename Ec into Hg.
        destruct e.
        + intros H; inversion H; subst; exact Hg.
        + destruct s2 as [g ? ? ?], g; cbn in Hg.
          destruct (pr =? 1); [destruct (kthread_run_producer k)|];
            intros H; inversion H; subst; cbn; exact Hg.
      - destruct (pr =? 1); [destruct (kthread_run_producer k)|];
          intros H; inversion H; subst; cbn; auto. }
    destruct Hsem as (He & Hf & Hm).
    split; [exact He|]. split; [exact Hf|]. split; [exact Hm|].
    intros Kb Kc Kr Kp.
    revert Hinit. unfold producer_consumer_init, insmod, with_glob. cbn.
    assert ((bs <? 1) = false) as -> by (apply Z.ltb_ge; lia).
    assert ((pr <? 0) || (1 <? pr) = false) as ->
      by (apply orb_false_iff; split; apply Z.ltb_ge; lia).
    assert ((co <? 0) = false) as -> by (apply Z.ltb_ge; lia).
    rewrite Kb, Kp. cbn.
    destruct (0 <? co) eqn:E4.
    + rewrite Kc. cbn.
      match goal with |- context [create_consumers k ?n ?i ?s] =>
        pose proof (create_consumers_granted k n i s Kr) as Hnone;
        destruct (create_consumers k n i s) as [e s2] eqn:Ec end.
      cbn in Hnone. subst e.
      apply create_consumers_done in Ec. cbn in Ec.
      destruct Ec as (Hg & Hpt & Hx & l & Hl & Hn & _).
      rewrite <- Hl in Hn. clear Hl l.
      destruct (pr =? 1) eqn:E5; intros H; inversion H; subst r s1; cbn;
        rewrite ?Hg, ?Hpt; cbn.
      * apply Z.eqb_eq in E5. repeat split; auto; congruence.
      * apply Z.eqb_neq in E5. repeat split; auto; congruence.
    + apply Z.ltb_ge in E4. assert (co = 0) as -> by lia.
      destruct (pr =? 1) eqn:E5; intros H; inversion H; subst r s1; cbn.
      * apply Z.eqb_eq in E5. repeat split; auto; congruence.
      * apply Z.eqb_neq in E5. repeat split; auto; congruence.
Qed.

Lemma init_validation_witness :
  fst (producer_consumer_init (Kernel [] true true (fun _ => None) None)
         (insmod 0 1 1 0)) = -1 /\
  fst (producer_consumer_init (Kernel [] true true (fun _ => None) None)
         (insmod 2 1 5 0)) = 0.
Proof.
  split.
  - refine (proj1 (proj1 (init_validation (Kernel [] true true (fun _ => None) None)
                            0 1 1 0) _)).
    left. lia.
  - refine (proj1 (proj2 (proj2 (proj2 (proj2
              (init_validation (Kernel [] true true (fun _ => None) None) 2 1 5 0) _)))
              _ _ _ _));
      [ repeat split; try lia; right; reflexivity
      | reflexivity | reflexivity | intros i; reflexivity | reflexivity ].
Defined.

(** ** Sums over the consumers *)

Lemma wsum_app f l1 l2 : wsum f (l1 ++ l2) = wsum f l1 + wsum f l2.
Proof. induction l1 as [|c l1 IH]; simpl; [reflexivity|rewrite IH; lia]. Qed.

Lemma insert_middle {A} (l : list A) i c c' :
  l !! i = Some c ->
  exists l1 l2, l = l1 ++ c :: l2 /\ <[i := c']> l = l1 ++ c' :: l2 /\ length l1 = i.
Proof.
  intros H. exists (take i l), (drop (S i) l).
  pose proof (lookup_lt_Some _ _ _ H) as Hlt.
  split; [symmetry; apply take_drop_middle; exact H|].
  split; [apply insert_take_drop; exact Hlt|].
  rewrite length_take. lia.
Qed.

Lemma wsum_insert f l i c c' :
  l !! i = Some c -> wsum f (<[i := c']> l) = wsum f l - f c + f c'.
Proof.
  intros H. destruct (insert_middle l i c c' H) as (l1 & l2 & -> & -> & _).
  rewrite !wsum_app. simpl. lia.
Qed.

Lemma wsum_alter f h l i :
  (forall c, f (h c) = f c) -> wsum f (alter h i l) = wsum f l.
Proof.
  intros Hf. revert i. induction l as [|c l IH]; intros [|i]; simpl; auto.
  - now rewrite Hf.
  - f_equal. apply IH.
Qed.

Lemma wsum_nonneg f l : (forall c, 0 <= f c) -> 0 <= wsum f l.
Proof. intros Hf. induction l as [|c l IH]; simpl; [lia|specialize (Hf c); lia]. Qed.

Lemma wsum_zero f l : Forall (fun c => f c = 0) l -> wsum f l = 0.
Proof. induction 1 as [|c l Hc _ IH]; simpl; lia. Qed.

Lemma wsum_zero_inv f l :
  (forall c, 0 <= f c) -> wsum f l = 0 -> Forall (fun c => f c = 0) l.
Proof.
  intros Hf. induction l as [|c l IH]; simpl; intros H; constructor.
  - pose proof (Hf c). pose proof (wsum_nonneg f l Hf). lia.
  - apply IH. pose proof (Hf c). pose proof (wsum_nonneg f l Hf). lia.
Qed.

(** If the thread at [i] accounts for the whole of [wsum f], any weight
    that vanishes with [f] is carried by that thread alone. *)
Lemma wsum_exclusive f h l i c :
  (forall c, 0 <= f c) -> (forall c, f c = 0 -> h c = 0) ->
  l !! i = Some c -> wsum f l <= f c -> wsum h l = h c.
Proof.
  intros Hf Hh Hi Hle.
  destruct (insert_middle l i c c Hi) as (l1 & l2 & -> & _ & _).
  rewrite wsum_app in *. simpl in *.
  pose proof (wsum_nonneg f l1 Hf). pose proof (wsum_nonneg f l2 Hf).
  assert (H1 : wsum h l1 = 0).
  { apply wsum_zero. eapply Forall_impl; [apply (wsum_zero_inv f); [exact Hf|lia]|].
    simpl. auto. }
  assert (H2 : wsum h l2 = 0).
  { apply wsum_zero. eapply Forall_impl; [apply (wsum_zero_inv f); [exact Hf|lia]|].
    simpl. auto. }
  lia.
Qed.

Lemma in_hand_nil l : Forall (fun c => c_mx c = 0) l -> flat_map c_in_hand l = [].
Proof.
  induction 1 as [|c l Hc _ IH]; simpl; [reflexivity|].
  rewrite IH, app_nil_r. unfold c_mx, c_in_hand in *. destruct (c_pc c); auto; lia.
Qed.

Lemma in_hand_insert_same l i c c' :
  l !! i = Some c -> c_in_hand c' = c_in_hand c ->
  flat_map c_in_hand (<[i := c']> l) = flat_map c_in_hand l.
Proof.
  intros H E. destruct (insert_middle l i c c' H) as (l1 & l2 & -> & -> & _).
  rewrite !flat_map_app. simpl. now rewrite E.
Qed.

Lemma c_mx_nonneg c : 0 <= c_mx c.
Proof. unfold c_mx. destruct (c_pc c); lia. Qed.

Lemma in_hand_exclusive l i c c' :
  l !! i = Some c -> wsum c_mx l <= c_mx c ->
  flat_map c_in_hand l = c_in_hand c /\
  flat_map c_in_hand (<[i := c']> l) = c_in_hand c'.
Proof.
  intros H Hle. destruct (insert_middle l i c c' H) as (l1 & l2 & -> & -> & _).
  rewrite wsum_app in Hle. simpl in Hle.
  pose proof (wsum_nonneg c_mx l1 c_mx_nonneg).
  pose proof (wsum_nonneg c_mx l2 c_mx_nonneg).
  rewrite !flat_map_app. simpl.
  rewrite (in_hand_nil l1), (in_hand_nil l2), !app_nil_r;
    try (apply (wsum_zero_inv c_mx); [exact c_mx_nonneg|lia]).
  auto.
Qed.

Lemma in_hand_alter l i :
  flat_map c_in_hand (alter stop_request i l) = flat_map c_in_hand l.
Proof.
  revert i. induction l as [|c l IH]; intros [|i]; simpl; auto.
  f_equal. apply IH.
Qed.

#[local] Arguments wsum : simpl never.

(** ** The log *)

Lemma puts_app l1 l2 : puts (l1 ++ l2) = puts l1 ++ puts l2.
Proof. apply flat_map_app. Qed.
Lemma takes_app l1 l2 : takes (l1 ++ l2) = takes l1 ++ takes l2.
Proof. apply flat_map_app. Qed.
Lemma elapsed_app l1 l2 : elapsed (l1 ++ l2) = elapsed l1 ++ elapsed l2.
Proof. apply flat_map_app. Qed.
Lemma sumZ_app l1 l2 : sumZ (l1 ++ l2) = sumZ l1 + sumZ l2.
Proof. induction l1 as [|z l1 IH]; simpl; [reflexivity|rewrite IH; lia]. Qed.

Lemma puts_snoc l e : puts (l ++ [e]) = puts l ++ put_of e.
Proof. rewrite puts_app. unfold puts at 2. simpl. now rewrite app_nil_r. Qed.
Lemma takes_snoc l e : takes (l ++ [e]) = takes l ++ take_of e.
Proof. rewrite takes_app. unfold takes at 2. simpl. now rewrite app_nil_r. Qed.
Lemma elapsed_snoc l e : elapsed (l ++ [e]) = elapsed l ++ elapsed_of e.
Proof. rewrite elapsed_app. unfold elapsed at 2. simpl. now rewrite app_nil_r. Qed.

Lemma wsum_lookup_le f (l : list consumer) i c :
  (forall c, 0 <= f c) -> l !! i = Some c -> f c <= wsum f l.
Proof.
  intros Hf Hi. destruct (insert_middle l i c c Hi) as (l1 & l2 & -> & _ & _).
  rewrite wsum_app. unfold wsum at 2. simpl. fold (wsum f l2).
  pose proof (wsum_nonneg f l1 Hf). pose proof (wsum_nonneg f l2 Hf). lia.
Qed.

#[local] Arguments puts : simpl never.
#[local] Arguments takes : simpl never.
#[local] Arguments elapsed : simpl never.

(** ** Indices modulo [buffSize] *)

Lemma rem_wrap_succ x C :
  0 <= x < C -> C <= Int.INT_MAX ->
  Z.rem (Int.wrap_int (x + 1)) C = (x + 1) mod C /\ 0 <= (x + 1) mod C < C.
Proof.
  intros Hx HC. unfold Int.INT_MAX in HC.
  rewrite wrap_int_id by (unfold Int.INT_MAX; lia).
  rewrite Z.rem_mod_nonneg by lia.
  split; [reflexivity|apply Z.mod_pos_bound; lia].
Qed.

Lemma mod_add_cong a b c C : a mod C = b mod C -> (a + c) mod C = (b + c) mod C.
Proof. intros H. rewrite (Zplus_mod a), (Zplus_mod b), H. reflexivity. Qed.

Lemma mod_distinct h k n C :
  0 <= k < n -> n < C + k -> (h + k) mod C <> (h + n) mod C.
Proof.
  intros Hk Hn E.
  assert (H0 : ((h + n) - (h + k)) mod C = 0).
  { rewrite Zminus_mod, E, Z.sub_diag. apply Z.mod_0_l. lia. }
  replace (h + n - (h + k)) with (n - k) in H0 by lia.
  rewrite Z.mod_small in H0 by lia. lia.
Qed.

Lemma window_congr b C h h' pending :
  h mod C = h' mod C -> window b C h pending -> window b C h' pending.
Proof.
  intros E W k t Hk. rewrite <- (mod_add_cong _ _ (Z.of_nat k) C E). apply W, Hk.
Qed.

(** ** The invariant holds once the module is loaded *)

Lemma wsum_fresh f l :
  (forall c, c_pc c = CStart -> f c = 0) ->
  Forall (fun c => c_pc c = CStart) l -> wsum f l = 0.
Proof.
  intros Hf Hl. apply wsum_zero. eapply Forall_impl; [exact Hl|]. exact Hf.
Qed.

Lemma init_Inv k bs pr co uu s0 :
  is_int bs -> is_int co ->
  producer_consumer_init k (insmod bs pr co uu) = (0, s0) -> Inv s0.
Proof.
  intros Hbs Hco Hinit. unfold is_int in *.
  destruct (init_success _ _ _ _ _ _ Hinit)
    as (H1 & H2 & H3 & (log & Hg & Hpu & Hta & Hel) & Hp & Hlen & Hall & Hx).
  destruct s0 as [g p cs x]. cbn in *. subst g x.
  assert (Hw : forall f, (forall c, c_pc c = CStart -> f c = 0) -> wsum f cs = 0)
    by (intros f Hf; apply wsum_fresh; assumption).
  assert (Hih : flat_map c_in_hand cs = []).
  { apply in_hand_nil. eapply Forall_impl; [exact Hall|].
    intros c Hc. unfold c_mx. now rewrite Hc. }
  assert (Hpw : forall f, (forall q, p_pc q = PLoop -> f q = 0) -> pw f p = 0).
  { intros f Hf. destruct Hp as [->| ->]; cbn; auto. }
  assert (Hph : p_in_hand p = []) by (destruct Hp as [->| ->]; reflexivity).
  constructor; cbn.
  - lia.
  - lia.
  - lia.
  - lia.
  - lia.
  - rewrite Hw, Hpw; [reflexivity| |]; intros c Hc; [unfold p_mx|unfold c_mx];
      now rewrite Hc.
  - eapply Forall_impl; [exact Hall|]. intros c Hc. unfold consumer_ok, c_rl.
    rewrite Hc. split; [discriminate|lia].
  - lia.
  - intros j c _ Hj. lia.
  - rewrite length_replicate. lia.
  - exists []. unfold written, read_out. cbn. rewrite Hpu, Hta, Hih, Hph.
    rewrite !Hw, !Hpw;
      try (intros c Hc; (unfold p_a || unfold p_b || unfold p_t || unfold c_a
                         || unfold c_b || unfold c_h); now rewrite Hc).
    repeat split; try reflexivity; try lia.
    intros b _ j t Hj. discriminate.
  - rewrite Hta, Hel, !Hw;
      try (intros c Hc; (unfold c_cnt || unfold c_ns); now rewrite Hc).
    split; reflexivity.
Qed.

(** ** A consumer's statement keeps the invariant *)

Section ConsumerSteps.

(** While some consumer has not returned, [producer_consumer_exit] is
    still in its [kthread_stop] loop: it has released nothing and freed
    nothing. *)
Lemma alive_phase s i c :
  Inv s -> consumerThreads s !! i = Some c -> c_pc c <> CDone ->
  x_mx (rmmod s) = 0 /\ x_f (rmmod s) = 0 /\
  (exists b, buffer (glob s) = Some b /\ Z.of_nat (length b) = buffSize (glob s)) /\
  ~ Z.of_nat i < x_joined (cons (glob s)) (rmmod s).
Proof.
  intros HI Hi Hc.
  assert (Hnj : ~ Z.of_nat i < x_joined (cons (glob s)) (rmmod s)).
  { intros Hlt. apply Hc. eapply (inv_joined s HI); eauto. }
  pose proof (lookup_lt_Some _ _ _ Hi) as Hlen.
  pose proof (inv_cons s HI) as [Hco _].
  pose proof (inv_buffer s HI) as Hbuf.
  unfold x_joined, x_mx, x_f, x_freed in *.
  destruct (x_pc (rmmod s)); try lia;
    (repeat split; auto;
     destruct (buffer (glob s)) as [b|]; [exists b; auto|discriminate]).
Qed.

Lemma joined_insert (cs : list consumer) i c' co x :
  ~ Z.of_nat i < x_joined co x ->
  (forall (j : nat) c, cs !! j = Some c -> Z.of_nat j < x_joined co x -> c_pc c = CDone) ->
  forall (j : nat) c, <[i := c']> cs !! j = Some c -> Z.of_nat j < x_joined co x ->
    c_pc c = CDone.
Proof.
  intros Hi H j c Hj Hlt.
  destruct (decide (i = j)) as [->|Hne]; [lia|].
  rewrite list_lookup_insert_ne in Hj by exact Hne. eauto.
Qed.

Lemma weights_nonneg c :
  0 <= c_mx c <= 1 /\ 0 <= c_a c <= 1 /\ 0 <= c_b c <= 1 /\ 0 <= c_rl c <= 1 /\
  0 <= c_h c <= 1 /\ 0 <= c_cnt c <= 1.
Proof.
  unfold c_mx, c_a, c_b, c_rl, c_h, c_cnt. destruct (c_pc c); lia.
Qed.

Lemma pweights_nonneg p :
  0 <= pw p_mx p <= 1 /\ 0 <= pw p_a p <= 1 /\ 0 <= pw p_b p <= 1 /\
  0 <= pw p_wl p <= 1 /\ 0 <= pw p_t p <= 1.
Proof.
  destruct p as [p|]; cbn; [|lia].
  unfold p_mx, p_a, p_b, p_wl, p_t. destruct (p_pc p); lia.
Qed.

#[local] Arguments c_mx c /.
#[local] Arguments c_a c /.
#[local] Arguments c_b c /.
#[local] Arguments c_rl c /.
#[local] Arguments c_h c /.
#[local] Arguments c_cnt c /.
#[local] Arguments c_ns c /.
#[local] Arguments c_in_hand c /.

Lemma consumer_step_Inv s i c sig now g' c' :
  Inv s -> consumerThreads s !! i = Some c ->
  kthread_consumer sig now (glob s) c = (g', c') ->
  Inv (System g' (producerThread s) (<[i := c']> (consumerThreads s)) (rmmod s)).
Proof.
  intros HI Hi Hstep.
  assert (c_pc c = CDone \/ c_pc c <> CDone) as [Hdone|Halive]
    by (destruct (c_pc c); auto; right; discriminate).
  { unfold kthread_consumer in Hstep. rewrite Hdone in Hstep.
    inversion Hstep; subst. rewrite list_insert_id by exact Hi.
    destruct s; exact HI. }
  destruct (alive_phase s i c HI Hi Halive) as (Hxm & Hxf & (b & Hb & Hbl) & Hnj).
  pose proof (joined_insert _ i c' _ _ Hnj (inv_joined s HI)) as Hjo'.
  assert (Hokc : consumer_ok c).
  { eapply Forall_lookup_1; [apply (inv_ok s HI)|exact Hi]. }
  pose proof (wsum_insert c_mx _ _ _ c' Hi) as Wmx.
  pose proof (wsum_insert c_a _ _ _ c' Hi) as Wa.
  pose proof (wsum_insert c_b _ _ _ c' Hi) as Wb.
  pose proof (wsum_insert c_h _ _ _ c' Hi) as Wh.
  pose proof (wsum_insert c_cnt _ _ _ c' Hi) as Wcnt.
  pose proof (wsum_insert c_ns _ _ _ c' Hi) as Wns.
  pose proof (wsum_lookup_le c_mx _ _ _ c_mx_nonneg Hi) as Lmx.
  pose proof (wsum_lookup_le c_a _ _ _
                (fun c => proj1 (proj1 (proj2 (weights_nonneg c)))) Hi) as La.
  pose proof (wsum_nonneg c_b (consumerThreads s)
                (fun c => proj1 (proj1 (proj2 (proj2 (weights_nonneg c)))))) as Nb.
  pose proof (pweights_nonneg (producerThread s)) as Np.
  pose proof HI as HI0.
  destruct HI as [Isz Ico Ihd Itl Ise Imx Iok Ixp Ijo Ibu
                    (pending & Hwr & Hem & Hfu & Hfu' & Hmod & Hwin) (Htc & Htn)].
  destruct s as [g p cs x].
  destruct g as [bs pr co uu em fu mu bf hd tl tc tn lg].
  unfold written, read_out, consumer_ok in *.
  cbn in *. subst bf. specialize (Hwin b eq_refl).
  unfold kthread_consumer in Hstep. cbn in Hstep.
  destruct (c_pc c) eqn:Epc; try congruence;
    try (unfold down_interruptible in Hstep;
         match type of Hstep with context [0 <? ?v] =>
           destruct (Z.ltb_spec 0 v); [|destruct sig]
         end);
    try (match type of Hstep with context [if c_should_stop c then _ else _] =>
           destruct (c_should_stop c) end);
    try (match type of Hstep with context [match c_task c with _ => _ end] =>
           destruct (c_task c) as [t|] eqn:Etask;
           [|destruct Hokc as [_ Hsome]; specialize (Hsome eq_refl);
             destruct Hsome; discriminate] end);
    inversion Hstep; subst g' c'; clear Hstep; cbn in *; rewrite ?Epc in *;
    cbn in *;
    try (rewrite list_insert_id by exact Hi; exact HI0).
  all: unfold up.
  (* the consumer at [CRead] is alone in the critical section and finds
     the oldest unconsumed item under [head] *)
  all: try match goal with E : c_pc _ = CRead |- _ =>
    assert (Hh0 : wsum c_h cs = 0)
      by (rewrite (wsum_exclusive c_mx c_h cs i c c_mx_nonneg
                     ltac:(intros c0; cbn; destruct (c_pc c0); auto; discriminate) Hi
                     ltac:(cbn; rewrite E; lia));
          cbn; rewrite E; reflexivity);
    destruct (in_hand_exclusive cs i c
                (Consumer CCount (c_name c) (c_should_stop c)
                   (if 0 <=? hd then mjoin (b !! Z.to_nat hd) else None)
                   (c_taskTime c) (c_timeFormat c)) Hi
                ltac:(cbn; rewrite E; lia)) as [Hih Hih'];
    cbn in Hih, Hih'; rewrite E in Hih;
    destruct pending as [|t0 rest]; [cbn in *; lia|];
    assert (Hrd : (if 0 <=? hd then mjoin (b !! Z.to_nat hd) else None) = Some t0)
      by (pose proof (Hwin 0%nat t0 eq_refl) as Hw0;
          rewrite Hh0, !Z.add_0_r, Z.mod_small in Hw0 by lia;
          rewrite Hw0; destruct (Z.leb_spec 0 hd); [reflexivity|lia]);
    rewrite Hrd in *
  end.
  all: try match goal with E : c_pc _ = CPrintk |- _ =>
    destruct (in_hand_exclusive cs i c (c_goto CAdvance c) Hi
                ltac:(cbn; rewrite E; lia)) as [Hih Hih'];
    cbn in Hih, Hih'; rewrite E, ?Etask in Hih
  end.
  all: try match goal with E : c_pc _ = CAdvance |- _ =>
    destruct (rem_wrap_succ hd bs Ihd ltac:(lia)) as [Erem Hrem];
    rewrite Erem in *
  end.
  all: constructor; cbn; rewrite ?length_insert, ?Wmx, ?Wa, ?Wb, ?Wh, ?Wcnt, ?Wns;
    try first
      [ lia
      | assumption
      | apply Forall_insert; [assumption|];
        unfold consumer_ok; cbn; rewrite ?Epc, ?Etask; split;
        [discriminate|intros; first [lia | apply Hokc; reflexivity | solve [eauto]]]
      | exists pending; unfold written, read_out; cbn;
        rewrite ?puts_snoc, ?takes_snoc; cbn; rewrite ?app_nil_r;
        rewrite (in_hand_insert_same _ _ _ _ Hi)
          by (cbn; rewrite ?Epc, ?Etask; reflexivity);
        (split; [exact Hwr|]); (split; [lia|]); (split; [lia|]); (split; [lia|]);
        split;
        [ etransitivity; [exact Hmod|f_equal; lia]
        | intros b0 Hb0; inversion Hb0; subst b0;
          eapply window_congr; [|exact Hwin]; f_equal; lia ]
      | rewrite ?takes_snoc, ?elapsed_snoc; cbn;
        rewrite ?app_nil_r, ?length_app, ?sumZ_app; cbn;
        split;
        [ first [rewrite Htc; f_equal; lia
                | rewrite Htc, wrap_int_add_l; f_equal; lia]
        | first [rewrite Htn; f_equal; lia
                | rewrite Htn, wrap_long_add_l; f_equal; lia] ]
      ].
  - (* CRead: the item leaves the buffer *)
    exists rest. unfold written, read_out; cbn.
    rewrite Hih'. rewrite Hih in Hwr. cbn [length] in *.
    split; [rewrite Hwr, app_nil_r, <- app_assoc; reflexivity|].
    split; [lia|]. split; [lia|]. split; [lia|]. split.
    + etransitivity; [exact Hmod|f_equal; lia].
    + intros b0 Hb0; inversion Hb0; subst b0. intros k t Hk.
      rewrite <- (Hwin (S k) t Hk). do 3 f_equal. lia.
  - (* CPrintk: the item in hand enters the log *)
    exists pending. unfold written, read_out; cbn.
    rewrite puts_snoc, takes_snoc; cbn. rewrite Hih', !app_nil_r.
    rewrite Hih in Hwr.
    split; [exact Hwr|]. split; [lia|]. split; [lia|]. split; [lia|]. split.
    + etransitivity; [exact Hmod|f_equal; lia].
    + intros b0 Hb0; inversion Hb0; subst b0.
      eapply window_congr; [|exact Hwin]; f_equal; lia.
  - (* CAdvance *)
    exists pending. unfold written, read_out; cbn.
    rewrite (in_hand_insert_same _ _ _ _ Hi) by (cbn; rewrite ?Epc; reflexivity).
    split; [exact Hwr|]. split; [lia|]. split; [lia|]. split; [lia|]. split.
    + rewrite <- !Z.add_assoc, Zplus_mod_idemp_l.
      etransitivity; [exact Hmod|f_equal; lia].
    + intros b0 Hb0; inversion Hb0; subst b0.
      eapply window_congr; [|exact Hwin].
      rewrite Zplus_mod_idemp_l. f_equal. lia.
Qed.

End ConsumerSteps.

(** ** The producer's statements keep the invariant *)

Section ProducerSteps.

#[local] Arguments p_mx p /.
#[local] Arguments p_a p /.
#[local] Arguments p_b p /.
#[local] Arguments p_wl p /.
#[local] Arguments p_t p /.

Lemma window_snoc b C h pending t (tl : Z) :
  0 < C -> 0 <= tl < C -> Z.of_nat (length b) = C ->
  Z.of_nat (length pending) < C ->
  tl mod C = (h + Z.of_nat (length pending)) mod C ->
  window b C h pending ->
  window (<[Z.to_nat tl := Some t]> b) C h (pending ++ [t]).
Proof.
  intros HC Htl Hlen Hn Hmod W k u Hk.
  rewrite Z.mod_small in Hmod by lia.
  destruct (Nat.lt_ge_cases k (length pending)) as [Hlt|Hge].
  - rewrite lookup_app_l in Hk by lia.
    rewrite list_lookup_insert_ne; [apply W, Hk|].
    intros E. apply Z2Nat.inj in E;
      [|lia|apply Z.mod_pos_bound; lia].
    rewrite Hmod in E. symmetry in E. revert E.
    apply mod_distinct; lia.
  - rewrite lookup_app_r in Hk by lia.
    destruct (k - length pending)%nat as [|m] eqn:Em; [|destruct m; discriminate].
    cbn in Hk. inversion Hk; subst u.
    assert (k = length pending) as -> by lia.
    rewrite <- Hmod. apply list_lookup_insert_eq. lia.
Qed.

Lemma producer_step_Inv s p sig g' p' :
  Inv s -> producerThread s = Some p ->
  kthread_producer sig (glob s) p = (g', p') ->
  Inv (System g' (Some p') (consumerThreads s) (rmmod s)).
Proof.
  intros HI Hp Hstep.
  pose proof (wsum_nonneg c_mx (consumerThreads s) c_mx_nonneg) as Nmx.
  pose proof (wsum_nonneg c_b (consumerThreads s)
                (fun c => proj1 (proj1 (proj2 (proj2 (weights_nonneg c)))))) as Nb.
  pose proof (wsum_nonneg c_a (consumerThreads s)
                (fun c => proj1 (proj1 (proj2 (weights_nonneg c))))) as Na.
  pose proof HI as HI0.
  destruct HI as [Isz Ico Ihd Itl Ise Imx Iok Ixp Ijo Ibu
                    (pending & Hwr & Hem & Hfu & Hfu' & Hmod & Hwin) (Htc & Htn)].
  destruct s as [g po cs x].
  destruct g as [bs pr co uu em fu mu bf hd tl tc tn lg].
  unfold written, read_out in *.
  cbn in *. subst po. cbn in *.
  unfold kthread_producer in Hstep. cbn in Hstep.
  destruct (p_pc p) eqn:Epc;
    try (unfold down_interruptible in Hstep;
         match type of Hstep with context [0 <? ?v] =>
           destruct (Z.ltb_spec 0 v); [|destruct sig]
         end);
    try (match type of Hstep with context [match p_todo p with _ => _ end] =>
           destruct (p_todo p) end);
    try (match type of Hstep with context [if ?cnd then _ else _] =>
           destruct cnd end);
    try (match type of Hstep with context [buffer_write] =>
           unfold buffer_write in Hstep; cbn in Hstep;
           destruct bf as [b|]; [destruct (Z.leb_spec 0 tl); [|lia]|] end);
    inversion Hstep; subst g' p'; clear Hstep; cbn in *; rewrite ?Epc in *;
    cbn in *;
    try (assert (p = p_goto (p_pc p) p) as Hpp by (destruct p; reflexivity);
         rewrite Epc in Hpp; rewrite <- Hpp);
    try exact HI0.
  all: unfold up.
  all: try match goal with E : p_pc _ = PAdvance |- _ =>
    destruct (rem_wrap_succ tl bs Itl ltac:(lia)) as [Erem Hrem];
    rewrite Erem in *
  end.
  all: constructor; cbn;
    try first
      [ lia
      | assumption
      | rewrite length_insert; assumption
      | exists pending; unfold written, read_out; cbn;
        rewrite ?puts_snoc, ?takes_snoc; cbn; rewrite ?app_nil_r, ?Epc;
        rewrite ?app_nil_r in Hwr;
        (split; [exact Hwr|]); (split; [lia|]); (split; [lia|]); (split; [lia|]);
        split;
        [ etransitivity; [exact Hmod|f_equal; lia]
        | exact Hwin ]
      | rewrite ?takes_snoc, ?elapsed_snoc; cbn;
        rewrite ?app_nil_r, ?length_app, ?sumZ_app; cbn;
        split; [rewrite Htc; f_equal; lia|rewrite Htn; f_equal; lia]
      ].
  - (* PWrite: the item enters the slot under [tail], which is free *)
    exists (pending ++ [p_task p]). unfold written, read_out; cbn.
    rewrite ?app_nil_r in Hwr. rewrite Hwr, length_app, app_assoc. cbn.
    split; [reflexivity|]. split; [lia|]. split; [lia|]. split; [lia|]. split.
    + etransitivity; [|etransitivity; [apply (mod_add_cong _ _ 1 _ Hmod)|]];
        f_equal; lia.
    + intros b0 Hb0; inversion Hb0; subst b0.
      apply window_snoc; try lia; [|apply Hwin; reflexivity].
      etransitivity; [|exact Hmod]. f_equal; lia.
  - (* PWrite once the buffer has been freed: nothing is tracked *)
    exists (pending ++ [p_task p]). unfold written, read_out; cbn.
    rewrite ?app_nil_r in Hwr. rewrite Hwr, length_app, app_assoc. cbn.
    split; [reflexivity|]. split; [lia|]. split; [lia|]. split; [lia|]. split.
    + etransitivity; [|etransitivity; [apply (mod_add_cong _ _ 1 _ Hmod)|]];
        f_equal; lia.
    + intros b0 Hb0; discriminate.
  - (* PAdvance *)
    exists pending. unfold written, read_out; cbn.
    rewrite ?Epc, ?app_nil_r. rewrite ?app_nil_r in Hwr.
    split; [exact Hwr|]. split; [lia|]. split; [lia|]. split; [lia|].
    split; [|exact Hwin].
    rewrite Z.add_0_r, Z.mod_mod by lia. exact Hmod.
Qed.

End ProducerSteps.

(** ** The statements of [producer_consumer_exit] keep the invariant *)

Section ExitSteps.

#[local] Arguments x_mx x /.
#[local] Arguments x_f x /.
#[local] Arguments x_freed x /.
#[local] Arguments x_joined co x /.

Lemma returned_done c : returned c = true -> c_pc c = CDone.
Proof. unfold returned. destruct (c_pc c); congruence. Qed.

Lemma exit_step_Inv s : Inv s -> Inv (producer_consumer_exit s).
Proof.
  intros HI. pose proof HI as HI0.
  destruct HI as [Isz Ico Ihd Itl Ise Imx Iok Ixp Ijo Ibu
                    (pending & Hwr & Hem & Hfu & Hfu' & Hmod & Hwin) (Htc & Htn)].
  destruct s as [g p cs x].
  destruct g as [bs pr co uu em fu mu bf hd tl tc tn lg].
  unfold written, read_out in *.
  unfold producer_consumer_exit. cbn in *.
  destruct (x_pc x) as [i|i| | | | | | |] eqn:Epc; cbn in *.
  - (* XStop *)
    destruct (Z.ltb_spec i co).
    + constructor; cbn; rewrite ?length_alter, ?Epc;
        rewrite ?(wsum_alter c_mx), ?(wsum_alter c_a), ?(wsum_alter c_b),
          ?(wsum_alter c_h), ?(wsum_alter c_cnt), ?(wsum_alter c_ns)
          by reflexivity;
        try first [lia | assumption].
      * apply Forall_alter; [exact Iok|]. intros c _ Hc. exact Hc.
      * intros j c Hj Hlt.
        destruct (decide (Z.to_nat i = j)) as [<-|Hne].
        -- rewrite list_lookup_alter_eq in Hj.
           apply fmap_Some in Hj as (c0 & E0 & ->). cbn.
           eapply Ijo; eauto.
        -- rewrite list_lookup_alter_ne in Hj by exact Hne. eapply Ijo; eauto.
      * exists pending. unfold written, read_out; cbn. rewrite in_hand_alter.
        rewrite ?(wsum_alter c_a), ?(wsum_alter c_b), ?(wsum_alter c_h) by reflexivity.
        repeat split; assumption.
    + constructor; cbn; rewrite ?Epc; try first [lia | assumption].
      * intros j c Hj Hlt. eapply Ijo; eauto. lia.
      * exists pending. unfold written, read_out; cbn. repeat split; assumption.
  - (* XWait *)
    destruct (cs !! Z.to_nat i) as [c|] eqn:Ec; [|exact HI0].
    destruct (returned c) eqn:Er; [|exact HI0].
    apply returned_done in Er.
    rewrite wrap_int_id by (unfold Int.INT_MAX in *; lia).
    constructor; cbn; rewrite ?Epc; try first [lia | assumption].
    + intros j c0 Hj Hlt.
      destruct (decide (Z.to_nat i = j)) as [<-|Hne].
      * rewrite Ec in Hj. inversion Hj; subst c0. exact Er.
      * eapply Ijo; eauto. lia.
    + exists pending. unfold written, read_out; cbn. repeat split; assumption.
  - (* XUpMutex *)
    unfold up. constructor; cbn; rewrite ?Epc; try first [lia | assumption].
    + exists pending. unfold written, read_out; cbn. repeat split; assumption.
  - (* XUpFull *)
    unfold up. constructor; cbn; rewrite ?Epc; try first [lia | assumption].
    + exists pending. unfold written, read_out; cbn. repeat split; try assumption; lia.
  - (* XKfreeBuffer *)
    constructor; cbn; rewrite ?Epc; try first [lia | assumption | reflexivity].
    + exists pending. unfold written, read_out; cbn. repeat split; try assumption.
      intros b Hb; discriminate.
  - (* XKfreeThreads *)
    constructor; cbn; rewrite ?Epc; try first [lia | assumption].
    + exists pending. unfold written, read_out; cbn. repeat split; assumption.
  - (* XSprintf *)
    constructor; cbn; rewrite ?Epc; try first [lia | assumption].
    + exists pending. unfold written, read_out; cbn. repeat split; assumption.
  - (* XPrintk *)
    constructor; cbn; rewrite ?Epc; try first [lia | assumption].
    + exists pending. unfold written, read_out; cbn.
      rewrite puts_snoc, takes_snoc. cbn. rewrite !app_nil_r.
      repeat split; assumption.
    + rewrite takes_snoc, elapsed_snoc. cbn. rewrite !app_nil_r. split; assumption.
  - exact HI0.
Qed.

End ExitSteps.

(** ** Every reachable state satisfies the invariant *)

Lemma step_Inv s a : Inv s -> Inv (step s a).
Proof.
  intros HI. unfold step. destruct (who a) as [|i|].
  - destruct (producerThread s) as [p|] eqn:Hp; [|exact HI].
    destruct (kthread_producer (signal_pending a) (glob s) p) as [g' p'] eqn:Hs.
    eapply producer_step_Inv; eauto.
  - destruct (consumerThreads s !! i) as [c|] eqn:Hc; [|exact HI].
    destruct (kthread_consumer (signal_pending a) (now a) (glob s) c) as [g' c'] eqn:Hs.
    eapply consumer_step_Inv; eauto.
  - apply exit_step_Inv, HI.
Qed.

Lemma run_Inv sched : forall s, Inv s -> Inv (run sched s).
Proof.
  induction sched as [|a sched IH]; intros s HI; [exact HI|].
  simpl. apply IH, step_Inv, HI.
Qed.

Lemma reachable_Inv k bs pr co uu s :
  is_int bs -> is_int co -> reachable k bs pr co uu s -> Inv s.
Proof.
  intros Hbs Hco (s0 & sched & Hinit & ->).
  apply run_Inv. exact (init_Inv k bs pr co uu s0 Hbs Hco Hinit).
Qed.

(** ** What a step leaves alone *)

Lemma consumer_frame sig now g c g' c' :
  kthread_consumer sig now g c = (g', c') ->
  same_params g g' /\ puts (klog g') = puts (klog g) /\ tail g' = tail g /\
  buffer g' = buffer g.
Proof.
  unfold kthread_consumer, down_interruptible, same_params.
  destruct g as [bs pr co uu em fu mu bf hd tl tc tn lg]. cbn.
  destruct (c_pc c); cbn;
    repeat match goal with
           | |- context [if ?b then _ else _] => destruct b
           | |- context [match c_task c with _ => _ end] => destruct (c_task c)
           end;
    intros H; inversion H; subst; cbn; rewrite ?puts_snoc; cbn;
    rewrite ?app_nil_r; auto 10.
Qed.

Lemma producer_frame sig g p g' p' :
  kthread_producer sig g p = (g', p') ->
  same_params g g' /\ takes (klog g') = takes (klog g) /\
  elapsed (klog g') = elapsed (klog g) /\ head g' = head g /\
  totalConsumed g' = totalConsumed g /\
  totalProcessNanoseconds g' = totalProcessNanoseconds g.
Proof.
  unfold kthread_producer, down_interruptible, buffer_write, same_params.
  destruct g as [bs pr co uu em fu mu bf hd tl tc tn lg]. cbn.
  destruct (p_pc p); cbn;
    repeat match goal with
           | |- context [if ?b then _ else _] => destruct b
           | |- context [match p_todo p with _ => _ end] => destruct (p_todo p)
           | |- context [match bf with _ => _ end] => destruct bf
           end;
    intros H; inversion H; subst; cbn; rewrite ?takes_snoc, ?elapsed_snoc; cbn;
    rewrite ?app_nil_r; auto 10.
Qed.

Lemma exit_frame s :
  same_params (glob s) (glob (producer_consumer_exit s)) /\
  puts (klog (glob (producer_consumer_exit s))) = puts (klog (glob s)) /\
  producerThread (producer_consumer_exit s) = producerThread s /\
  head (glob (producer_consumer_exit s)) = head (glob s) /\
  tail (glob (producer_consumer_exit s)) = tail (glob s).
Proof.
  unfold producer_consumer_exit, same_params.
  destruct s as [g p cs x].
  destruct g as [bs pr co uu em fu mu bf hd tl tc tn lg]. cbn.
  destruct (x_pc x); cbn;
    repeat match goal with
           | |- context [if ?b then _ else _] => destruct b
           | |- context [match ?o with Some _ => _ | None => _ end] => destruct o
           end;
    cbn; rewrite ?puts_snoc; cbn; rewrite ?app_nil_r; auto 10.
Qed.

Lemma step_params s a : same_params (glob s) (glob (step s a)).
Proof.
  unfold step. destruct (who a) as [|i|].
  - destruct (producerThread s) as [p|]; [|unfold same_params; auto].
    destruct (kthread_producer (signal_pending a) (glob s) p) as [g' p'] eqn:Hs.
    apply producer_frame in Hs. cbn. tauto.
  - destruct (consumerThreads s !! i) as [c|]; [|unfold same_params; auto].
    destruct (kthread_consumer (signal_pending a) (now a) (glob s) c) as [g' c'] eqn:Hs.
    apply consumer_frame in Hs. cbn. tauto.
  - apply exit_frame.
Qed.

Lemma run_params sched : forall s, same_params (glob s) (glob (run sched s)).
Proof.
  induction sched as [|a sched IH]; intros s; [unfold same_params; auto|].
  simpl. destruct (IH (step s a)) as (H1 & H2 & H3 & H4).
  destruct (step_params s a) as (G1 & G2 & G3 & G4).
  unfold same_params. repeat split; congruence.
Qed.

Lemma reachable_params k bs pr co uu s :
  reachable k bs pr co uu s ->
  buffSize (glob s) = bs /\ prod (glob s) = pr /\ cons (glob s) = co /\
  uuid (glob s) = uu.
Proof.
  intros (s0 & sched & Hinit & ->).
  destruct (run_params sched s0) as (H1 & H2 & H3 & H4).
  destruct (init_success _ _ _ _ _ _ Hinit) as (_ & _ & _ & (log & Hg & _) & _).
  rewrite H1, H2, H3, H4, Hg. cbn. auto.
Qed.

(** ** The indices *)

(** C10. [head] and [tail] are 0 when the module has been loaded, each
    advance is taken modulo [buffSize], and in every reachable state both
    lie in [0, buffSize). *)
Theorem head_tail_in_range (k : kernel) (bs pr co uu : Z) (s : system) :
  is_int bs -> is_int co -> 1 <= bs ->
  reachable k bs pr co uu s ->
  (forall s0, producer_consumer_init k (insmod bs pr co uu) = (0, s0) ->
     head (glob s0) = 0 /\ tail (glob s0) = 0) /\
  buffSize (glob s) = bs /\
  0 <= head (glob s) < bs /\ 0 <= tail (glob s) < bs /\
  (forall p sig g' p', producerThread s = Some p -> p_pc p = PAdvance ->
     kthread_producer sig (glob s) p = (g', p') ->
     tail g' = (tail (glob s) + 1) mod bs /\ head g' = head (glob s)) /\
  (forall i c sig now g' c', consumerThreads s !! i = Some c -> c_pc c = CAdvance ->
     kthread_consumer sig now (glob s) c = (g', c') ->
     head g' = (head (glob s) + 1) mod bs /\ tail g' = tail (glob s)).
Proof.
  intros Hbs Hco H1 Hr.
  pose proof (reachable_Inv _ _ _ _ _ _ Hbs Hco Hr) as HI.
  destruct (reachable_params _ _ _ _ _ _ Hr) as (Es & _).
  pose proof (inv_head s HI) as Hh. pose proof (inv_tail s HI) as Ht.
  pose proof (inv_size s HI) as Hsz.
  rewrite Es in *.
  split.
  { intros s0 H0. destruct (init_success _ _ _ _ _ _ H0) as (_ & _ & _ & (log & Hg & _) & _).
    rewrite Hg. cbn. auto. }
  split; [reflexivity|]. split; [exact Hh|]. split; [exact Ht|]. split.
  - intros p sig g' p' Hp Hpc Hstep.
    unfold kthread_producer in Hstep. rewrite Hpc in Hstep.
    inversion Hstep; subst g' p'. rewrite Es.
    destruct (rem_wrap_succ (tail (glob s)) bs Ht ltac:(lia)) as [E _].
    destruct (glob s); cbn in *. auto.
  - intros i c sig now g' c' Hc Hpc Hstep.
    unfold kthread_consumer in Hstep. rewrite Hpc in Hstep.
    inversion Hstep; subst g' c'. rewrite Es.
    destruct (rem_wrap_succ (head (glob s)) bs Hh ltac:(lia)) as [E _].
    destruct (glob s); cbn in *. auto.
Qed.

Lemma demo_reachable sched :
  reachable demo_kernel 2 1 2 1 (run sched (demo_boot 2 1 2)).
Proof. exists (demo_boot 2 1 2), sched. split; [vm_compute|]; reflexivity. Qed.

Lemma demo_int : is_int 2.
Proof. unfold is_int, Int.INT_MAX. lia. Qed.

Lemma head_tail_in_range_witness :
  0 <= head (glob (run demo_sched (demo_boot 2 1 2))) < 2 /\
  0 <= tail (glob (run demo_sched (demo_boot 2 1 2))) < 2.
Proof.
  pose proof (head_tail_in_range demo_kernel 2 1 2 1 (run demo_sched (demo_boot 2 1 2))
                demo_int demo_int ltac:(lia)
                (demo_reachable demo_sched)) as H.
  split; [exact (proj1 (proj2 (proj2 H)))|exact (proj1 (proj2 (proj2 (proj2 H))))].
Defined.

(** ** Order and capacity *)

Lemma Inv_unconsumed s pending :
  written s = read_out s ++ pending ->
  unconsumed s = pending /\ filled s = Z.of_nat (length pending).
Proof.
  intros H. unfold unconsumed, filled. rewrite H, drop_app_length, length_app.
  split; [reflexivity|lia].
Qed.

Lemma p_in_hand_weight p :
  (p_in_hand p = [] /\ pw p_wl p = 0) \/
  (exists t, p_in_hand p = [t] /\ pw p_b p = 1).
Proof.
  destruct p as [p|]; cbn; [|left; auto].
  unfold p_wl, p_b. destruct (p_pc p); eauto.
Qed.

(** C2. In every reachable state the items logged by the consumers are,
    in order, an initial part of the items logged by the producer, the
    remainder being the items in a consumer's hand or still in the buffer;
    when as many items have been taken as were put, the two sequences are
    equal.  This holds for any number of consumers, one included. *)
Theorem fifo_order (k : kernel) (bs pr co uu : Z) (s : system) :
  is_int bs -> is_int co ->
  reachable k bs pr co uu s ->
  written s = read_out s ++ unconsumed s /\
  (exists rest, puts (klog (glob s)) = takes (klog (glob s)) ++ rest) /\
  (length (takes (klog (glob s))) = length (puts (klog (glob s))) ->
   takes (klog (glob s)) = puts (klog (glob s))).
Proof.
  intros Hbs Hco Hr.
  pose proof (reachable_Inv _ _ _ _ _ _ Hbs Hco Hr) as HI.
  destruct (inv_items s HI) as (pending & Hwr & _ & _ & Hfu' & _ & _).
  destruct (Inv_unconsumed s pending Hwr) as [Eu _].
  assert (Hpre : exists rest, puts (klog (glob s)) = takes (klog (glob s)) ++ rest).
  { unfold written, read_out in Hwr.
    destruct (p_in_hand_weight (producerThread s)) as [[E _]|(t & E & Hb)];
      rewrite E in Hwr.
    - rewrite app_nil_r in Hwr. rewrite Hwr, <- app_assoc. eauto.
    - pose proof (wsum_nonneg c_a (consumerThreads s)
                    (fun c => proj1 (proj1 (proj2 (weights_nonneg c))))) as Na.
      destruct (exists_last (l := pending)) as (pending' & u & ->).
      { intros ->. cbn in Hfu'. lia. }
      rewrite !app_assoc in Hwr. apply app_inj_tail in Hwr as [Hwr _].
      rewrite Hwr, <- !app_assoc. eauto. }
  split; [rewrite Eu; exact Hwr|]. split; [exact Hpre|].
  destruct Hpre as (rest & E). intros Hlen. rewrite E, length_app in Hlen.
  destruct rest; [|cbn in Hlen; lia]. rewrite E, app_nil_r. reflexivity.
Qed.

Lemma fifo_order_witness :
  takes (klog (glob (run demo_sched (demo_boot 2 1 2))))
  = puts (klog (glob (run demo_sched (demo_boot 2 1 2)))).
Proof.
  refine (proj2 (proj2 (fifo_order demo_kernel 2 1 2 1 _ demo_int
                          demo_int (demo_reachable demo_sched))) _).
  vm_compute. reflexivity.
Defined.

(** C4. In every reachable state the count of filled slots is within
    [0, buffSize], and each unconsumed item sits in its own slot.  A
    producer about to store finds the slot under [tail] free; a consumer
    about to read finds the oldest unconsumed item under [head].  With the
    buffer full [empty] is 0 and the producer's [down_interruptible] sleeps;
    with the buffer empty [full] is 0 and a consumer's sleeps. *)
Theorem capacity_bound (k : kernel) (bs pr co uu : Z) (s : system) :
  is_int bs -> is_int co -> 1 <= bs ->
  reachable k bs pr co uu s ->
  buffSize (glob s) = bs /\
  0 <= filled s <= bs /\
  filled s = Z.of_nat (length (unconsumed s)) /\
  (forall b (j : nat) t, buffer (glob s) = Some b -> unconsumed s !! j = Some t ->
     b !! Z.to_nat (slot_of s j) = Some (Some t)) /\
  (forall p, producerThread s = Some p -> p_pc p = PWrite ->
     filled s < bs /\
     forall j : nat, (j < length (unconsumed s))%nat -> slot_of s j <> tail (glob s)) /\
  (forall i c, consumerThreads s !! i = Some c -> c_pc c = CRead ->
     exists t rest, unconsumed s = t :: rest /\
       buffer_read (glob s) (head (glob s)) = Some t) /\
  (forall p, producerThread s = Some p -> p_pc p = PDownEmpty -> filled s = bs ->
     empty (glob s) = 0 /\ kthread_producer false (glob s) p = (glob s, p)) /\
  (forall i c now, consumerThreads s !! i = Some c -> c_pc c = CDownFull ->
     filled s = 0 ->
     full (glob s) = 0 /\ kthread_consumer false now (glob s) c = (glob s, c)).
Proof.
  intros Hbs Hco H1 Hr.
  pose proof (reachable_Inv _ _ _ _ _ _ Hbs Hco Hr) as HI.
  destruct (reachable_params _ _ _ _ _ _ Hr) as (Es & _).
  destruct (inv_items s HI) as (pending & Hwr & Hem & Hfu & Hfu' & Hmod & Hwin).
  destruct (Inv_unconsumed s pending Hwr) as [Eu Ef].
  pose proof (inv_sems s HI) as (Se & Sf & Sm).
  pose proof (inv_tail s HI) as Ht. pose proof (inv_head s HI) as Hh.
  pose proof (wsum_nonneg c_b (consumerThreads s)
                (fun c => proj1 (proj1 (proj2 (proj2 (weights_nonneg c)))))) as Nb.
  pose proof (wsum_nonneg c_a (consumerThreads s)
                (fun c => proj1 (proj1 (proj2 (weights_nonneg c))))) as Na.
  pose proof (pweights_nonneg (producerThread s)) as Np.
  rewrite Eu, Ef, Es in *. unfold slot_of. rewrite Es.
  split; [reflexivity|]. split; [lia|]. split; [reflexivity|]. split.
  { intros b j t Hb Hj. apply (Hwin b Hb j t Hj). }
  split.
  { intros p Hp Hpc. rewrite Hp in *. cbn in *. unfold p_a, p_t in *.
    rewrite Hpc in *. split; [lia|].
    intros j Hj E.
    rewrite Z.add_0_r, (Z.mod_small (tail (glob s))) in Hmod by lia.
    rewrite Hmod in E.
    revert E. apply mod_distinct; lia. }
  split.
  { intros i c Hc Hpc.
    assert (Halive : c_pc c <> CDone) by (rewrite Hpc; discriminate).
    destruct (alive_phase s i c HI Hc Halive) as (Hxm & Hxf & (b & Hb & Hbl) & _).
    pose proof (inv_mutex s HI) as Imx. rewrite Hxm in Imx.
    pose proof (wsum_lookup_le c_a _ _ _
                  (fun c => proj1 (proj1 (proj2 (weights_nonneg c)))) Hc) as La.
    assert (Hc1 : c_mx c = 1) by (unfold c_mx; rewrite Hpc; reflexivity).
    assert (Hh0 : wsum c_h (consumerThreads s) = 0).
    { rewrite (wsum_exclusive c_mx c_h _ i c c_mx_nonneg
                 ltac:(intros c0; unfold c_mx, c_h; destruct (c_pc c0); auto; discriminate)
                 Hc ltac:(rewrite Hc1; lia)).
      unfold c_h. rewrite Hpc. reflexivity. }
    assert (Ha1 : c_a c = 1) by (unfold c_a; rewrite Hpc; reflexivity).
    rewrite Ha1 in La.
    destruct pending as [|t rest]; [cbn in Hfu'; lia|].
    exists t, rest. split; [reflexivity|].
    pose proof (Hwin b Hb 0%nat t eq_refl) as Hw0.
    rewrite Hh0, !Z.add_0_r, (Z.mod_small (head (glob s))) in Hw0 by lia.
    unfold buffer_read. rewrite Hb, Hw0.
    destruct (Z.leb_spec 0 (head (glob s))); [reflexivity|lia]. }
  split.
  { intros p Hp Hpc Hfull. assert (He : empty (glob s) = 0) by lia.
    split; [exact He|].
    unfold kthread_producer, down_interruptible. rewrite Hpc, He. reflexivity. }
  intros i c now Hc Hpc Hempty.
  assert (Halive : c_pc c <> CDone) by (rewrite Hpc; discriminate).
  destruct (alive_phase s i c HI Hc Halive) as (_ & Hxf & _ & _).
  assert (Hf : full (glob s) = 0) by lia.
  split; [exact Hf|].
  unfold kthread_consumer, down_interruptible. rewrite Hpc, Hf. reflexivity.
Qed.

Lemma capacity_bound_witness :
  0 <= filled (run demo_sched (demo_boot 2 1 2)) <= 2.
Proof.
  exact (proj1 (proj2 (capacity_bound demo_kernel 2 1 2 1 _ demo_int
                         demo_int ltac:(lia) (demo_reachable demo_sched)))).
Defined.

(** ** Statistics *)

Lemma elapsed_length log : length (elapsed log) = length (takes log).
Proof.
  unfold elapsed, takes. induction log as [|e log IH]; simpl; [reflexivity|].
  rewrite !length_app, IH. destruct e; reflexivity.
Qed.

Lemma quiet_consumers (cs : list consumer) :
  wsum c_mx cs = 0 -> wsum c_cnt cs = 0 /\ wsum c_ns cs = 0.
Proof.
  intros H. apply (wsum_zero_inv c_mx _ c_mx_nonneg) in H.
  split; apply wsum_zero; (eapply Forall_impl; [exact H|]); intros c;
    unfold c_mx, c_cnt, c_ns; destruct (c_pc c); auto; discriminate.
Qed.

(** C6, as the code has it.  With K items logged as consumed and their
    elapsed times e1..eK, [totalConsumed] is K and
    [totalProcessNanoseconds] is e1 + ... + eK up to the wrap-around of
    [int] and [long] (and up to the item a consumer is accounting for at
    that moment); they are exactly K and the sum whenever no consumer is
    inside the critical section and both values fit their types.  Each
    elapsed time is the clock minus the item's start time, and a consumer
    updates the counters only while it alone holds [mutex]. *)
Theorem statistics_aggregation (k : kernel) (bs pr co uu : Z) (s : system) :
  is_int bs -> is_int co ->
  reachable k bs pr co uu s ->
  let K := Z.of_nat (length (takes (klog (glob s)))) in
  let es := elapsed (klog (glob s)) in
  Z.of_nat (length es) = K /\
  totalConsumed (glob s) = Int.wrap_int (K + wsum c_cnt (consumerThreads s)) /\
  totalProcessNanoseconds (glob s)
    = Int.wrap_long (sumZ es + wsum c_ns (consumerThreads s)) /\
  (wsum c_mx (consumerThreads s) = 0 ->
   K <= Int.INT_MAX -> - 9223372036854775808 <= sumZ es <= Int.LONG_MAX ->
   totalConsumed (glob s) = K /\ totalProcessNanoseconds (glob s) = sumZ es) /\
  (forall i c, consumerThreads s !! i = Some c -> c_mx c = 1 ->
     mutex (glob s) = 0 /\ pw p_mx (producerThread s) = 0 /\
     wsum c_mx (consumerThreads s) = 1) /\
  (forall i c t sig now g' c', consumerThreads s !! i = Some c ->
     c_pc c = CTime -> c_task c = Some t ->
     kthread_consumer sig now (glob s) c = (g', c') ->
     c_taskTime c' = Int.wrap_long (now - start_time t)).
Proof.
  intros Hbs Hco Hr K es.
  pose proof (reachable_Inv _ _ _ _ _ _ Hbs Hco Hr) as HI.
  destruct (inv_stats s HI) as [Htc Htn]. fold K in Htc. fold es in Htn.
  split; [unfold es, K; rewrite elapsed_length; reflexivity|].
  split; [exact Htc|]. split; [exact Htn|]. split.
  { intros Hq HK Hsum. destruct (quiet_consumers _ Hq) as [Hc Hn].
    rewrite Htc, Htn, Hc, Hn, !Z.add_0_r.
    rewrite wrap_int_id by (unfold K in *; lia).
    rewrite wrap_long_id by lia. auto. }
  split.
  { intros i c Hc Hc1.
    assert (Halive : c_pc c <> CDone).
    { intros E. unfold c_mx in Hc1. rewrite E in Hc1. discriminate. }
    destruct (alive_phase s i c HI Hc Halive) as (Hxm & _).
    pose proof (inv_mutex s HI) as Imx. rewrite Hxm in Imx.
    pose proof (inv_sems s HI) as (_ & _ & Sm).
    pose proof (pweights_nonneg (producerThread s)) as Np.
    pose proof (wsum_lookup_le c_mx _ _ _ c_mx_nonneg Hc) as Lmx.
    lia. }
  intros i c t sig now g' c' Hc Hpc Htask Hstep.
  unfold kthread_consumer in Hstep. rewrite Hpc, Htask in Hstep.
  inversion Hstep; subst. reflexivity.
Qed.

Lemma statistics_aggregation_witness :
  totalConsumed (glob (run demo_sched (demo_boot 2 1 2)))
  = Z.of_nat (length (takes (klog (glob (run demo_sched (demo_boot 2 1 2)))))) /\
  totalProcessNanoseconds (glob (run demo_sched (demo_boot 2 1 2)))
  = sumZ (elapsed (klog (glob (run demo_sched (demo_boot 2 1 2))))).
Proof.
  refine (proj1 (proj2 (proj2 (proj2
            (statistics_aggregation demo_kernel 2 1 2 1 _ demo_int
               demo_int (demo_reachable demo_sched))))) _ _ _);
    [ vm_compute; reflexivity | vm_compute; discriminate
    | split; vm_compute; discriminate ].
Defined.

(** C6 as stated fails once the sum no longer fits a [long]: 300 tasks
    that have each run for a year add up to more than 2^63 ns, and the
    total wraps to a negative number. *)
Lemma statistics_sum_wraps :
  totalConsumed (glob old_state) = 300 /\
  elapsed (klog (glob old_state)) = repeat year_ns 300 /\
  sumZ (elapsed (klog (glob old_state))) = 9460800000000000000 /\
  totalProcessNanoseconds (glob old_state) = - 8985944073709551616 /\
  totalProcessNanoseconds (glob old_state) <> sumZ (elapsed (klog (glob old_state))).
Proof.
  split; [vm_compute; reflexivity|].
  split; [vm_compute; reflexivity|].
  split; [vm_compute; reflexivity|].
  split; [vm_compute; reflexivity|].
  vm_compute. discriminate.
Qed.

(** ** The producer's pass over the task list *)

Lemma pass_inv_ext strict all s s' :
  producerThread s' = producerThread s ->
  puts (klog (glob s')) = puts (klog (glob s)) ->
  uuid (glob s') = uuid (glob s) ->
  pass_inv strict all s -> pass_inv strict all s'.
Proof.
  unfold pass_inv, written. intros -> -> ->. auto.
Qed.

Lemma producer_step_pass strict all s p sig g' p' :
  (strict = true -> sig = false) ->
  producerThread s = Some p ->
  kthread_producer sig (glob s) p = (g', p') ->
  pass_inv strict all s ->
  pass_inv strict all (System g' (Some p') (consumerThreads s) (rmmod s)).
Proof.
  intros Hsig Hp Hstep. unfold pass_inv, written. rewrite Hp. cbn.
  intros (visited & Hall & H).
  destruct s as [g po cs x]. cbn in *. subst po.
  destruct g as [bs pr co uu em fu mu bf hd tl tc tn lg]. cbn in *.
  unfold kthread_producer, down_interruptible, buffer_write in Hstep. cbn in Hstep.
  unfold p_carrying in *.
  destruct (p_pc p) eqn:Epc; cbn in *.
  - (* PLoop *)
    destruct (p_todo p) as [|t rest] eqn:Etodo; inversion Hstep; subst g' p'; cbn.
    + exists visited. rewrite Etodo. split; [exact Hall|].
      exists []. rewrite app_nil_r in *. repeat split; auto.
    + exists (visited ++ [t]). rewrite <- app_assoc. split; [exact Hall|].
      rewrite List.filter_app, H. cbn. rewrite !app_nil_r.
      unfold matches. cbn. destruct (uid t =? uu); reflexivity.
  - (* PFilter *)
    unfold matches in *.
    destruct (uid (p_task p) =? uu); inversion Hstep; subst g' p'; cbn;
      exists visited; auto.
  - (* PDownEmpty *)
    destruct (0 <? em); [|destruct sig eqn:Es]; inversion Hstep; subst g' p'; cbn;
      rewrite ?Epc; exists visited; (split; [exact Hall|]); auto.
    exists [p_task p]. split; [exact H|]. split; [cbn; lia|].
    intros Hs. specialize (Hsig Hs). discriminate.
  - (* PDownMutex *)
    destruct (0 <? mu); [|destruct sig eqn:Es]; inversion Hstep; subst g' p'; cbn;
      rewrite ?Epc; exists visited; (split; [exact Hall|]); auto.
    exists [p_task p]. split; [exact H|]. split; [cbn; lia|].
    intros Hs. specialize (Hsig Hs). discriminate.
  - (* PWrite *)
    assert (klog g' = lg /\ uuid g' = uu /\ p' = p_goto PCount p) as (-> & -> & ->).
    { destruct bf; [destruct (0 <=? tl)|]; inversion Hstep; subst; auto. }
    cbn. exists visited. rewrite app_nil_r in *. auto.
  - inversion Hstep; subst g' p'; cbn. exists visited. auto.
  - inversion Hstep; subst g' p'; cbn. exists visited. rewrite puts_snoc. cbn.
    rewrite !app_nil_r in *. auto.
  - inversion Hstep; subst g' p'; cbn. exists visited. auto.
  - inversion Hstep; subst g' p'; cbn. exists visited. auto.
  - inversion Hstep; subst g' p'; cbn. exists visited. auto.
  - inversion Hstep; subst g' p'; cbn. rewrite Epc. exists visited. auto.
Qed.

Lemma step_pass strict all s a :
  (strict = true -> who a = TProducer -> signal_pending a = false) ->
  pass_inv strict all s -> pass_inv strict all (step s a).
Proof.
  intros Hsig HP. unfold step. destruct (who a) as [|i|] eqn:Ew.
  - destruct (producerThread s) as [p|] eqn:Hp; [|exact HP].
    destruct (kthread_producer (signal_pending a) (glob s) p) as [g' p'] eqn:Hs.
    apply (producer_step_pass strict all s p (signal_pending a) g' p'); auto.
  - destruct (consumerThreads s !! i) as [c|] eqn:Hc; [|exact HP].
    destruct (kthread_consumer (signal_pending a) (now a) (glob s) c) as [g' c'] eqn:Hs.
    apply consumer_frame in Hs as ((_ & _ & _ & Hu) & Hpu & _).
    eapply pass_inv_ext; [| | |exact HP]; cbn; auto.
  - destruct (exit_frame s) as ((_ & _ & _ & Hu) & Hpu & Hpt & _).
    eapply pass_inv_ext; [| | |exact HP]; auto.
Qed.

Lemma run_pass strict all sched : forall s,
  (strict = true -> producer_uninterrupted sched) ->
  pass_inv strict all s -> pass_inv strict all (run sched s).
Proof.
  induction sched as [|a sched IH]; intros s Hq HP; [exact HP|].
  simpl. apply IH.
  - intros Hs. specialize (Hq Hs). inversion Hq; assumption.
  - apply step_pass; [|exact HP].
    intros Hs. specialize (Hq Hs). inversion Hq; assumption.
Qed.

Lemma init_pass strict k bs pr co uu s0 :
  producer_consumer_init k (insmod bs pr co uu) = (0, s0) ->
  pass_inv strict (tasks k) s0.
Proof.
  intros Hinit.
  destruct (init_success _ _ _ _ _ _ Hinit)
    as (_ & _ & _ & (log & Hg & Hpu & _) & Hp & _).
  unfold pass_inv, written. rewrite Hg. cbn.
  destruct Hp as [-> | ->]; [exact Hpu|].
  exists []. cbn. rewrite Hpu. auto.
Qed.

(** C5. A task whose owner is not [uuid] is passed over: the producer
    goes back to the loop head and nothing else changes (no slot, no count,
    no log record); a task whose owner is [uuid] goes on to be stored.  In
    every reachable state the logged items are, in order, the matching
    tasks among those visited, up to the one being stored; all of them
    match; and a scan that no signal interrupts ends with exactly the
    matching tasks logged.  For owners 1, 1, 2, 3, 1 and [uuid = 1] these
    are the first, second and fifth task. *)
Theorem filter_correctness (k : kernel) (bs pr co uu : Z) (s0 : system)
    (sched : list action) :
  producer_consumer_init k (insmod bs pr co uu) = (0, s0) ->
  let s := run sched s0 in
  (forall sig g p, p_pc p = PFilter -> uid (p_task p) <> uuid g ->
     kthread_producer sig g p = (g, p_goto PLoop p) /\
     p_count (p_goto PLoop p) = p_count p) /\
  (forall sig g p, p_pc p = PFilter -> uid (p_task p) = uuid g ->
     kthread_producer sig g p = (g, p_goto PDownEmpty p)) /\
  (forall p, producerThread s = Some p ->
     exists visited rest,
       tasks k = visited ++ p_todo p /\
       List.filter (matches uu) visited = puts (klog (glob s)) ++ rest /\
       (length rest <= 1)%nat) /\
  Forall (fun t => uid t = uu) (puts (klog (glob s))) /\
  (producer_uninterrupted sched ->
   forall p, producerThread s = Some p -> p_pc p = PDone ->
     puts (klog (glob s)) = List.filter (matches uu) (tasks k)) /\
  puts (klog (glob (run (quiet TProducer 0 60) (demo_boot 3 1 0))))
  = [Task 101 1 10; Task 102 1 20; Task 105 1 50].
Proof.
  intros Hinit s.
  assert (Hr : reachable k bs pr co uu s) by (exists s0, sched; auto).
  destruct (reachable_params _ _ _ _ _ _ Hr) as (_ & _ & _ & Eu).
  assert (Hweak : forall p, producerThread s = Some p ->
     exists visited rest,
       tasks k = visited ++ p_todo p /\
       List.filter (matches uu) visited = puts (klog (glob s)) ++ rest /\
       (length rest <= 1)%nat).
  { intros p Hp.
    pose proof (run_pass false (tasks k) sched s0 ltac:(discriminate)
                  (init_pass false _ _ _ _ _ _ Hinit)) as HP.
    fold s in HP. unfold pass_inv, written in HP. rewrite Hp, Eu in HP. cbn in HP.
    destruct HP as (visited & Hall & H). exists visited.
    unfold p_carrying, matches in H.
    destruct (p_pc p);
      try (destruct H as (rest & H & Hlen & _); rewrite app_nil_r in H; eauto);
      try (destruct (uid (p_task p) =? uu));
      rewrite <- ?app_assoc in H; eexists; (split; [exact Hall|]);
      (split; [exact H|]); cbn; lia. }
  split.
  { intros sig g p Hpc Hne. unfold kthread_producer. rewrite Hpc.
    apply Z.eqb_neq in Hne. rewrite Hne. auto. }
  split.
  { intros sig g p Hpc He. unfold kthread_producer. rewrite Hpc.
    apply Z.eqb_eq in He. rewrite He. auto. }
  split; [exact Hweak|]. split.
  { destruct (producerThread s) as [p|] eqn:Hp.
    - destruct (Hweak p eq_refl) as (visited & rest & _ & H & _).
      assert (Hf : Forall (fun t => uid t = uu) (List.filter (matches uu) visited)).
      { apply List.Forall_forall. intros t Ht. apply List.filter_In in Ht as [_ Ht].
        unfold matches in Ht. apply Z.eqb_eq in Ht. exact Ht. }
      rewrite H in Hf. apply Forall_app in Hf as [Hf _]. exact Hf.
    - pose proof (run_pass false (tasks k) sched s0 ltac:(discriminate)
                    (init_pass false _ _ _ _ _ _ Hinit)) as HP.
      fold s in HP. unfold pass_inv in HP. rewrite Hp in HP. rewrite HP. constructor. }
  split; [|vm_compute; reflexivity].
  intros Hq p Hp Hpc.
  pose proof (run_pass true (tasks k) sched s0 (fun _ => Hq)
                (init_pass true _ _ _ _ _ _ Hinit)) as HP.
  fold s in HP. unfold pass_inv, written in HP. rewrite Hp, Eu in HP. cbn in HP.
  destruct HP as (visited & Hall & H). rewrite Hpc in H.
  destruct H as (rest & H & _ & Hs). destruct (Hs eq_refl) as [-> Htodo].
  rewrite Hall, Htodo, !app_nil_r in *. auto.
Qed.

Lemma filter_correctness_witness :
  puts (klog (glob (run (quiet TProducer 0 60) (demo_boot 3 1 0))))
  = List.filter (matches 1) (tasks demo_kernel).
Proof.
  assert (Hinit : producer_consumer_init demo_kernel (insmod 3 1 0 1)
                  = (0, demo_boot 3 1 0)) by (vm_compute; reflexivity).
  assert (Hq : producer_uninterrupted (quiet TProducer 0 60))
    by (unfold producer_uninterrupted, quiet; apply List.Forall_forall;
        intros a Ha; apply repeat_spec in Ha; subst a; reflexivity).
  eapply (proj1 (proj2 (proj2 (proj2 (proj2
            (filter_correctness demo_kernel 3 1 0 1 _ (quiet TProducer 0 60) Hinit)))))
            Hq);
    vm_compute; reflexivity.
Defined.

(** ** Interrupted waits *)

(** C3, as the code has it.  A signal during the wait for a slot ends
    the put or the take with nothing changed.  A signal during the wait for
    the lock also stores and removes nothing, and leaves the indices, the
    lock, the statistics and the log as they were, but the unit of [empty]
    (for a put) or of [full] (for a take) that the first wait took is not
    given back.  Either way the thread leaves its loop: the producer
    returns, the consumer frees its name and returns. *)
Theorem interrupted_waits (g : globals) (p : producer) (c : consumer) (now : Z) :
  p_pc p = PDownEmpty -> c_pc c = CDownFull ->
  (empty g <= 0 -> forall sig2,
     put_waits true sig2 g p = (g, p_goto PDone p)) /\
  (0 < empty g -> mutex g <= 0 -> forall sig1,
     put_waits sig1 true g p = (set_empty (empty g - 1) g, p_goto PDone p)) /\
  (full g <= 0 -> forall sig2,
     take_waits true sig2 now g c = (g, c_goto CKfree c)) /\
  (0 < full g -> mutex g <= 0 -> forall sig1,
     take_waits sig1 true now g c = (set_full (full g - 1) g, c_goto CKfree c)) /\
  (forall sig g', kthread_consumer sig now g' (c_goto CKfree c) = (g', c_goto CDone c)) /\
  (forall sig g', kthread_producer sig g' (p_goto PDone p) = (g', p_goto PDone p)).
Proof.
  intros Hp Hc.
  unfold put_waits, take_waits, kthread_producer, kthread_consumer, down_interruptible.
  rewrite Hp, Hc.
  destruct g as [bs pr co uu em fu mu bf hd tl tc tn lg]. cbn.
  repeat split.
  - intros He sig2. destruct (Z.ltb_spec 0 em); [lia|]. reflexivity.
  - intros He Hm sig1. destruct (Z.ltb_spec 0 em); [|lia]. cbn.
    destruct (Z.ltb_spec 0 mu); [lia|]. reflexivity.
  - intros Hf sig2. destruct (Z.ltb_spec 0 fu); [lia|]. reflexivity.
  - intros Hf Hm sig1. destruct (Z.ltb_spec 0 fu); [|lia]. cbn.
    destruct (Z.ltb_spec 0 mu); [lia|]. reflexivity.
Qed.

Lemma interrupted_waits_witness :
  put_waits false true (Globals 2 1 1 1 1 1 0 None 0 1 0 0 [])
    (Producer PDownEmpty [] init_task 1)
  = (Globals 2 1 1 1 0 1 0 None 0 1 0 0 [], Producer PDone [] init_task 1).
Proof.
  exact (proj1 (proj2 (interrupted_waits (Globals 2 1 1 1 1 1 0 None 0 1 0 0 [])
                         (Producer PDownEmpty [] init_task 1)
                         (Consumer CDownFull EmptyString false None 0 EmptyString) 0
                         eq_refl eq_refl))
           ltac:(cbn; lia) ltac:(cbn; lia) false).
Defined.

(** C3 as stated fails when it is the wait for the lock that is
    interrupted.  In [contended] the producer stands before its second put
    with one free slot while consumer 0 holds the lock; the signal arrives
    during the wait for the lock: nothing is stored, but [empty] has gone
    from 1 to 0. *)
Lemma interrupted_put_loses_a_slot :
  let s := contended in
  let s' := run [Action TProducer false 0; Action TProducer true 0] s in
  (p_pc <$> producerThread s) = Some PDownEmpty /\
  (p_pc <$> producerThread s') = Some PDone /\
  klog (glob s') = klog (glob s) /\
  buffer (glob s') = buffer (glob s) /\
  tail (glob s') = tail (glob s) /\ head (glob s') = head (glob s) /\
  full (glob s') = full (glob s) /\
  empty (glob s) = 1 /\ empty (glob s') = 0 /\
  empty (glob s') <> empty (glob s).
Proof.
  cbv zeta.
  split; [vm_compute; reflexivity|]. split; [vm_compute; reflexivity|].
  split; [vm_compute; reflexivity|]. split; [vm_compute; reflexivity|].
  split; [vm_compute; reflexivity|]. split; [vm_compute; reflexivity|].
  split; [vm_compute; reflexivity|]. split; [vm_compute; reflexivity|].
  split; [vm_compute; reflexivity|]. vm_compute. discriminate.
Qed.

(** ** Unloading *)

Lemma all_asleep_stuck (a : action) :
  signal_pending a = false -> step unloading a = unloading.
Proof.
  destruct a as [w sig nw]. intros Hs. cbn in Hs. subst sig. destruct w as [|i|].
  - vm_compute. reflexivity.
  - destruct i as [|[|[|[|[|i]]]]]; vm_compute; reflexivity.
  - vm_compute. reflexivity.
Qed.

(** C1. What the code does with five consumers and no item ever
    produced.  [producer_consumer_exit] releases one unit of [mutex] and one
    of [full] in all, at [XUpMutex] and [XUpFull], after its [kthread_stop]
    loop and whatever [cons] is.  With the five consumers asleep on [full],
    the first [kthread_stop] has set the flag of consumer 0 and waits for
    it; unless a signal arrives, no thread can take a step any more: no
    consumer has returned, nothing has been released, and the exit function
    never gets past its first [kthread_stop]. *)
Theorem exit_leaves_consumers_asleep :
  (forall s,
     full (glob (producer_consumer_exit s))
     = full (glob s) + match x_pc (rmmod s) with XUpFull => 1 | _ => 0 end /\
     mutex (glob (producer_consumer_exit s))
     = mutex (glob s) + match x_pc (rmmod s) with XUpMutex => 1 | _ => 0 end) /\
  reachable demo_kernel 2 0 5 1 unloading /\
  map c_pc (consumerThreads unloading)
  = [CDownFull; CDownFull; CDownFull; CDownFull; CDownFull] /\
  map c_should_stop (consumerThreads unloading) = [true; false; false; false; false] /\
  x_pc (rmmod unloading) = XWait 0 /\
  full (glob unloading) = 0 /\ mutex (glob unloading) = 1 /\
  puts (klog (glob unloading)) = [] /\
  (forall sched, no_signal sched -> run sched unloading = unloading).
Proof.
  split.
  { intros s. unfold producer_consumer_exit.
    destruct s as [g p cs x], g as [bs pr co uu em fu mu bf hd tl tc tn lg]. cbn.
    destruct (x_pc x); cbn;
      repeat match goal with
             | |- context [if ?b then _ else _] => destruct b
             | |- context [match ?o with Some _ => _ | None => _ end] => destruct o
             end; cbn; unfold up; lia. }
  split.
  { exists (demo_boot 2 0 5),
      (quiet (TConsumer 0) 0 3 ++ quiet (TConsumer 1) 0 3 ++ quiet (TConsumer 2) 0 3
       ++ quiet (TConsumer 3) 0 3 ++ quiet (TConsumer 4) 0 3
       ++ [Action TRmmod false 0]).
    split; vm_compute; reflexivity. }
  split; [vm_compute; reflexivity|]. split; [vm_compute; reflexivity|].
  split; [vm_compute; reflexivity|]. split; [vm_compute; reflexivity|].
  split; [vm_compute; reflexivity|]. split; [vm_compute; reflexivity|].
  intros sched Hq. induction Hq as [|a sched Ha _ IH]; [reflexivity|].
  simpl. rewrite (all_asleep_stuck a Ha). exact IH.
Qed.

(** * Further properties *)

(** ** Mutual exclusion *)

Lemma wsum_two f (l : list consumer) i j ci cj :
  (forall c, 0 <= f c) -> f (c_goto CDone ci) = 0 ->
  i <> j -> l !! i = Some ci -> l !! j = Some cj ->
  f ci + f cj <= wsum f l.
Proof.
  intros Hf Hz Hne Hi Hj.
  pose proof (wsum_insert f l i ci (c_goto CDone ci) Hi) as Hins.
  assert (Hj' : <[i := c_goto CDone ci]> l !! j = Some cj)
    by (rewrite list_lookup_insert_ne by exact Hne; exact Hj).
  pose proof (wsum_lookup_le f _ _ _ Hf Hj') as Hle.
  pose proof (Hf (c_goto CDone ci)). lia.
Qed.

Lemma all_returned_quiet s :
  Inv s -> x_mx (rmmod s) = 1 -> wsum c_mx (consumerThreads s) = 0.
Proof.
  intros HI Hx. apply wsum_zero. apply Forall_lookup_2. intros j c Hj.
  assert (Hd : c_pc c = CDone).
  { eapply (inv_joined s HI); [exact Hj|].
    pose proof (lookup_lt_Some _ _ _ Hj) as Hlt.
    pose proof (inv_cons s HI) as [Hco _].
    unfold x_mx, x_joined in *. destruct (x_pc (rmmod s)); try lia. }
  unfold c_mx. rewrite Hd. reflexivity.
Qed.

(** X1. In every reachable state at most one thread is between its
    [down_interruptible(&mutex)] and its [up(&mutex)]: the producer and the
    consumers together hold the lock at most once, two consumers are never
    both inside, and while a consumer is inside the producer is not.  This
    stays so after [producer_consumer_exit] has issued its own
    [up(&mutex)]. *)
Theorem mutual_exclusion (k : kernel) (bs pr co uu : Z) (s : system) :
  is_int bs -> is_int co ->
  reachable k bs pr co uu s ->
  pw p_mx (producerThread s) + wsum c_mx (consumerThreads s) <= 1 /\
  (forall i j ci cj,
     consumerThreads s !! i = Some ci -> consumerThreads s !! j = Some cj ->
     c_mx ci = 1 -> c_mx cj = 1 -> i = j) /\
  (forall i c p,
     consumerThreads s !! i = Some c -> producerThread s = Some p ->
     c_mx c = 1 -> p_mx p = 0) /\
  (pw p_mx (producerThread s) + wsum c_mx (consumerThreads s) = 1 ->
   x_mx (rmmod s) = 0 -> mutex (glob s) = 0).
Proof.
  intros Hbs Hco Hr.
  pose proof (reachable_Inv _ _ _ _ _ _ Hbs Hco Hr) as HI.
  pose proof (inv_mutex s HI) as Hm.
  pose proof (inv_sems s HI) as (_ & _ & Hmu).
  pose proof (pweights_nonneg (producerThread s)) as (Hp & _).
  pose proof (wsum_nonneg c_mx (consumerThreads s) c_mx_nonneg) as Hw.
  assert (Hle : pw p_mx (producerThread s) + wsum c_mx (consumerThreads s) <= 1).
  { assert (x_mx (rmmod s) = 0 \/ x_mx (rmmod s) = 1) as [E|E]
      by (unfold x_mx; destruct (x_pc (rmmod s)); auto).
    - lia.
    - rewrite (all_returned_quiet s HI E). lia. }
  split; [exact Hle|]. split; [|split].
  - intros i j ci cj Hi Hj Hci Hcj.
    destruct (decide (i = j)) as [E|Hne]; [exact E|].
    pose proof (wsum_two c_mx _ i j ci cj c_mx_nonneg eq_refl Hne Hi Hj). lia.
  - intros i c p Hi Hpt Hc.
    pose proof (wsum_lookup_le c_mx _ _ _ c_mx_nonneg Hi) as Hl.
    rewrite Hpt in Hle, Hp. cbn in Hle, Hp. lia.
  - intros E Hx. lia.
Qed.

Lemma mutual_exclusion_witness :
  pw p_mx (producerThread (run demo_sched (demo_boot 2 1 2)))
  + wsum c_mx (consumerThreads (run demo_sched (demo_boot 2 1 2))) <= 1.
Proof.
  exact (proj1 (mutual_exclusion demo_kernel 2 1 2 1 _ demo_int demo_int
                  (demo_reachable demo_sched))).
Defined.

(** ** Loading, the other outcomes *)

Lemma fresh_consumers_S i n :
  fresh_consumers i (S n)
  = Consumer CStart (consumer_name i) false None 0 EmptyString
      :: fresh_consumers (i + 1) n.
Proof.
  unfold fresh_consumers. cbn [seq List.map]. rewrite Z.add_0_r. f_equal.
  rewrite <- seq_shift, List.map_map. apply List.map_ext. intros j.
  do 2 f_equal. lia.
Qed.

Lemma fresh_consumers_length i n : length (fresh_consumers i n) = n.
Proof. unfold fresh_consumers. rewrite length_map, length_seq. reflexivity. Qed.

Lemma fresh_consumers_lookup i n (j : nat) c :
  fresh_consumers i n !! j = Some c ->
  c = Consumer CStart (consumer_name (i + Z.of_nat j)) false None 0 EmptyString.
Proof.
  unfold fresh_consumers. rewrite list_lookup_fmap. intros H.
  apply fmap_Some in H as (j' & Hj & ->). apply lookup_seq in Hj as [-> _].
  reflexivity.
Qed.

(** As long as [kthread_run] succeeds the loop goes on; the index and the
    number in the name stay within [int]. *)
Lemma create_consumers_run k n : forall i s,
  0 <= i -> i + Z.of_nat n <= Int.INT_MAX ->
  (forall j, i <= j < i + Z.of_nat n -> kthread_run_consumer k j = None) ->
  create_consumers k n i s
  = (None, System (glob s) (producerThread s)
             (consumerThreads s ++ fresh_consumers i n) (rmmod s)).
Proof.
  induction n as [|n IH]; intros i s Hi Hn Hk.
  - cbn. rewrite app_nil_r. destruct s; reflexivity.
  - cbn [create_consumers]. rewrite Hk by lia.
    rewrite wrap_int_id by (unfold Int.INT_MAX in *; lia).
    rewrite IH by first [lia | intros j Hj; apply Hk; lia].
    cbn [glob producerThread consumerThreads rmmod].
    rewrite fresh_consumers_S, <- app_assoc. reflexivity.
Qed.

(** The first [kthread_run] that fails ends the loop and the load. *)
Lemma create_consumers_stop k n : forall i s (m : nat) e,
  0 <= i -> i + Z.of_nat n <= Int.INT_MAX -> (m < n)%nat ->
  (forall j, i <= j < i + Z.of_nat m -> kthread_run_consumer k j = None) ->
  kthread_run_consumer k (i + Z.of_nat m) = Some e ->
  create_consumers k n i s
  = (Some (Z.neg e),
     with_glob (printk (KInfo "ERROR: Cannot create thread Consumer"))
       (System (glob s) (producerThread s)
          (consumerThreads s ++ fresh_consumers i m) (rmmod s))).
Proof.
  induction n as [|n IH]; intros i s m e Hi Hn Hm Hk He; [lia|].
  cbn [create_consumers]. destruct m as [|m].
  - rewrite Z.add_0_r in He. rewrite He. cbn. rewrite app_nil_r.
    destruct s; reflexivity.
  - rewrite Hk by lia.
    rewrite wrap_int_id by (unfold Int.INT_MAX in *; lia).
    rewrite (IH (i + 1) _ m e) by
      first [lia | intros j Hj; apply Hk; lia | rewrite <- He; f_equal; lia].
    cbn [glob producerThread consumerThreads rmmod].
    rewrite fresh_consumers_S, <- app_assoc. reflexivity.
Qed.

Lemma create_consumers_none k n : forall i s,
  0 <= i -> i + Z.of_nat n <= Int.INT_MAX ->
  fst (create_consumers k n i s) = None ->
  forall j, i <= j < i + Z.of_nat n -> kthread_run_consumer k j = None.
Proof.
  induction n as [|n IH]; intros i s Hi Hn H j Hj; [lia|].
  cbn [create_consumers] in H.
  destruct (kthread_run_consumer k i) as [e|] eqn:E; [discriminate|].
  rewrite wrap_int_id in H by (unfold Int.INT_MAX in *; lia).
  destruct (decide (j = i)) as [->|Hne]; [exact E|].
  eapply (IH (i + 1)); [| |exact H|]; lia.
Qed.

(** What is left of [producer_consumer_init] once the three checks have
    passed. *)
Lemma init_checked k bs pr co uu :
  1 <= bs -> pr = 0 \/ pr = 1 -> 0 <= co ->
  producer_consumer_init k (insmod bs pr co uu)
  = if negb (kmalloc_buffer k) then
      (-1, with_glob (printk (KErr "Failed to allocate memory for buffer"))
             (checked bs pr co uu))
    else
      let s := with_glob (set_buffer (Some (replicate (Z.to_nat bs) None)))
                 (checked bs pr co uu) in
      let '(r, s) :=
        if 0 <? co then
          let s := with_glob (printk (KInfo "Creating consumer threads")) s in
          if negb (kmalloc_consumerThreads k) then
            (Some (-1),
             with_glob (printk (KErr "Failed to allocate memory for consumer threads")) s)
          else create_consumers k (Z.to_nat co) 0 s
        else (None, s) in
      match r with
      | Some err => (err, s)
      | None =>
          if pr =? 1 then
            let s := with_glob (printk (KInfo "Creating producer thread")) s in
            match kthread_run_producer k with
            | None =>
                (0, System (glob s) (Some (Producer PLoop (tasks k) init_task 0))
                      (consumerThreads s) (rmmod s))
            | Some errno =>
                (Z.neg errno,
                 with_glob (printk (KInfo "ERROR: Cannot create thread Producer-1")) s)
            end
          else (0, s)
      end.
Proof.
  intros Hbs Hpr Hco.
  unfold producer_consumer_init, insmod, with_glob, checked. cbn.
  assert ((bs <? 1) = false) as -> by (apply Z.ltb_ge; lia).
  assert ((pr <? 0) || (1 <? pr) = false) as ->
    by (apply orb_false_iff; split; apply Z.ltb_ge; lia).
  assert ((co <? 0) = false) as -> by (apply Z.ltb_ge; lia).
  reflexivity.
Qed.

Lemma init_unchecked k bs pr co uu :
  bs < 1 \/ (pr <> 0 /\ pr <> 1) \/ co < 0 ->
  fst (producer_consumer_init k (insmod bs pr co uu)) = -1.
Proof.
  intros Hbad. unfold producer_consumer_init, insmod, with_glob. cbn.
  destruct (Z.ltb_spec bs 1); [reflexivity|].
  destruct (Z.ltb_spec pr 0); [reflexivity|].
  destruct (Z.ltb_spec 1 pr); [reflexivity|]. cbn.
  destruct (Z.ltb_spec co 0); [reflexivity|]. lia.
Qed.

(** With a valid configuration and a kernel that grants everything,
    [producer_consumer_init] returns 0 and leaves [loaded]. *)
Lemma init_granted k bs pr co uu :
  is_int co -> 1 <= bs -> pr = 0 \/ pr = 1 -> 0 <= co -> kernel_grants k pr co ->
  producer_consumer_init k (insmod bs pr co uu) = (0, loaded k bs pr co uu).
Proof.
  intros Hint Hbs Hpr Hco (Kb & Kc & Kp). unfold is_int in Hint.
  rewrite (init_checked k bs pr co uu Hbs Hpr Hco). rewrite Kb. cbn [negb]. cbv zeta.
  unfold loaded.
  destruct (Z.ltb_spec 0 co) as [Hpos|Hzero].
  - destruct (Kc Hpos) as [-> Hall]. cbn [negb].
    rewrite create_consumers_run;
      [|lia|unfold Int.INT_MAX in *; lia|intros j Hj; apply Hall; lia].
    cbn. destruct (Z.eqb_spec pr 1) as [E|E]; [rewrite (Kp E)|]; reflexivity.
  - assert (co = 0) as -> by lia. cbn.
    destruct (Z.eqb_spec pr 1) as [E|E]; [rewrite (Kp E)|]; reflexivity.
Qed.

(** Every other path returns a negative value. *)
Lemma init_zero_grants k bs pr co uu :
  is_int co ->
  fst (producer_consumer_init k (insmod bs pr co uu)) <= 0 /\
  (fst (producer_consumer_init k (insmod bs pr co uu)) = 0 ->
   1 <= bs /\ (pr = 0 \/ pr = 1) /\ 0 <= co /\ kernel_grants k pr co).
Proof.
  intros Hint. unfold is_int in Hint.
  assert (Hvalid : (1 <= bs /\ (pr = 0 \/ pr = 1) /\ 0 <= co)
                   \/ (bs < 1 \/ (pr <> 0 /\ pr <> 1) \/ co < 0)) by lia.
  destruct Hvalid as [(Hbs & Hpr & Hco)|Hbad].
  2:{ rewrite (init_unchecked k bs pr co uu Hbad). split; [lia|discriminate]. }
  rewrite (init_checked k bs pr co uu Hbs Hpr Hco).
  unfold kernel_grants.
  destruct (kmalloc_buffer k); cbn [negb]; [|cbn; split; [lia|discriminate]].
  cbv zeta.
  destruct (Z.ltb_spec 0 co) as [Hpos|Hzero].
  - destruct (kmalloc_consumerThreads k); cbn [negb]; [|cbn; split; [lia|discriminate]].
    match goal with |- context [create_consumers k ?n ?i ?s] =>
      destruct (create_consumers k n i s) as [e s1] eqn:Ec end.
    destruct e as [e|].
    + pose proof (create_consumers_error _ _ _ _ _ _ Ec) as Hneg. cbn.
      split; lia.
    + pose proof (create_consumers_none k (Z.to_nat co) 0 _ ltac:(lia)
                    ltac:(unfold Int.INT_MAX in *; lia)
                    ltac:(rewrite Ec; reflexivity)) as Hall.
      assert (Hall' : forall i, 0 <= i < co -> kthread_run_consumer k i = None)
        by (intros i Hi; apply Hall; lia).
      destruct (Z.eqb_spec pr 1) as [E1|E1].
      * destruct (kthread_run_producer k) as [e|]; cbn.
        -- split; lia.
        -- split; [lia|]. intros _. repeat split; auto.
      * cbn. split; [lia|]. intros _. repeat split; auto; lia.
  - assert (co = 0) as -> by lia. cbn.
    destruct (Z.eqb_spec pr 1) as [E1|E1].
    + destruct (kthread_run_producer k) as [e|]; cbn.
      * split; lia.
      * split; [lia|]. intros _. repeat split; auto; lia.
    + cbn. split; [lia|]. intros _. repeat split; auto; lia.
Qed.

Lemma init_zero_state k bs pr co uu s0 :
  is_int co -> producer_consumer_init k (insmod bs pr co uu) = (0, s0) ->
  s0 = loaded k bs pr co uu.
Proof.
  intros Hint Hinit.
  destruct (init_zero_grants k bs pr co uu Hint) as [_ H].
  rewrite Hinit in H. destruct (H eq_refl) as (Hbs & Hpr & Hco & Hk).
  rewrite (init_granted k bs pr co uu Hint Hbs Hpr Hco Hk) in Hinit.
  congruence.
Qed.



(** X3. What a load that fails after the checks leaves behind.  If the
    buffer cannot be allocated the initializer returns -1 with the
    semaphores initialised and nothing else.  If the array of consumer
    threads cannot be allocated it returns -1 and the buffer stays
    allocated.  If [kthread_run] fails for the consumer of index [m], it
    returns that error with the [m] consumers started before still there,
    the buffer still allocated and no producer.  If it fails for the
    producer, it returns that error with all [cons] consumers started and
    the buffer allocated.  In no case is a thread stopped or storage
    freed. *)
Theorem init_failure_leaves (k : kernel) (bs pr co uu : Z) :
  is_int co -> 1 <= bs -> pr = 0 \/ pr = 1 -> 0 <= co ->
  let r := producer_consumer_init k (insmod bs pr co uu) in
  let allocated := Some (replicate (Z.to_nat bs) (@None task_struct)) in
  (kmalloc_buffer k = false ->
   r = (-1, with_glob (printk (KErr "Failed to allocate memory for buffer"))
              (checked bs pr co uu))) /\
  (kmalloc_buffer k = true -> 0 < co -> kmalloc_consumerThreads k = false ->
   fst r = -1 /\ buffer (glob (snd r)) = allocated /\
   consumerThreads (snd r) = [] /\ producerThread (snd r) = None) /\
  (forall (m : nat) e,
     kmalloc_buffer k = true -> kmalloc_consumerThreads k = true ->
     Z.of_nat m < co ->
     (forall j, 0 <= j < Z.of_nat m -> kthread_run_consumer k j = None) ->
     kthread_run_consumer k (Z.of_nat m) = Some e ->
     fst r = Z.neg e /\ buffer (glob (snd r)) = allocated /\
     consumerThreads (snd r) = fresh_consumers 0 m /\
     producerThread (snd r) = None) /\
  (forall e,
     kmalloc_buffer k = true ->
     (0 < co -> kmalloc_consumerThreads k = true /\
                forall j, 0 <= j < co -> kthread_run_consumer k j = None) ->
     pr = 1 -> kthread_run_producer k = Some e ->
     fst r = Z.neg e /\ buffer (glob (snd r)) = allocated /\
     consumerThreads (snd r) = fresh_consumers 0 (Z.to_nat co) /\
     producerThread (snd r) = None) /\
  empty (glob (snd r)) = bs /\ full (glob (snd r)) = 0 /\ mutex (glob (snd r)) = 1.
Proof.
  intros Hint Hbs Hpr Hco. cbv zeta. unfold is_int in Hint.
  rewrite (init_checked k bs pr co uu Hbs Hpr Hco).
  split; [|split; [|split; [|split]]].
  - intros ->. reflexivity.
  - intros -> Hpos ->. cbn.
    assert ((0 <? co) = true) as -> by (apply Z.ltb_lt; lia).
    cbn. auto.
  - intros m e -> -> Hm Hk He. cbn [negb]. cbv zeta.
    assert ((0 <? co) = true) as -> by (apply Z.ltb_lt; lia).
    rewrite (create_consumers_stop k (Z.to_nat co) 0 _ m e);
      [|lia|unfold Int.INT_MAX in *; lia|lia|exact Hk|exact He].
    cbn. auto.
  - intros e -> Hk -> He. cbn [negb]. cbv zeta.
    destruct (Z.ltb_spec 0 co) as [Hpos|Hzero].
    + destruct (Hk Hpos) as [-> Hall]. cbn [negb].
      rewrite create_consumers_run;
        [|lia|unfold Int.INT_MAX in *; lia|intros j Hj; apply Hall; lia].
      cbn. rewrite He. cbn. auto.
    + assert (co = 0) as -> by lia. cbn. rewrite He. cbn. auto.
  - destruct (kmalloc_buffer k); cbn [negb]; [|cbn; auto]. cbv zeta.
    destruct (0 <? co).
    + destruct (kmalloc_consumerThreads k); cbn [negb]; [|cbn; auto].
      match goal with |- context [create_consumers k ?n ?i ?s] =>
        destruct (create_consumers k n i s) as [e s1] eqn:Ec end.
      apply create_consumers_sems in Ec. cbn in Ec.
      destruct e; [exact Ec|].
      destruct s1 as [g ? ? ?], g; cbn in Ec.
      destruct (pr =? 1); [destruct (kthread_run_producer k)|]; cbn; exact Ec.
    + destruct (pr =? 1); [destruct (kthread_run_producer k)|]; cbn; auto.
Qed.

Lemma init_failure_leaves_witness :
  fst (producer_consumer_init
         (Kernel [] true true (fun j => if j =? 2 then Some 12%positive else None) None)
         (insmod 2 1 5 0)) = -12 /\
  length (consumerThreads (snd (producer_consumer_init
         (Kernel [] true true (fun j => if j =? 2 then Some 12%positive else None) None)
         (insmod 2 1 5 0)))) = 2%nat.
Proof.
  pose proof (proj1 (proj2 (proj2 (init_failure_leaves
     (Kernel [] true true (fun j => if j =? 2 then Some 12%positive else None) None)
     2 1 5 0 ltac:(unfold is_int, Int.INT_MAX; lia) ltac:(lia)
     ltac:(right; reflexivity) ltac:(lia)))) 2%nat 12%positive
     eq_refl eq_refl ltac:(lia)
     ltac:(intros j Hj; cbn; destruct (Z.eqb_spec j 2); [lia|reflexivity])
     eq_refl) as (H1 & _ & H3 & _).
  split; [exact H1|]. rewrite H3. reflexivity.
Defined.

(** ** The fields of a consumer's record *)

Lemma names_alter l i : map c_name (alter stop_request i l) = map c_name l.
Proof.
  revert i. induction l as [|c l IH]; intros [|i]; cbn; try reflexivity.
  now rewrite IH.
Qed.

Lemma names_insert (l : list consumer) i c c' :
  l !! i = Some c -> c_name c' = c_name c ->
  map c_name (<[i := c']> l) = map c_name l.
Proof.
  intros Hi Hn. destruct (insert_middle l i c c' Hi) as (l1 & l2 & -> & -> & _).
  rewrite !map_app. cbn. now rewrite Hn.
Qed.

Lemma consumer_step_fields names sig now g c g' c' :
  kthread_consumer sig now g c = (g', c') ->
  elem_of (c_name c) names -> consumer_locals c ->
  Forall (consumed_fields names) (klog g) ->
  c_name c' = c_name c /\ consumer_locals c' /\
  Forall (consumed_fields names) (klog g').
Proof.
  unfold kthread_consumer, down_interruptible, consumer_locals.
  destruct g as [bs pr co uu em fu mu bf hd tl tc tn lg]. cbn.
  intros Hstep Hn [L1 L2] Hlog.
  destruct (c_pc c) eqn:E;
    repeat match type of Hstep with
           | context [if ?b then _ else _] => destruct b
           | context [match c_task c with _ => _ end] =>
               destruct (c_task c) as [t|] eqn:Etask
           end;
    inversion Hstep; subst; clear Hstep; cbn; rewrite ?E;
    (split; [reflexivity|]);
    (split;
     [ split;
       [ intros; first [discriminate | reflexivity | auto]
       | intros H;
         first [ destruct H as [H|[H|H]]; discriminate
               | solve [eauto]
               | apply L2; auto ] ]
     | first [ assumption
             | apply Forall_app; split; [assumption|];
               repeat constructor; cbn; auto ] ]).
  destruct (L2 ltac:(auto)) as (nw & t' & Et & Ens). inversion Et; subst t'. eauto.
Qed.

Lemma producer_step_fields names sig g p g' p' :
  kthread_producer sig g p = (g', p') ->
  Forall (consumed_fields names) (klog g) -> Forall (consumed_fields names) (klog g').
Proof.
  unfold kthread_producer, down_interruptible, buffer_write.
  destruct g as [bs pr co uu em fu mu bf hd tl tc tn lg]. cbn.
  intros Hstep Hlog.
  destruct (p_pc p);
    repeat match type of Hstep with
           | context [if ?b then _ else _] => destruct b
           | context [match p_todo p with _ => _ end] => destruct (p_todo p)
           | context [match bf with _ => _ end] => destruct bf
           end;
    inversion Hstep; subst; cbn; try assumption.
  apply Forall_app; split; [assumption|]. repeat constructor.
Qed.

Lemma exit_step_fields names s :
  fields_inv names s -> fields_inv names (producer_consumer_exit s).
Proof.
  intros (Hn & Hl & Hlog). unfold fields_inv, producer_consumer_exit.
  destruct s as [g p cs x].
  destruct g as [bs pr co uu em fu mu bf hd tl tc tn lg]. cbn in *.
  destruct (x_pc x); cbn;
    repeat match goal with
           | |- context [if ?b then _ else _] => destruct b
           | |- context [match ?o with Some _ => _ | None => _ end] => destruct o
           end;
    cbn; rewrite ?names_alter; repeat split; try assumption.
  - apply Forall_alter; [assumption|]. intros c _ Hc. exact Hc.
  - apply Forall_app; split; [assumption|]. repeat constructor.
Qed.

Lemma step_fields names s a : fields_inv names s -> fields_inv names (step s a).
Proof.
  intros HF. unfold step. destruct (who a) as [|i|].
  - destruct (producerThread s) as [p|] eqn:Hp; [|exact HF].
    destruct (kthread_producer (signal_pending a) (glob s) p) as [g' p'] eqn:Hs.
    destruct HF as (Hn & Hl & Hlog). unfold fields_inv. cbn.
    repeat split; try assumption. eapply producer_step_fields; eauto.
  - destruct (consumerThreads s !! i) as [c|] eqn:Hc; [|exact HF].
    destruct (kthread_consumer (signal_pending a) (now a) (glob s) c) as [g' c'] eqn:Hs.
    destruct HF as (Hn & Hl & Hlog).
    assert (Hin : elem_of (c_name c) names).
    { rewrite <- Hn. apply list_elem_of_fmap. exists c. split; [reflexivity|].
      eapply list_elem_of_lookup_2; eauto. }
    destruct (consumer_step_fields names _ _ _ _ _ _ Hs Hin
                (Forall_lookup_1 _ _ _ _ Hl Hc) Hlog) as (H1 & H2 & H3).
    unfold fields_inv. cbn. split; [|split].
    + rewrite (names_insert _ _ _ _ Hc H1). exact Hn.
    + apply Forall_insert; assumption.
    + exact H3.
  - apply exit_step_fields, HF.
Qed.

Lemma run_fields names sched : forall s, fields_inv names s -> fields_inv names (run sched s).
Proof.
  induction sched as [|a sched IH]; intros s HF; [exact HF|].
  simpl. apply IH, step_fields, HF.
Qed.

Lemma fresh_names n :
  map c_name (fresh_consumers 0 n) = map (fun j => consumer_name (Z.of_nat j)) (seq 0 n).
Proof. unfold fresh_consumers. rewrite List.map_map. reflexivity. Qed.

Lemma reachable_fields k bs pr co uu s :
  is_int co -> reachable k bs pr co uu s ->
  fields_inv (map (fun j => consumer_name (Z.of_nat j)) (seq 0 (Z.to_nat co))) s.
Proof.
  intros Hco (s0 & sched & Hinit & ->). apply run_fields.
  pose proof (init_zero_state _ _ _ _ _ _ Hco Hinit) as Hst.
  unfold loaded in Hst. subst s0.
  unfold fields_inv. cbn [consumerThreads glob klog]. split; [apply fresh_names|]. split.
  - apply Forall_lookup_2. intros j c Hj. apply fresh_consumers_lookup in Hj. subst c.
    split; cbn; [discriminate|intros [H|[H|H]]; discriminate].
  - repeat (apply Forall_app; split); destruct (0 <? co), (pr =? 1);
      repeat constructor.
Qed.

(** ** Thread names *)

Section Names.
Import Fmt.

Lemma print_ld_value n : 0 <= n < 10 ^ 20 -> dec_value (print_ld n) = n.
Proof.
  intros Hn. unfold print_ld.
  assert ((n <? 0) = false) as -> by (apply Z.ltb_ge; lia).
  destruct (dec_digits_spec 20 n EmptyString ltac:(lia) Hn) as (d & Hd & Hv & _).
  rewrite string_app_nil in Hd. rewrite Hd. unfold dec_value. rewrite Hv. lia.
Qed.

(** An [int] takes at most ten digits. *)
Lemma print_ld_int_length n :
  0 <= n <= Int.INT_MAX -> (String.length (print_ld n) <= 10)%nat.
Proof.
  intros Hn. unfold Int.INT_MAX in Hn. unfold print_ld.
  assert ((n <? 0) = false) as -> by (apply Z.ltb_ge; lia).
  destruct (dec_digits_spec 20 n EmptyString ltac:(lia) ltac:(lia))
    as (d & Hd & _ & _ & _ & Hone & Hge).
  rewrite string_app_nil in Hd. rewrite Hd.
  destruct (Z.lt_ge_cases n 10) as [H|H]; [rewrite (Hone H); lia|].
  specialize (Hge H).
  destruct (Nat.le_gt_cases (String.length d) 10) as [Hl|Hl]; [exact Hl|].
  assert (10 ^ 10 <= 10 ^ (Z.of_nat (String.length d) - 1))
    by (apply Z.pow_le_mono_r; lia).
  lia.
Qed.

Lemma consumer_name_length i :
  0 <= i < Int.INT_MAX ->
  Z.of_nat (String.length (consumer_name i)) + 1 <= thread_name_size.
Proof.
  intros Hi. unfold consumer_name, thread_name_size.
  rewrite string_length_app.
  pose proof (print_ld_int_length (i + 1) ltac:(lia)) as H.
  cbn [String.length]. lia.
Qed.

Lemma consumer_name_inj i j :
  0 <= i < Int.INT_MAX -> 0 <= j < Int.INT_MAX ->
  consumer_name i = consumer_name j -> i = j.
Proof.
  intros Hi Hj H. unfold consumer_name in H. cbn [String.append] in H.
  injection H as H. apply (f_equal dec_value) in H.
  unfold Int.INT_MAX in *. rewrite !print_ld_value in H by lia. lia.
Qed.

End Names.

(** X4. The consumers are named "Consumer-1", "Consumer-2", ... in the
    order of [consumerThreads], by [sprintf(name, "Consumer-%d", i+1)] into
    the 20 bytes of [kmalloc(20)]: each name with its terminating NUL fits
    these 20 bytes for every [int] value of [cons], no two threads share a
    name, and no statement of any thread changes a name afterwards. *)
Theorem consumer_thread_names (k : kernel) (bs pr co uu : Z) (s : system) :
  is_int co ->
  reachable k bs pr co uu s ->
  length (consumerThreads s) = Z.to_nat co /\
  (forall (i : nat) c, consumerThreads s !! i = Some c ->
     c_name c = consumer_name (Z.of_nat i) /\
     Z.of_nat (String.length (c_name c)) + 1 <= thread_name_size) /\
  (forall (i j : nat) ci cj,
     consumerThreads s !! i = Some ci -> consumerThreads s !! j = Some cj ->
     c_name ci = c_name cj -> i = j) /\
  consumer_name 0 = "Consumer-1"%string /\
  consumer_name 2147483646 = "Consumer-2147483647"%string.
Proof.
  intros Hco Hr. destruct (reachable_fields _ _ _ _ _ _ Hco Hr) as (Hn & _ & _).
  unfold is_int in Hco.
  assert (Hlen : length (consumerThreads s) = Z.to_nat co).
  { apply (f_equal length) in Hn. rewrite !length_map, length_seq in Hn. exact Hn. }
  assert (Hname : forall (i : nat) c, consumerThreads s !! i = Some c ->
            c_name c = consumer_name (Z.of_nat i) /\ Z.of_nat i < co).
  { intros i c Hi. pose proof (lookup_lt_Some _ _ _ Hi) as Hlt.
    apply (f_equal (fun l => l !! i)) in Hn.
    rewrite !list_lookup_fmap, Hi in Hn.
    rewrite lookup_seq_lt in Hn by lia. cbn [fmap option_fmap option_map Nat.add] in Hn.
    injection Hn as Hn. split; [exact Hn|lia]. }
  split; [exact Hlen|]. split; [|split; [|split; vm_compute; reflexivity]].
  - intros i c Hi. destruct (Hname i c Hi) as [E Hlt]. split; [exact E|].
    rewrite E. apply consumer_name_length. lia.
  - intros i j ci cj Hi Hj E.
    destruct (Hname i ci Hi) as [Ei Hli]. destruct (Hname j cj Hj) as [Ej Hlj].
    rewrite Ei, Ej in E. apply consumer_name_inj in E; lia.
Qed.

Lemma consumer_thread_names_witness :
  length (consumerThreads (run demo_sched (demo_boot 2 1 2))) = Z.to_nat 2.
Proof.
  exact (proj1 (consumer_thread_names demo_kernel 2 1 2 1 _ demo_int
                  (demo_reachable demo_sched))).
Defined.

(** X5. Every "Consumed" record of the log was printed by one of the
    [cons] consumers under its own name, its elapsed time is a reading of
    the clock minus the [start_time] of the task whose pid it prints, as a
    [long], and its HH:MM:SS text is the rendering of that very number. *)
Theorem consumed_record_fields (k : kernel) (bs pr co uu : Z) (s : system) :
  is_int co ->
  reachable k bs pr co uu s ->
  forall name item idx t ns tf,
    In (Consumed name item idx t ns tf) (klog (glob s)) ->
    (exists i, 0 <= i < co /\ name = consumer_name i) /\
    tf = Fmt.consumer_timeFormat ns /\
    exists now, ns = Int.wrap_long (now - start_time t).
Proof.
  intros Hco Hr name item idx t ns tf Hin.
  destruct (reachable_fields _ _ _ _ _ _ Hco Hr) as (_ & _ & Hlog).
  rewrite List.Forall_forall in Hlog. specialize (Hlog _ Hin). cbn in Hlog.
  destruct Hlog as (Hname & Htf & Hns). split; [|split; assumption].
  apply list_elem_of_fmap in Hname as (j & -> & Hj).
  apply elem_of_seq in Hj. exists (Z.of_nat j). split; [lia|reflexivity].
Qed.

Lemma consumed_record_fields_witness :
  "00:00:00"%string = Fmt.consumer_timeFormat 1950.
Proof.
  refine (proj1 (proj2 (consumed_record_fields demo_kernel 2 1 2 1 _ demo_int
                          (demo_reachable demo_sched)
                          "Consumer-2" 3 0 (Task 105 1 50) 1950 "00:00:00" _))).
  vm_compute. do 10 right. left. reflexivity.
Defined.

(** ** Storage of the formatted time *)

(** X6. For an elapsed time, or a total, between 0 and [LONG_MAX]
    nanoseconds the text that [sprintf] writes into [char timeFormat[9]]
    fits, terminator included, exactly when the time is below 100 hours
    (360000000000000 ns); below that bound it has exactly eight
    characters.  This holds alike for the consumer's array (line 202) and
    for the one of [producer_consumer_exit] (line 233). *)
Theorem timeFormat_storage (t : Z) :
  0 <= t <= Int.LONG_MAX ->
  (Fmt.fits_timeFormat (Fmt.consumer_timeFormat t) = true <-> t < 360000000000000) /\
  (Fmt.fits_timeFormat (Fmt.exit_timeFormat t) = true <-> t < 360000000000000) /\
  (t < 360000000000000 ->
   String.length (Fmt.consumer_timeFormat t) = 8%nat /\
   String.length (Fmt.exit_timeFormat t) = 8%nat).
Proof.
  intros Ht.
  pose proof (timeFormat_fits_iff t Ht) as Hiff.
  split; [exact Hiff|]. split; [exact Hiff|].
  intros Hlt. change (Fmt.exit_timeFormat t) with (Fmt.consumer_timeFormat t).
  assert (String.length (Fmt.consumer_timeFormat t) = 8%nat); [|auto].
  unfold Int.LONG_MAX in Ht.
  rewrite timeFormat_fields by lia. rewrite sprintf_length.
  assert (Hh : 0 <= t / 3600000000000 <= 99).
  { split; [apply Z.div_pos; lia|].
    assert (t / 3600000000000 < 100) by (apply Z.div_lt_upper_bound; lia). lia. }
  pose proof (Z.mod_pos_bound (t / 60000000000) 60 ltac:(lia)) as Hm.
  pose proof (Z.mod_pos_bound (t / 1000000000) 60 ltac:(lia)) as Hs.
  assert (E20 : 10 ^ 20 = 100000000000000000000) by reflexivity.
  destruct (print_02ld_spec (t / 3600000000000) ltac:(rewrite E20; lia))
    as (_ & _ & Lh & _).
  destruct (print_02ld_spec ((t / 60000000000) mod 60) ltac:(rewrite E20; lia))
    as (_ & _ & Lm & _).
  destruct (print_02ld_spec ((t / 1000000000) mod 60) ltac:(rewrite E20; lia))
    as (_ & _ & Ls & _).
  rewrite Lh, Lm, Ls by lia. reflexivity.
Qed.

Lemma timeFormat_storage_witness :
  Fmt.fits_timeFormat (Fmt.consumer_timeFormat 5025000000000) = true.
Proof.
  apply (proj1 (timeFormat_storage 5025000000000
                  ltac:(unfold Int.LONG_MAX; lia))).
  lia.
Defined.

(** ** The numbers of the records *)

Lemma produced_snoc l e : produced (l ++ [e]) = produced l ++ produced_of e.
Proof. unfold produced. rewrite flat_map_app. cbn. now rewrite app_nil_r. Qed.
Lemma consumed_snoc l e : consumed (l ++ [e]) = consumed l ++ consumed_of e.
Proof. unfold consumed. rewrite flat_map_app. cbn. now rewrite app_nil_r. Qed.

#[local] Arguments produced : simpl never.
#[local] Arguments consumed : simpl never.

Lemma numbered_snoc bs items t :
  numbered bs (items ++ [t])
  = numbered bs items
    ++ [(Int.wrap_int (Z.of_nat (length items) + 1), Z.of_nat (length items) mod bs, t)].
Proof. unfold numbered. rewrite imap_app. cbn. rewrite Nat.add_0_r. reflexivity. Qed.

Lemma numbered_prefix bs l1 l2 :
  exists rest, numbered bs (l1 ++ l2) = numbered bs l1 ++ rest.
Proof. unfold numbered. rewrite imap_app. eauto. Qed.

Lemma numbered_lookup bs items (n : nat) x :
  numbered bs items !! n = Some x ->
  exists t, items !! n = Some t /\
            x = (Int.wrap_int (Z.of_nat n + 1), Z.of_nat n mod bs, t).
Proof.
  unfold numbered. rewrite list_lookup_imap. intros H.
  apply fmap_Some in H as (t & Ht & ->). eauto.
Qed.

#[local] Arguments numbered : simpl never.

Lemma producer_log_inv_ext s s' :
  producerThread s' = producerThread s ->
  produced (klog (glob s')) = produced (klog (glob s)) ->
  puts (klog (glob s')) = puts (klog (glob s)) ->
  buffSize (glob s') = buffSize (glob s) -> tail (glob s') = tail (glob s) ->
  producer_log_inv s -> producer_log_inv s'.
Proof.
  unfold producer_log_inv. intros -> -> -> -> ->. auto.
Qed.

Lemma consumer_log_inv_ext s s' :
  wsum c_h (consumerThreads s') = wsum c_h (consumerThreads s) ->
  wsum c_rl (consumerThreads s') = wsum c_rl (consumerThreads s) ->
  consumed (klog (glob s')) = consumed (klog (glob s)) ->
  takes (klog (glob s')) = takes (klog (glob s)) ->
  buffSize (glob s') = buffSize (glob s) -> head (glob s') = head (glob s) ->
  consumer_log_inv s -> consumer_log_inv s'.
Proof.
  unfold consumer_log_inv. intros -> -> -> -> -> ->. auto.
Qed.

Lemma consumer_frame_produced sig now g c g' c' :
  kthread_consumer sig now g c = (g', c') -> produced (klog g') = produced (klog g).
Proof.
  unfold kthread_consumer, down_interruptible.
  destruct g as [bs pr co uu em fu mu bf hd tl tc tn lg]. cbn.
  destruct (c_pc c); cbn;
    repeat match goal with
           | |- context [if ?b then _ else _] => destruct b
           | |- context [match c_task c with _ => _ end] => destruct (c_task c)
           end;
    intros H; inversion H; subst; cbn; rewrite ?produced_snoc; cbn;
    rewrite ?app_nil_r; auto.
Qed.

Lemma producer_frame_consumed sig g p g' p' :
  kthread_producer sig g p = (g', p') -> consumed (klog g') = consumed (klog g).
Proof.
  unfold kthread_producer, down_interruptible, buffer_write.
  destruct g as [bs pr co uu em fu mu bf hd tl tc tn lg]. cbn.
  destruct (p_pc p); cbn;
    repeat match goal with
           | |- context [if ?b then _ else _] => destruct b
           | |- context [match p_todo p with _ => _ end] => destruct (p_todo p)
           | |- context [match bf with _ => _ end] => destruct bf
           end;
    intros H; inversion H; subst; cbn; rewrite ?consumed_snoc; cbn;
    rewrite ?app_nil_r; auto.
Qed.

Lemma exit_frame_records s :
  produced (klog (glob (producer_consumer_exit s))) = produced (klog (glob s)) /\
  consumed (klog (glob (producer_consumer_exit s))) = consumed (klog (glob s)) /\
  takes (klog (glob (producer_consumer_exit s))) = takes (klog (glob s)) /\
  elapsed (klog (glob (producer_consumer_exit s))) = elapsed (klog (glob s)) /\
  (forall f, (forall c, f (stop_request c) = f c) ->
     wsum f (consumerThreads (producer_consumer_exit s)) = wsum f (consumerThreads s)).
Proof.
  unfold producer_consumer_exit.
  destruct s as [g p cs x].
  destruct g as [bs pr co uu em fu mu bf hd tl tc tn lg]. cbn.
  destruct (x_pc x); cbn;
    repeat match goal with
           | |- context [if ?b then _ else _] => destruct b
           | |- context [match ?o with Some _ => _ | None => _ end] => destruct o
           end;
    cbn; rewrite ?produced_snoc, ?consumed_snoc, ?takes_snoc, ?elapsed_snoc; cbn;
    rewrite ?app_nil_r; repeat split; auto.
  intros f Hf. apply wsum_alter, Hf.
Qed.

Section ProducerRecords.

#[local] Arguments p_wl p /.
#[local] Arguments p_t p /.
#[local] Arguments p_cnt p /.

Lemma producer_step_log s p sig g' p' :
  Inv s -> producerThread s = Some p ->
  kthread_producer sig (glob s) p = (g', p') ->
  producer_log_inv s ->
  producer_log_inv (System g' (Some p') (consumerThreads s) (rmmod s)).
Proof.
  intros HI Hp Hstep (Hrec & Hmod & Hcnt).
  pose proof (inv_size s HI) as Isz. pose proof (inv_tail s HI) as Itl.
  specialize (Hcnt p Hp).
  destruct s as [g q cs x].
  destruct g as [bs pr co uu em fu mu bf hd tl tc tn lg].
  unfold producer_log_inv. cbn in *. subst q. cbn in *.
  unfold kthread_producer, down_interruptible, buffer_write in Hstep. cbn in Hstep.
  destruct (p_pc p) eqn:Epc;
    repeat match type of Hstep with
           | context [if ?b then _ else _] => destruct b
           | context [match p_todo p with _ => _ end] => destruct (p_todo p)
           | context [match bf with _ => _ end] => destruct bf
           end;
    inversion Hstep; subst g' p'; clear Hstep; cbn in *; rewrite ?Epc in *; cbn in *;
    try (split; [exact Hrec|]; split; [rewrite <- Hmod; f_equal; lia|];
         intros p0 E0; inversion E0; subst p0; cbn; rewrite ?Epc;
         rewrite Hcnt; f_equal; lia).
  - (* PCount *)
    split; [exact Hrec|]. split; [exact Hmod|].
    intros p0 E0; inversion E0; subst p0; cbn.
    rewrite Hcnt, wrap_int_add_l. f_equal. lia.
  - (* PPrintk *)
    assert (Etl : tl = Z.of_nat (length (puts lg)) mod bs).
    { rewrite <- Hmod. replace (tl + 1 - 1) with tl by lia.
      rewrite Z.mod_small by lia. reflexivity. }
    rewrite produced_snoc, puts_snoc. cbn. rewrite numbered_snoc, length_app. cbn.
    split; [|split].
    + rewrite Hrec, Hcnt, <- Etl. reflexivity.
    + replace (tl + 1 - 0) with (tl + 1) by lia.
      replace (Z.of_nat (length (puts lg) + 1)) with (Z.of_nat (length (puts lg)) + 1)
        by lia.
      apply mod_add_cong. rewrite <- Hmod. f_equal. lia.
    + intros p0 E0; inversion E0; subst p0; cbn. rewrite Hcnt. f_equal. lia.
  - (* PAdvance *)
    destruct (rem_wrap_succ tl bs Itl ltac:(lia)) as [Erem _]. rewrite Erem.
    split; [exact Hrec|]. split.
    + replace ((tl + 1) mod bs + 0 - 0) with ((tl + 1) mod bs) by lia.
      rewrite Z.mod_mod by lia. rewrite <- Hmod. f_equal. lia.
    + intros p0 E0; inversion E0; subst p0; cbn. exact Hcnt.
Qed.

End ProducerRecords.

Section ConsumerRecords.

#[local] Arguments c_mx c /.
#[local] Arguments c_rl c /.
#[local] Arguments c_h c /.
#[local] Arguments c_cnt c /.

Lemma consumer_step_log s i c sig now g' c' :
  Inv s -> consumerThreads s !! i = Some c ->
  kthread_consumer sig now (glob s) c = (g', c') ->
  consumer_log_inv s ->
  consumer_log_inv (System g' (producerThread s) (<[i := c']> (consumerThreads s)) (rmmod s)).
Proof.
  intros HI Hi Hstep (Hrec & Hmod).
  assert (c_pc c = CDone \/ c_pc c <> CDone) as [Hdone|Halive]
    by (destruct (c_pc c); auto; right; discriminate).
  { unfold kthread_consumer in Hstep. rewrite Hdone in Hstep.
    inversion Hstep; subst. rewrite list_insert_id by exact Hi.
    destruct s; split; assumption. }
  destruct (alive_phase s i c HI Hi Halive) as (Hxm & _ & _ & _).
  pose proof (wsum_insert c_h _ _ _ c' Hi) as Wh.
  pose proof (wsum_insert c_rl _ _ _ c' Hi) as Wrl.
  pose proof (wsum_lookup_le c_mx _ _ _ c_mx_nonneg Hi) as Lmx.
  pose proof (pweights_nonneg (producerThread s)) as (Np & _).
  pose proof (inv_size s HI) as Isz. pose proof (inv_head s HI) as Ihd.
  pose proof (inv_sems s HI) as (_ & _ & Imu).
  pose proof (inv_mutex s HI) as Imx.
  pose proof (inv_stats s HI) as (Htc & _).
  assert (Hokc : consumer_ok c).
  { eapply Forall_lookup_1; [apply (inv_ok s HI)|exact Hi]. }
  assert (Hex : forall h, (forall c0, c_mx c0 = 0 -> h c0 = 0) -> c_mx c = 1 ->
                          wsum h (consumerThreads s) = h c).
  { intros h Hh Hc. apply (wsum_exclusive c_mx h _ i c c_mx_nonneg Hh Hi). lia. }
  destruct s as [g p cs x].
  destruct g as [bs pr co uu em fu mu bf hd tl tc tn lg].
  unfold consumer_log_inv, consumer_ok in *. cbn in *.
  unfold kthread_consumer, down_interruptible in Hstep. cbn in Hstep.
  destruct (c_pc c) eqn:Epc; try congruence;
    repeat match type of Hstep with
           | context [if ?b then _ else _] => destruct b
           | context [match c_task c with _ => _ end] =>
               destruct (c_task c) as [t|] eqn:Etask;
               [|destruct Hokc as [_ Hsome]; specialize (Hsome eq_refl);
                 destruct Hsome; discriminate]
           end;
    inversion Hstep; subst g' c'; clear Hstep; cbn in *; rewrite ?Epc in *; cbn in *;
    rewrite Wh, Wrl; rewrite ?consumed_snoc, ?takes_snoc;
    cbn [consumed_of take_of]; rewrite ?app_nil_r;
    try (split; [exact Hrec|]; rewrite <- Hmod; f_equal; lia).
  - (* CPrintk *)
    assert (Eh : wsum c_h cs = 1).
    { rewrite (Hex c_h); [cbn; rewrite Epc; reflexivity| |reflexivity].
      intros c0; cbn; destruct (c_pc c0); auto; discriminate. }
    assert (Erl : wsum c_rl cs = 1).
    { rewrite (Hex c_rl); [cbn; rewrite Epc; reflexivity| |reflexivity].
      intros c0; cbn; destruct (c_pc c0); auto; discriminate. }
    assert (Ecnt : wsum c_cnt cs = 1).
    { rewrite (Hex c_cnt); [cbn; rewrite Epc; reflexivity| |reflexivity].
      intros c0; cbn; destruct (c_pc c0); auto; discriminate. }
    assert (Ehd : hd = Z.of_nat (length (takes lg)) mod bs).
    { rewrite <- Hmod, Eh, Erl. replace (hd + 1 - 1) with hd by lia.
      rewrite Z.mod_small by lia. reflexivity. }
    rewrite numbered_snoc, length_app. cbn [length].
    split.
    + rewrite Hrec, Htc, Ecnt, <- Ehd. reflexivity.
    + replace (Z.of_nat (length (takes lg) + 1)) with (Z.of_nat (length (takes lg)) + 1)
        by lia.
      replace (hd + (wsum c_h cs - 1 + 1) - (wsum c_rl cs - 1 + 0))
        with (hd + wsum c_h cs - wsum c_rl cs + 1) by lia.
      apply mod_add_cong. exact Hmod.
  - (* CAdvance *)
    destruct (rem_wrap_succ hd bs Ihd ltac:(lia)) as [Erem _]. rewrite Erem.
    split; [exact Hrec|]. rewrite <- Hmod.
    rewrite <- !Z.add_sub_assoc, Zplus_mod_idemp_l. f_equal. lia.
Qed.

End ConsumerRecords.

Lemma step_logs s a :
  Inv s -> producer_log_inv s /\ consumer_log_inv s ->
  producer_log_inv (step s a) /\ consumer_log_inv (step s a).
Proof.
  intros HI [HP HC]. unfold step. destruct (who a) as [|i|].
  - destruct (producerThread s) as [p|] eqn:Hp; [|auto].
    destruct (kthread_producer (signal_pending a) (glob s) p) as [g' p'] eqn:Hs.
    split; [eapply producer_step_log; eauto|].
    pose proof (producer_frame _ _ _ _ _ Hs) as ((Eb & _) & Et & _ & Eh & _).
    eapply consumer_log_inv_ext; [..|exact HC]; cbn; auto.
    eapply producer_frame_consumed; eauto.
  - destruct (consumerThreads s !! i) as [c|] eqn:Hc; [|auto].
    destruct (kthread_consumer (signal_pending a) (now a) (glob s) c) as [g' c'] eqn:Hs.
    split; [|eapply consumer_step_log; eauto].
    pose proof (consumer_frame _ _ _ _ _ _ Hs) as ((Eb & _) & Ep & Et & _).
    eapply producer_log_inv_ext; [..|exact HP]; cbn; auto.
    eapply consumer_frame_produced; eauto.
  - destruct (exit_frame s) as ((Eb & _) & Ep & Ept & Eh & Et).
    destruct (exit_frame_records s) as (Epr & Eco & Eta & _ & Ew).
    split.
    + eapply producer_log_inv_ext; [..|exact HP]; auto.
    + eapply consumer_log_inv_ext; [..|exact HC]; auto.
Qed.

Lemma run_logs sched : forall s,
  Inv s -> producer_log_inv s /\ consumer_log_inv s ->
  producer_log_inv (run sched s) /\ consumer_log_inv (run sched s).
Proof.
  induction sched as [|a sched IH]; intros s HI HL; [exact HL|].
  simpl. apply IH; [apply step_Inv, HI|apply step_logs; assumption].
Qed.

Lemma reachable_logs k bs pr co uu s :
  is_int bs -> is_int co -> reachable k bs pr co uu s ->
  producer_log_inv s /\ consumer_log_inv s.
Proof.
  intros Hbs Hco (s0 & sched & Hinit & ->).
  apply run_logs; [exact (init_Inv k bs pr co uu s0 Hbs Hco Hinit)|].
  pose proof (init_zero_state _ _ _ _ _ _ Hco Hinit) as Hst.
  unfold loaded in Hst. subst s0.
  unfold producer_log_inv, consumer_log_inv. cbn [glob klog buffSize tail head
    producerThread consumerThreads].
  assert (Hw : forall f, (forall c, c_pc c = CStart -> f c = 0) ->
                         wsum f (fresh_consumers 0 (Z.to_nat co)) = 0).
  { intros f Hf. apply wsum_zero. apply Forall_lookup_2. intros j c Hj.
    apply fresh_consumers_lookup in Hj. subst c. apply Hf. reflexivity. }
  rewrite !Hw by (intros c Hc; (unfold c_h || unfold c_rl); now rewrite Hc).
  destruct (0 <? co), (pr =? 1); cbn; repeat split;
    intros p E; inversion E; reflexivity.
Qed.

(** The consumers' records are an initial part of the producer's. *)
Lemma takes_prefix_puts s :
  Inv s -> exists rest, puts (klog (glob s)) = takes (klog (glob s)) ++ rest.
Proof.
  intros HI.
  destruct (inv_items s HI) as (pending & Hwr & _ & _ & Hfu' & _ & _).
  unfold written, read_out in Hwr.
  destruct (p_in_hand_weight (producerThread s)) as [[E _]|(t & E & Hb)];
    rewrite E in Hwr.
  - rewrite app_nil_r in Hwr. rewrite Hwr, <- app_assoc. eauto.
  - pose proof (wsum_nonneg c_a (consumerThreads s)
                  (fun c => proj1 (proj1 (proj2 (weights_nonneg c))))) as Na.
    destruct (exists_last (l := pending)) as (pending' & u & ->).
    { intros ->. cbn in Hfu'. lia. }
    rewrite !app_assoc in Hwr. apply app_inj_tail in Hwr as [Hwr _].
    rewrite Hwr, <- !app_assoc. eauto.
Qed.

(** X7. The producer's records number the items 1, 2, 3, ... in the
    order they are stored, as [count] counts them in an [int], and the
    buffer index of the [n]-th record (from 0) is [n mod buffSize]: the
    producer fills the slots round and round. *)
Theorem produced_records_numbered (k : kernel) (bs pr co uu : Z) (s : system) :
  is_int bs -> is_int co ->
  reachable k bs pr co uu s ->
  produced (klog (glob s)) = numbered bs (puts (klog (glob s))) /\
  (forall (n : nat) item idx t,
     produced (klog (glob s)) !! n = Some (item, idx, t) ->
     puts (klog (glob s)) !! n = Some t /\
     item = Int.wrap_int (Z.of_nat n + 1) /\
     (Z.of_nat n < Int.INT_MAX -> item = Z.of_nat n + 1) /\
     idx = Z.of_nat n mod bs /\ 0 <= idx < bs) /\
  (forall p, producerThread s = Some p -> p_pc p <> PPrintk ->
     p_count p = Int.wrap_int (Z.of_nat (length (puts (klog (glob s)))))).
Proof.
  intros Hbs Hco Hr.
  destruct (reachable_logs _ _ _ _ _ _ Hbs Hco Hr) as [(Hrec & _ & Hcnt) _].
  pose proof (inv_size s (reachable_Inv _ _ _ _ _ _ Hbs Hco Hr)) as Isz.
  destruct (reachable_params _ _ _ _ _ _ Hr) as (Eb & _).
  rewrite Eb in *. split; [exact Hrec|]. split.
  - intros n item idx t Hn. rewrite Hrec in Hn.
    apply numbered_lookup in Hn as (t' & Ht & E). inversion E; subst.
    split; [exact Ht|]. split; [reflexivity|]. split.
    + intros Hlt. apply wrap_int_id. unfold Int.INT_MAX in *. lia.
    + split; [reflexivity|]. apply Z.mod_pos_bound. lia.
  - intros p Hp Hpc. rewrite (Hcnt p Hp). f_equal.
    unfold p_cnt. destruct (p_pc p); try lia. congruence.
Qed.

Lemma produced_records_numbered_witness :
  produced (klog (glob (run demo_sched (demo_boot 2 1 2))))
  = numbered 2 (puts (klog (glob (run demo_sched (demo_boot 2 1 2))))).
Proof.
  exact (proj1 (produced_records_numbered demo_kernel 2 1 2 1 _ demo_int demo_int
                  (demo_reachable demo_sched))).
Defined.

(** X8. The consumers' records, whichever consumers print them, number
    the items 1, 2, 3, ... in the order they are taken, as [totalConsumed]
    counts them in an [int], with buffer index [n mod buffSize] for the
    [n]-th record (from 0).  Record for record they repeat the producer's:
    the item consumed as number [n] from slot [i] with pid [p] is the item
    produced as number [n] at slot [i] with pid [p]. *)
Theorem consumed_records_match (k : kernel) (bs pr co uu : Z) (s : system) :
  is_int bs -> is_int co ->
  reachable k bs pr co uu s ->
  consumed (klog (glob s)) = numbered bs (takes (klog (glob s))) /\
  (exists rest, produced (klog (glob s)) = consumed (klog (glob s)) ++ rest) /\
  (forall (n : nat) item idx t,
     consumed (klog (glob s)) !! n = Some (item, idx, t) ->
     produced (klog (glob s)) !! n = Some (item, idx, t) /\
     item = Int.wrap_int (Z.of_nat n + 1) /\ idx = Z.of_nat n mod bs).
Proof.
  intros Hbs Hco Hr.
  pose proof (reachable_Inv _ _ _ _ _ _ Hbs Hco Hr) as HI.
  destruct (reachable_logs _ _ _ _ _ _ Hbs Hco Hr) as [(Hp & _) (Hc & _)].
  destruct (reachable_params _ _ _ _ _ _ Hr) as (Eb & _).
  rewrite Eb in *.
  destruct (takes_prefix_puts s HI) as (more & Hpre).
  assert (Hrest : exists rest,
            produced (klog (glob s)) = consumed (klog (glob s)) ++ rest).
  { rewrite Hp, Hc, Hpre. apply numbered_prefix. }
  split; [exact Hc|]. split; [exact Hrest|].
  intros n item idx t Hn. destruct Hrest as (rest & ->).
  split; [apply lookup_app_l_Some; exact Hn|].
  rewrite Hc in Hn. apply numbered_lookup in Hn as (t' & _ & E).
  inversion E; subst. auto.
Qed.

Lemma consumed_records_match_witness :
  consumed (klog (glob (run demo_sched (demo_boot 2 1 2))))
  = numbered 2 (takes (klog (glob (run demo_sched (demo_boot 2 1 2))))).
Proof.
  exact (proj1 (consumed_records_match demo_kernel 2 1 2 1 _ demo_int demo_int
                  (demo_reachable demo_sched))).
Defined.

(** ** The semaphores while nothing is interrupted *)

Lemma in_hand_count cs :
  Forall consumer_ok cs -> Z.of_nat (length (flat_map c_in_hand cs)) = wsum c_rl cs.
Proof.
  induction 1 as [|c cs [_ Hc] _ IH]; [reflexivity|].
  cbn [flat_map]. rewrite length_app, Nat2Z.inj_add, IH.
  change (wsum c_rl (c :: cs)) with (c_rl c + wsum c_rl cs). f_equal.
  unfold c_in_hand, c_rl in *.
  destruct (c_pc c); try reflexivity;
    destruct (Hc eq_refl) as [t ->]; reflexivity.
Qed.

Lemma filled_stored s : Inv s -> filled s = stored s.
Proof.
  intros HI. unfold filled, stored, written, read_out.
  rewrite !length_app, !Nat2Z.inj_add, (in_hand_count _ (inv_ok s HI)).
  assert (Z.of_nat (length (p_in_hand (producerThread s))) = pw p_wl (producerThread s)).
  { destruct (producerThread s) as [p|]; [|reflexivity]. cbn. unfold p_wl.
    destruct (p_pc p); reflexivity. }
  lia.
Qed.

Section Accounts.

#[local] Arguments p_a p /.
#[local] Arguments p_b p /.
#[local] Arguments p_wl p /.
#[local] Arguments c_a c /.
#[local] Arguments c_b c /.
#[local] Arguments c_rl c /.
#[local] Arguments x_f x /.

Lemma producer_step_accounts s p g' p' :
  producerThread s = Some p ->
  kthread_producer false (glob s) p = (g', p') ->
  accounts s -> accounts (System g' (Some p') (consumerThreads s) (rmmod s)).
Proof.
  intros Hp Hstep.
  destruct s as [g q cs x].
  destruct g as [bs pr co uu em fu mu bf hd tl tc tn lg].
  unfold accounts, free_slots, filled_slots, stored. cbn in *. subst q. cbn.
  unfold kthread_producer, down_interruptible, buffer_write, up in Hstep. cbn in Hstep.
  destruct (p_pc p) eqn:Epc;
    repeat match type of Hstep with
           | context [if ?b then _ else _] => destruct b
           | context [match p_todo p with _ => _ end] => destruct (p_todo p)
           | context [match bf with _ => _ end] => destruct bf
           end;
    inversion Hstep; subst g' p'; clear Hstep; cbn; rewrite ?Epc; cbn;
    rewrite ?puts_snoc, ?takes_snoc; cbn [put_of take_of];
    rewrite ?app_nil_r, ?length_app; cbn [length]; lia.
Qed.

Lemma consumer_step_accounts s i c now g' c' :
  Inv s -> consumerThreads s !! i = Some c ->
  kthread_consumer false now (glob s) c = (g', c') ->
  accounts s ->
  accounts (System g' (producerThread s) (<[i := c']> (consumerThreads s)) (rmmod s)).
Proof.
  intros HI Hi Hstep.
  assert (Hokc : consumer_ok c).
  { eapply Forall_lookup_1; [apply (inv_ok s HI)|exact Hi]. }
  pose proof (wsum_insert c_a _ _ _ c' Hi) as Wa.
  pose proof (wsum_insert c_b _ _ _ c' Hi) as Wb.
  pose proof (wsum_insert c_rl _ _ _ c' Hi) as Wrl.
  clear HI.
  destruct s as [g p cs x].
  destruct g as [bs pr co uu em fu mu bf hd tl tc tn lg].
  unfold accounts, free_slots, filled_slots, stored, consumer_ok in *. cbn in *.
  unfold kthread_consumer, down_interruptible, up in Hstep. cbn in Hstep.
  destruct (c_pc c) eqn:Epc;
    repeat match type of Hstep with
           | context [if ?b then _ else _] => destruct b
           | context [match c_task c with _ => _ end] =>
               destruct (c_task c) as [t|] eqn:Etask;
               [|destruct Hokc as [_ Hsome]; specialize (Hsome eq_refl);
                 destruct Hsome; discriminate]
           end;
    inversion Hstep; subst g' c'; clear Hstep; cbn in *; rewrite ?Epc in *; cbn in *;
    rewrite Wa, Wb, Wrl; rewrite ?puts_snoc, ?takes_snoc; cbn [put_of take_of];
    rewrite ?app_nil_r, ?length_app; cbn [length]; lia.
Qed.

Lemma exit_step_accounts s : accounts s -> accounts (producer_consumer_exit s).
Proof.
  destruct s as [g p cs x].
  destruct g as [bs pr co uu em fu mu bf hd tl tc tn lg].
  unfold accounts, free_slots, filled_slots, stored, producer_consumer_exit, up.
  cbn.
  destruct (x_pc x) eqn:Epc; cbn;
    repeat match goal with
           | |- context [if ?b then _ else _] => destruct b
           | |- context [match ?o with Some _ => _ | None => _ end] => destruct o
           end;
    cbn; rewrite ?Epc;
    rewrite ?(wsum_alter c_a), ?(wsum_alter c_b), ?(wsum_alter c_rl) by reflexivity;
    rewrite ?puts_snoc, ?takes_snoc; cbn [put_of take_of];
    rewrite ?app_nil_r; lia.
Qed.

End Accounts.

Lemma step_accounts s a :
  Inv s -> signal_pending a = false -> accounts s -> accounts (step s a).
Proof.
  intros HI Hsig HA. unfold step. destruct (who a) as [|i|].
  - destruct (producerThread s) as [p|] eqn:Hp; [|exact HA].
    destruct (kthread_producer (signal_pending a) (glob s) p) as [g' p'] eqn:Hs.
    rewrite Hsig in Hs. eapply producer_step_accounts; eauto.
  - destruct (consumerThreads s !! i) as [c|] eqn:Hc; [|exact HA].
    destruct (kthread_consumer (signal_pending a) (now a) (glob s) c) as [g' c'] eqn:Hs.
    rewrite Hsig in Hs. eapply consumer_step_accounts; eauto.
  - apply exit_step_accounts, HA.
Qed.

Lemma run_accounts sched : forall s,
  Inv s -> no_signal sched -> accounts s -> accounts (run sched s).
Proof.
  induction sched as [|a sched IH]; intros s HI Hq HA; [exact HA|].
  apply Forall_cons in Hq as [Ha Hq].
  simpl. apply IH; [apply step_Inv, HI|exact Hq|apply step_accounts; assumption].
Qed.

Lemma init_accounts k bs pr co uu s0 :
  is_int co -> producer_consumer_init k (insmod bs pr co uu) = (0, s0) -> accounts s0.
Proof.
  intros Hco Hinit.
  pose proof (init_zero_state _ _ _ _ _ _ Hco Hinit) as Hst.
  unfold loaded in Hst. subst s0.
  unfold accounts, free_slots, filled_slots, stored.
  cbn [glob klog buffSize empty full producerThread consumerThreads rmmod].
  assert (Hw : forall f, (forall c, c_pc c = CStart -> f c = 0) ->
                         wsum f (fresh_consumers 0 (Z.to_nat co)) = 0).
  { intros f Hf. apply wsum_zero. apply Forall_lookup_2. intros j c Hj.
    apply fresh_consumers_lookup in Hj. subst c. apply Hf. reflexivity. }
  rewrite !Hw by (intros c Hc; (unfold c_a || unfold c_b || unfold c_rl); now rewrite Hc).
  destruct (0 <? co), (pr =? 1); unfold puts, takes; cbn; lia.
Qed.

Lemma no_signal_quiet t now n : no_signal (quiet t now n).
Proof.
  unfold no_signal, quiet. apply List.Forall_forall. intros a Ha.
  apply repeat_spec in Ha. subst a. reflexivity.
Qed.

(** X9. As long as no wait is interrupted by a signal, the two counting
    semaphores keep exact account of the buffer, for any number of
    consumers and any interleaving: [empty], plus the free slots the
    producer has taken and not yet filled, plus the slots consumers have
    emptied and not yet given back, plus the filled slots, is [buffSize];
    [full], plus the items the producer has stored and not yet announced,
    plus the items consumers have been granted and not yet read, is the
    number of filled slots, and one more once [producer_consumer_exit] has
    issued its [up(&full)].  In particular, while every thread is outside
    its loop body, [empty = buffSize - filled] and [full = filled]. *)
Theorem semaphore_accounting (k : kernel) (bs pr co uu : Z) (s0 : system)
    (sched : list action) :
  is_int bs -> is_int co ->
  producer_consumer_init k (insmod bs pr co uu) = (0, s0) ->
  no_signal sched ->
  let s := run sched s0 in
  free_slots s + filled s = bs /\
  filled_slots s = filled s + x_f (rmmod s) /\
  (pw p_a (producerThread s) = 0 -> pw p_b (producerThread s) = 0 ->
   wsum c_a (consumerThreads s) = 0 -> wsum c_b (consumerThreads s) = 0 ->
   empty (glob s) = bs - filled s /\ full (glob s) = filled s + x_f (rmmod s)).
Proof.
  intros Hbs Hco Hinit Hq s.
  assert (Hr : reachable k bs pr co uu s) by (exists s0, sched; auto).
  pose proof (reachable_Inv _ _ _ _ _ _ Hbs Hco Hr) as HI.
  destruct (reachable_params _ _ _ _ _ _ Hr) as (Eb & _).
  pose proof (run_accounts sched s0 (init_Inv _ _ _ _ _ _ Hbs Hco Hinit) Hq
                (init_accounts _ _ _ _ _ _ Hco Hinit)) as [HA HB].
  fold s in HA, HB. rewrite <- (filled_stored s HI), Eb in *.
  split; [exact HA|]. split; [exact HB|].
  unfold free_slots, filled_slots in *. intros H1 H2 H3 H4. lia.
Qed.

Lemma semaphore_accounting_witness :
  free_slots (run (quiet TProducer 0 30) (demo_boot 2 1 2))
  + filled (run (quiet TProducer 0 30) (demo_boot 2 1 2)) = 2.
Proof.
  assert (Hinit : producer_consumer_init demo_kernel (insmod 2 1 2 1)
                  = (0, demo_boot 2 1 2)) by (vm_compute; reflexivity).
  exact (proj1 (semaphore_accounting demo_kernel 2 1 2 1 (demo_boot 2 1 2)
                  (quiet TProducer 0 30) demo_int demo_int Hinit
                  (no_signal_quiet TProducer 0 30))).
Defined.

(** ** Unloading when the consumers have returned *)

Lemma run_app l1 l2 s : run (l1 ++ l2) s = run l2 (run l1 s).
Proof. apply fold_left_app. Qed.




(** ** The closing record *)

Lemma summaries_snoc l e : summaries (l ++ [e]) = summaries l ++ summary_of e.
Proof. unfold summaries. rewrite flat_map_app. cbn. now rewrite app_nil_r. Qed.

#[local] Arguments summaries : simpl never.

Lemma producer_frame_summaries sig g p g' p' :
  kthread_producer sig g p = (g', p') -> summaries (klog g') = summaries (klog g).
Proof.
  unfold kthread_producer, down_interruptible, buffer_write.
  destruct g as [bs pr co uu em fu mu bf hd tl tc tn lg]. cbn.
  destruct (p_pc p); cbn;
    repeat match goal with
           | |- context [if ?b then _ else _] => destruct b
           | |- context [match p_todo p with _ => _ end] => destruct (p_todo p)
           | |- context [match bf with _ => _ end] => destruct bf
           end;
    intros H; inversion H; subst; cbn; rewrite ?summaries_snoc; cbn;
    rewrite ?app_nil_r; auto.
Qed.

Lemma consumer_frame_summaries sig now g c g' c' :
  kthread_consumer sig now g c = (g', c') -> summaries (klog g') = summaries (klog g).
Proof.
  unfold kthread_consumer, down_interruptible.
  destruct g as [bs pr co uu em fu mu bf hd tl tc tn lg]. cbn.
  destruct (c_pc c); cbn;
    repeat match goal with
           | |- context [if ?b then _ else _] => destruct b
           | |- context [match c_task c with _ => _ end] => destruct (c_task c)
           end;
    intros H; inversion H; subst; cbn; rewrite ?summaries_snoc; cbn;
    rewrite ?app_nil_r; auto.
Qed.

Lemma exit_step_summary s : summary_inv s -> summary_inv (producer_consumer_exit s).
Proof.
  unfold summary_inv, producer_consumer_exit.
  destruct s as [g p cs x].
  destruct g as [bs pr co uu em fu mu bf hd tl tc tn lg]. cbn.
  destruct (x_pc x) eqn:Epc; cbn;
    repeat match goal with
           | |- context [if ?b then _ else _] => destruct b
           | |- context [match ?o with Some _ => _ | None => _ end] => destruct o
           end;
    cbn; rewrite ?Epc; auto.
  intros [Hs Htf]. rewrite summaries_snoc, Hs, Htf. reflexivity.
Qed.

Lemma step_summary s a : Inv s -> summary_inv s -> summary_inv (step s a).
Proof.
  intros HI HS. unfold step. destruct (who a) as [|i|].
  - destruct (producerThread s) as [p|] eqn:Hp; [|exact HS].
    destruct (kthread_producer (signal_pending a) (glob s) p) as [g' p'] eqn:Hs.
    pose proof (producer_frame _ _ _ _ _ Hs) as ((_ & _ & _ & Eu) & _ & _ & _ & _ & En).
    pose proof (producer_frame_summaries _ _ _ _ _ Hs) as Es.
    unfold summary_inv in *. cbn. rewrite Es, Eu, En. exact HS.
  - destruct (consumerThreads s !! i) as [c|] eqn:Hc; [|exact HS].
    destruct (kthread_consumer (signal_pending a) (now a) (glob s) c) as [g' c'] eqn:Hs.
    assert (c_pc c = CDone \/ c_pc c <> CDone) as [Hdone|Halive]
      by (destruct (c_pc c); auto; right; discriminate).
    + unfold kthread_consumer in Hs. rewrite Hdone in Hs.
      inversion Hs; subst. rewrite list_insert_id by exact Hc.
      destruct s; exact HS.
    + destruct (alive_phase s i c HI Hc Halive) as (_ & Hxf & _).
      pose proof (consumer_frame_summaries _ _ _ _ _ _ Hs) as Es.
      unfold summary_inv, x_f in *. cbn.
      destruct (x_pc (rmmod s)); try lia; rewrite Es; exact HS.
  - apply exit_step_summary, HS.
Qed.

Lemma run_summary sched : forall s, Inv s -> summary_inv s -> summary_inv (run sched s).
Proof.
  induction sched as [|a sched IH]; intros s HI HS; [exact HS|].
  simpl. apply IH; [apply step_Inv, HI|apply step_summary; assumption].
Qed.

Lemma reachable_summary k bs pr co uu s :
  is_int bs -> is_int co -> reachable k bs pr co uu s -> summary_inv s.
Proof.
  intros Hbs Hco (s0 & sched & Hinit & ->).
  apply run_summary; [exact (init_Inv k bs pr co uu s0 Hbs Hco Hinit)|].
  pose proof (init_zero_state _ _ _ _ _ _ Hco Hinit) as Hst.
  unfold loaded in Hst. subst s0.
  unfold summary_inv. cbn [rmmod x_pc glob klog].
  destruct (0 <? co), (pr =? 1); reflexivity.
Qed.

(** X11. [producer_consumer_exit] prints its closing record once, as the
    last thing it does, and no other thread prints one.  When it has
    returned, the buffer is freed, every consumer has returned, and the
    record carries [uuid] and the HH:MM:SS rendering of the total, which
    is the sum, as a [long], of the elapsed times of all the "Consumed"
    records of the log. *)
Theorem exit_summary (k : kernel) (bs pr co uu : Z) (s : system) :
  is_int bs -> is_int co ->
  reachable k bs pr co uu s ->
  (x_pc (rmmod s) <> XDone -> summaries (klog (glob s)) = []) /\
  (x_pc (rmmod s) = XDone ->
   summaries (klog (glob s))
   = [(uu, Fmt.exit_timeFormat
             (Int.wrap_long (sumZ (elapsed (klog (glob s))))))] /\
   totalProcessNanoseconds (glob s) = Int.wrap_long (sumZ (elapsed (klog (glob s)))) /\
   Forall (fun c => c_pc c = CDone) (consumerThreads s)).
Proof.
  intros Hbs Hco Hr.
  pose proof (reachable_Inv _ _ _ _ _ _ Hbs Hco Hr) as HI.
  pose proof (reachable_summary _ _ _ _ _ _ Hbs Hco Hr) as HS.
  destruct (reachable_params _ _ _ _ _ _ Hr) as (_ & _ & _ & Eu).
  unfold summary_inv in HS. split.
  - intros Hx. destruct (x_pc (rmmod s)); try exact HS; [apply HS|congruence].
  - intros Hx. rewrite Hx in HS.
    assert (Hmx : x_mx (rmmod s) = 1) by (unfold x_mx; rewrite Hx; reflexivity).
    pose proof (all_returned_quiet s HI Hmx) as Hq.
    destruct (quiet_consumers _ Hq) as [_ Hns].
    destruct (inv_stats s HI) as [_ Htn]. rewrite Hns, Z.add_0_r in Htn.
    split; [rewrite HS, Eu, Htn; reflexivity|]. split; [exact Htn|].
    apply Forall_lookup_2. intros j c Hj.
    eapply (inv_joined s HI); [exact Hj|].
    pose proof (lookup_lt_Some _ _ _ Hj) as Hlt.
    pose proof (inv_cons s HI) as [Hlen _].
    unfold x_joined. rewrite Hx. lia.
Qed.

Lemma exit_summary_witness :
  summaries (klog (glob (run (exit_sched 2) interrupted_consumers)))
  = [(1, Fmt.exit_timeFormat
           (Int.wrap_long
              (sumZ (elapsed (klog (glob (run (exit_sched 2) interrupted_consumers)))))))].
Proof.
  refine (proj1 (proj2 (exit_summary demo_kernel 2 1 2 1 _ demo_int demo_int _) _)).
  - unfold interrupted_consumers. rewrite <- run_app. apply demo_reachable.
  - vm_compute. reflexivity.
Defined.

(** ** Without a producer, without consumers *)

Lemma step_no_producer s a :
  producerThread s = None -> producerThread (step s a) = None.
Proof.
  intros Hp. unfold step. destruct (who a) as [|i|].
  - rewrite Hp. exact Hp.
  - destruct (consumerThreads s !! i); [|exact Hp].
    destruct (kthread_consumer _ _ _ _). exact Hp.
  - destruct (exit_frame s) as (_ & _ & E & _). rewrite E. exact Hp.
Qed.

Lemma run_no_producer sched : forall s,
  producerThread s = None -> producerThread (run sched s) = None.
Proof.
  induction sched as [|a sched IH]; intros s Hp; [exact Hp|].
  simpl. apply IH, step_no_producer, Hp.
Qed.

Lemma nothing_in_hand cs :
  Forall consumer_ok cs -> flat_map c_in_hand cs = [] ->
  wsum c_rl cs = 0 /\ wsum c_cnt cs = 0 /\ wsum c_ns cs = 0.
Proof.
  intros Hok Hnil.
  assert (Hrl : wsum c_rl cs = 0) by (rewrite <- (in_hand_count cs Hok), Hnil; reflexivity).
  apply wsum_zero_inv in Hrl; [|intros c; unfold c_rl; destruct (c_pc c); lia].
  repeat split; apply wsum_zero; eapply Forall_impl; try exact Hrl;
    intros c; unfold c_rl, c_cnt, c_ns; destruct (c_pc c); intros; lia.
Qed.

(** X12. Loaded with [prod = 0] the module never produces and never
    consumes: there is no producer thread, the log has no "Produced" and
    no "Consumed" record, both totals stay 0 and [tail] stays 0.  A
    consumer that waits in [down_interruptible(&full)] finds [full] at 0 and
    sleeps until a signal arrives, and the closing record of
    [producer_consumer_exit], once printed, reads 00:00:00. *)
Theorem no_producer_no_items (k : kernel) (bs co uu : Z) (s : system) :
  is_int bs -> is_int co ->
  reachable k bs 0 co uu s ->
  producerThread s = None /\
  produced (klog (glob s)) = [] /\ consumed (klog (glob s)) = [] /\
  totalConsumed (glob s) = 0 /\ totalProcessNanoseconds (glob s) = 0 /\
  tail (glob s) = 0 /\
  (forall (i : nat) c now, consumerThreads s !! i = Some c -> c_pc c = CDownFull ->
     full (glob s) = 0 /\ kthread_consumer false now (glob s) c = (glob s, c)) /\
  (x_pc (rmmod s) = XDone -> summaries (klog (glob s)) = [(uu, "00:00:00"%string)]).
Proof.
  intros Hbs Hco Hr.
  pose proof (reachable_Inv _ _ _ _ _ _ Hbs Hco Hr) as HI.
  destruct (reachable_logs _ _ _ _ _ _ Hbs Hco Hr) as [(Hpr & Htl & _) (Hcr & _)].
  pose proof (reachable_summary _ _ _ _ _ _ Hbs Hco Hr) as HS.
  destruct (reachable_params _ _ _ _ _ _ Hr) as (Eb & _ & _ & Eu).
  assert (Hp : producerThread s = None).
  { destruct Hr as (s0 & sched & Hinit & ->). apply run_no_producer.
    pose proof (init_zero_state _ _ _ _ _ _ Hco Hinit) as Hst.
    unfold loaded in Hst. subst s0. reflexivity. }
  assert (Hputs : puts (klog (glob s)) = []).
  { destruct Hr as (s0 & sched & Hinit & ->).
    pose proof (run_pass false (tasks k) sched s0 ltac:(discriminate)
                  (init_pass false _ _ _ _ _ _ Hinit)) as HP.
    unfold pass_inv in HP. rewrite Hp in HP. exact HP. }
  destruct (inv_items s HI) as (pending & Hwr & _ & Hfu & _ & _ & _).
  unfold written, read_out in Hwr. rewrite Hputs, Hp in Hwr. cbn in Hwr.
  symmetry in Hwr. apply app_eq_nil in Hwr as [Hwr Hpend].
  apply app_eq_nil in Hwr as [Htakes Hhand]. subst pending.
  destruct (nothing_in_hand _ (inv_ok s HI) Hhand) as (_ & Hcnt & Hns).
  destruct (inv_stats s HI) as [Htc Htn].
  rewrite Htakes in Htc. rewrite Hcnt in Htc. rewrite Hns in Htn.
  assert (Hel : elapsed (klog (glob s)) = []).
  { pose proof (elapsed_length (klog (glob s))) as Hl. rewrite Htakes in Hl.
    destruct (elapsed (klog (glob s))); [reflexivity|discriminate]. }
  rewrite Hel in Htn. cbn in Htc, Htn.
  split; [exact Hp|]. split; [rewrite Hpr, Hputs; reflexivity|].
  split; [rewrite Hcr, Htakes; reflexivity|].
  split; [exact Htc|]. split; [exact Htn|]. split; [|split].
  - rewrite Hputs, Hp in Htl. cbn in Htl.
    pose proof (inv_tail s HI) as Ht. pose proof (inv_size s HI) as Hsz.
    replace (tail (glob s) + 0 - 0) with (tail (glob s)) in Htl by lia.
    rewrite Z.mod_small, Z.mod_0_l in Htl by lia. exact Htl.
  - intros i c now Hi Hpc.
    destruct (alive_phase s i c HI Hi ltac:(rewrite Hpc; discriminate)) as (_ & Hxf & _).
    pose proof (inv_sems s HI) as (_ & Hf0 & _).
    pose proof (wsum_nonneg c_a (consumerThreads s)
                  (fun c => proj1 (proj1 (proj2 (weights_nonneg c))))) as Na.
    rewrite Hp in Hfu. cbn in Hfu.
    assert (Hfull : full (glob s) = 0) by lia.
    split; [exact Hfull|].
    unfold kthread_consumer, down_interruptible. rewrite Hpc, Hfull. reflexivity.
  - intros Hx. unfold summary_inv in HS. rewrite Hx in HS.
    rewrite HS, Eu, Htn. reflexivity.
Qed.

Lemma no_producer_no_items_witness :
  totalConsumed (glob unloading) = 0 /\ consumed (klog (glob unloading)) = [].
Proof.
  assert (Hr : reachable demo_kernel 2 0 5 1 unloading).
  { exists (demo_boot 2 0 5). eexists. split; [vm_compute; reflexivity|].
    unfold unloading, all_asleep.
    change (step ?s ?a) with (run [a] s). rewrite <- run_app. reflexivity. }
  pose proof (no_producer_no_items demo_kernel 2 5 1 unloading demo_int
                ltac:(unfold is_int, Int.INT_MAX; lia) Hr)
    as (_ & _ & Hc & Ht & _).
  split; assumption.
Defined.

Lemma no_names_no_records log :
  Forall (consumed_fields []) log -> takes log = [] /\ consumed log = [].
Proof.
  induction 1 as [|e log He _ [IH1 IH2]]; [split; reflexivity|].
  change (takes (e :: log)) with (take_of e ++ takes log).
  change (consumed (e :: log)) with (consumed_of e ++ consumed log).
  rewrite IH1, IH2.
  destruct e; try (split; reflexivity).
  destruct He as [Hin _]. apply elem_of_nil in Hin. destruct Hin.
Qed.

(** X13. Loaded with [cons = 0] the module has no consumer thread and
    consumes nothing: the log has no "Consumed" record and
    [totalConsumed] stays 0.  The producer stores at most [buffSize] items;
    when it has stored [buffSize] and comes to its next wait for a free slot,
    [empty] is 0 and it sleeps until a signal arrives, for no one will
    ever release a slot. *)
Theorem no_consumer_backpressure (k : kernel) (bs pr uu : Z) (s : system) :
  is_int bs ->
  reachable k bs pr 0 uu s ->
  consumerThreads s = [] /\
  consumed (klog (glob s)) = [] /\ totalConsumed (glob s) = 0 /\
  Z.of_nat (length (puts (klog (glob s)))) <= bs /\
  (forall p, producerThread s = Some p -> p_pc p = PDownEmpty ->
     Z.of_nat (length (puts (klog (glob s)))) = bs ->
     empty (glob s) = 0 /\ kthread_producer false (glob s) p = (glob s, p)).
Proof.
  intros Hbs Hr.
  assert (Hco : is_int 0) by (unfold is_int, Int.INT_MAX; lia).
  pose proof (reachable_Inv _ _ _ _ _ _ Hbs Hco Hr) as HI.
  destruct (reachable_fields _ _ _ _ _ _ Hco Hr) as (_ & _ & Hlog).
  destruct (reachable_params _ _ _ _ _ _ Hr) as (Eb & _ & Ec & _).
  cbn in Hlog. destruct (no_names_no_records _ Hlog) as [Htakes Hcons].
  assert (Hcs : consumerThreads s = []).
  { pose proof (inv_cons s HI) as [Hlen _]. rewrite Ec in Hlen.
    destruct (consumerThreads s); [reflexivity|discriminate]. }
  destruct (inv_items s HI) as (pending & Hwr & Hem & _).
  destruct (inv_stats s HI) as [Htc _].
  pose proof (inv_sems s HI) as (He0 & _).
  pose proof (pweights_nonneg (producerThread s)) as (_ & Hpa & _).
  unfold written, read_out in Hwr.
  rewrite Htakes, Hcs in Hwr, Htc. cbn in Hwr, Htc, Hem.
  apply (f_equal length) in Hwr. rewrite length_app in Hwr.
  rewrite Hcs in Hem. change (wsum c_b []) with 0 in Hem.
  change (wsum c_cnt []) with 0 in Htc. cbn in Htc. rewrite Eb in Hem.
  split; [exact Hcs|]. split; [exact Hcons|]. split; [exact Htc|].
  split; [lia|].
  intros p Hp Hpc Hfull.
  assert (He : empty (glob s) = 0) by lia.
  split; [exact He|].
  unfold kthread_producer, down_interruptible. rewrite Hpc, He. reflexivity.
Qed.

Lemma no_consumer_backpressure_witness :
  Z.of_nat (length (puts (klog (glob (run (quiet TProducer 0 60) (demo_boot 3 1 0))))))
  <= 3.
Proof.
  assert (Hr : reachable demo_kernel 3 1 0 1 (run (quiet TProducer 0 60) (demo_boot 3 1 0))).
  { exists (demo_boot 3 1 0), (quiet TProducer 0 60).
    split; [vm_compute; reflexivity|reflexivity]. }
  exact (proj1 (proj2 (proj2 (proj2
           (no_consumer_backpressure demo_kernel 3 1 1 _
              ltac:(unfold is_int, Int.INT_MAX; lia) Hr))))).
Defined.

(** ** Quiescence and the absence of deadlock *)

Lemma no_signal_producer sched : no_signal sched -> producer_uninterrupted sched.
Proof.
  unfold no_signal, producer_uninterrupted. intros H.
  eapply Forall_impl; [exact H|]. cbn. auto.
Qed.

(** X14. The module does its job.  In an execution where no wait is
    interrupted, once the producer has returned and every consumer is back
    at its wait for an item with [full] at 0, the tasks consumed are
    exactly the tasks of the task list whose owner is [uuid], each once, in
    the order of the list; they are also exactly the tasks produced; the
    buffer is empty and all its slots are free again; and [totalConsumed]
    is their number, as an [int]. *)
Theorem quiescent_all_consumed (k : kernel) (bs pr co uu : Z) (s0 : system)
    (sched : list action) :
  is_int bs -> is_int co ->
  producer_consumer_init k (insmod bs pr co uu) = (0, s0) ->
  no_signal sched ->
  let s := run sched s0 in
  forall p, producerThread s = Some p -> p_pc p = PDone ->
  Forall (fun c => c_pc c = CDownFull) (consumerThreads s) ->
  full (glob s) = 0 ->
  takes (klog (glob s)) = List.filter (matches uu) (tasks k) /\
  puts (klog (glob s)) = List.filter (matches uu) (tasks k) /\
  filled s = 0 /\ empty (glob s) = bs /\
  totalConsumed (glob s)
  = Int.wrap_int (Z.of_nat (length (List.filter (matches uu) (tasks k)))).
Proof.
  intros Hbs Hco Hinit Hq s p Hp Hpc Hall Hfull.
  assert (Hr : reachable k bs pr co uu s) by (exists s0, sched; auto).
  pose proof (reachable_Inv _ _ _ _ _ _ Hbs Hco Hr) as HI.
  destruct (reachable_params _ _ _ _ _ _ Hr) as (Eb & _ & _ & Eu).
  pose proof (run_accounts sched s0 (init_Inv _ _ _ _ _ _ Hbs Hco Hinit) Hq
                (init_accounts _ _ _ _ _ _ Hco Hinit)) as [HA HB].
  fold s in HA, HB.
  assert (Hw : forall f, (forall c, c_pc c = CDownFull -> f c = 0) ->
                         wsum f (consumerThreads s) = 0).
  { intros f Hf. apply wsum_zero. eapply Forall_impl; [exact Hall|]. exact Hf. }
  unfold free_slots, filled_slots, stored in HA, HB.
  rewrite Hp in HA, HB. cbn [pw] in HA, HB.
  unfold p_a, p_b, p_wl in HA, HB. rewrite Hpc in HA, HB.
  rewrite !Hw in HA, HB
    by (intros c Hc; (unfold c_a || unfold c_b || unfold c_rl); now rewrite Hc).
  assert (Hxf : x_f (rmmod s) = 0 \/ x_f (rmmod s) = 1)
    by (unfold x_f; destruct (x_pc (rmmod s)); auto).
  pose proof (run_pass true (tasks k) sched s0 (fun _ => no_signal_producer _ Hq)
                (init_pass true _ _ _ _ _ _ Hinit)) as HP.
  fold s in HP. unfold pass_inv, written in HP. rewrite Hp, Eu in HP. cbn in HP.
  destruct HP as (visited & Hvis & HP). rewrite Hpc in HP.
  destruct HP as (rest & HP & _ & Hs). destruct (Hs eq_refl) as [-> Htodo].
  rewrite Htodo, app_nil_r in Hvis. subst visited. rewrite !app_nil_r in HP.
  destruct (takes_prefix_puts s HI) as (more & Hpre).
  assert (Hmore : more = []).
  { apply (f_equal length) in Hpre. rewrite length_app in Hpre.
    destruct more; [reflexivity|]. cbn [length] in Hpre. lia. }
  subst more. rewrite app_nil_r in Hpre.
  destruct (inv_stats s HI) as [Htc _].
  rewrite Hw in Htc by (intros c Hc; unfold c_cnt; now rewrite Hc).
  rewrite Z.add_0_r in Htc.
  split; [rewrite <- Hpre, <- HP; reflexivity|]. split; [symmetry; exact HP|].
  split; [rewrite (filled_stored s HI); unfold stored; rewrite Hp; cbn [pw];
          unfold p_wl; rewrite Hpc, Hw, Hpre;
          [lia|intros c Hc; unfold c_rl; now rewrite Hc]|].
  split; [rewrite Hpre in HA; lia|].
  rewrite Htc, <- Hpre, <- HP. reflexivity.
Qed.

Lemma quiescent_all_consumed_witness :
  takes (klog (glob (run demo_sched (demo_boot 2 1 2))))
  = List.filter (matches 1) (tasks demo_kernel).
Proof.
  assert (Hinit : producer_consumer_init demo_kernel (insmod 2 1 2 1)
                  = (0, demo_boot 2 1 2)) by (vm_compute; reflexivity).
  assert (Hq : no_signal demo_sched).
  { unfold demo_sched, no_signal. repeat (apply Forall_app; split);
      apply no_signal_quiet. }
  refine (proj1 (quiescent_all_consumed demo_kernel 2 1 2 1 (demo_boot 2 1 2)
                   demo_sched demo_int demo_int Hinit Hq
                   (Producer PDone [] (Task 105 1 50) 3) _ _ _ _)).
  - vm_compute. reflexivity.
  - reflexivity.
  - vm_compute. repeat constructor.
  - vm_compute. reflexivity.
Defined.

Lemma producer_blocked g p :
  kthread_producer false g p = (g, p) -> p_pc p <> PDone ->
  (p_pc p = PDownEmpty /\ empty g <= 0) \/ (p_pc p = PDownMutex /\ mutex g <= 0).
Proof.
  unfold kthread_producer, down_interruptible. intros H Hnd.
  destruct (p_pc p) eqn:E; try congruence;
    repeat match type of H with
           | context [0 <? ?v] => destruct (Z.ltb_spec 0 v)
           | context [if ?b then _ else _] => destruct b
           | context [match p_todo p with _ => _ end] => destruct (p_todo p)
           end;
    auto;
    apply (f_equal snd) in H; cbn in H; apply (f_equal p_pc) in H; cbn in H; congruence.
Qed.

Lemma consumer_blocked now g c :
  kthread_consumer false now g c = (g, c) ->
  c_pc c = CDone \/ c_pc c = CFault \/
  (c_pc c = CDownFull /\ full g <= 0) \/ (c_pc c = CDownMutex /\ mutex g <= 0).
Proof.
  unfold kthread_consumer, down_interruptible. intros H.
  destruct (c_pc c) eqn:E; auto;
    repeat match type of H with
           | context [0 <? ?v] => destruct (Z.ltb_spec 0 v)
           | context [if ?b then _ else _] => destruct b
           | context [match c_task c with _ => _ end] => destruct (c_task c)
           end;
    auto 6;
    apply (f_equal snd) in H; cbn in H; apply (f_equal c_pc) in H; cbn in H; congruence.
Qed.

Lemma consumer_step_running now g c g' c' :
  kthread_consumer false now g c = (g', c') -> c_running c -> c_running c'.
Proof.
  unfold kthread_consumer, down_interruptible, c_running.
  intros H (Hs & Hk & Hd).
  destruct (c_pc c) eqn:E; try congruence; cbn in H;
    repeat match type of H with
           | context [if ?b then _ else _] => destruct b eqn:?
           | context [match c_task c with _ => _ end] => destruct (c_task c)
           end;
    try discriminate;
    inversion H; subst; cbn; rewrite ?E; repeat split; congruence.
Qed.

Lemma step_running s a :
  signal_pending a = false -> who a <> TRmmod ->
  Forall c_running (consumerThreads s) ->
  Forall c_running (consumerThreads (step s a)).
Proof.
  intros Hsig Hwho HR. unfold step. destruct (who a) as [|i|]; [| |congruence].
  - destruct (producerThread s) as [p|]; [|exact HR].
    destruct (kthread_producer _ _ _). exact HR.
  - destruct (consumerThreads s !! i) as [c|] eqn:Hc; [|exact HR].
    destruct (kthread_consumer (signal_pending a) (now a) (glob s) c) as [g' c'] eqn:Hs.
    rewrite Hsig in Hs. cbn. apply Forall_insert; [exact HR|].
    eapply consumer_step_running; [exact Hs|].
    eapply Forall_lookup_1; eauto.
Qed.

Lemma run_running sched : forall s,
  undisturbed sched -> Forall c_running (consumerThreads s) ->
  Forall c_running (consumerThreads (run sched s)).
Proof.
  induction sched as [|a sched IH]; intros s Hq HR; [exact HR|].
  apply Forall_cons in Hq as [[Ha1 Ha2] Hq].
  simpl. apply IH; [exact Hq|]. apply step_running; assumption.
Qed.

Lemma undisturbed_no_signal sched : undisturbed sched -> no_signal sched.
Proof.
  unfold undisturbed, no_signal. intros H.
  eapply Forall_impl; [exact H|]. cbn. tauto.
Qed.

(** X15. The producer and the consumers never all sleep at once.  In an
    execution where no wait is interrupted and the module is not being
    unloaded, with at least one consumer: if the producer has not returned
    and its next statement is a wait that cannot proceed, then not every
    consumer is waiting too; some consumer's next statement takes
    effect. *)
Theorem deadlock_freedom (k : kernel) (bs pr co uu : Z) (s0 : system)
    (sched : list action) :
  is_int bs -> is_int co -> 1 <= co ->
  producer_consumer_init k (insmod bs pr co uu) = (0, s0) ->
  undisturbed sched ->
  let s := run sched s0 in
  forall p now, producerThread s = Some p -> p_pc p <> PDone ->
  kthread_producer false (glob s) p = (glob s, p) ->
  ~ (forall (i : nat) c, consumerThreads s !! i = Some c ->
       kthread_consumer false now (glob s) c = (glob s, c)).
Proof.
  intros Hbs Hco Hone Hinit Hq s p now Hp Hnd Hpb Hcb.
  assert (Hr : reachable k bs pr co uu s) by (exists s0, sched; auto).
  pose proof (reachable_Inv _ _ _ _ _ _ Hbs Hco Hr) as HI.
  destruct (reachable_params _ _ _ _ _ _ Hr) as (Eb & _ & Ec & _).
  pose proof (run_accounts sched s0 (init_Inv _ _ _ _ _ _ Hbs Hco Hinit)
                (undisturbed_no_signal _ Hq)
                (init_accounts _ _ _ _ _ _ Hco Hinit)) as [HA HB].
  fold s in HA, HB.
  assert (HR : Forall c_running (consumerThreads s)).
  { apply run_running; [exact Hq|].
    pose proof (init_zero_state _ _ _ _ _ _ Hco Hinit) as Hst.
    unfold loaded in Hst. subst s0.
    cbn [consumerThreads]. apply Forall_lookup_2. intros j c Hj.
    apply fresh_consumers_lookup in Hj. subst c.
    repeat split; discriminate. }
  (* every consumer is at one of its two waits *)
  assert (Hwait : forall (i : nat) c, consumerThreads s !! i = Some c ->
            (c_pc c = CDownFull /\ full (glob s) <= 0) \/
            (c_pc c = CDownMutex /\ mutex (glob s) <= 0)).
  { intros i c Hi.
    pose proof (Forall_lookup_1 _ _ _ _ HR Hi) as (_ & _ & Hd).
    pose proof (Forall_lookup_1 _ _ _ _ (inv_ok s HI) Hi) as [Hf _].
    destruct (consumer_blocked now _ _ (Hcb i c Hi)) as [H|[H|[H|H]]];
      [congruence|congruence|auto|auto]. }
  assert (Hmx : wsum c_mx (consumerThreads s) = 0).
  { apply wsum_zero. apply Forall_lookup_2. intros i c Hi.
    unfold c_mx. destruct (Hwait i c Hi) as [[-> _]|[-> _]]; reflexivity. }
  (* there is a consumer, and it has not returned *)
  destruct (consumerThreads s !! 0%nat) as [c0|] eqn:H0.
  2:{ apply lookup_ge_None in H0. pose proof (inv_cons s HI) as [Hlen _]. lia. }
  pose proof (Forall_lookup_1 _ _ _ _ HR H0) as (_ & _ & Hd0).
  destruct (alive_phase s 0%nat c0 HI H0 Hd0) as (Hxm & Hxf & _).
  pose proof (inv_mutex s HI) as Imx. pose proof (inv_sems s HI) as (Ie & If & Im).
  pose proof (inv_size s HI) as Isz.
  assert (Hpmx : pw p_mx (producerThread s) = 0).
  { rewrite Hp. cbn. unfold p_mx.
    destruct (producer_blocked _ _ Hpb Hnd) as [[-> _]|[-> _]]; reflexivity. }
  assert (Hmu : mutex (glob s) = 1) by lia.
  assert (Hall : Forall (fun c => c_pc c = CDownFull) (consumerThreads s)).
  { apply Forall_lookup_2. intros i c Hi.
    destruct (Hwait i c Hi) as [[E _]|[_ E]]; [exact E|lia]. }
  assert (Hfull : full (glob s) = 0).
  { destruct (Hwait 0%nat c0 H0) as [[_ E]|[_ E]]; lia. }
  assert (Hw : forall f, (forall c, c_pc c = CDownFull -> f c = 0) ->
                         wsum f (consumerThreads s) = 0).
  { intros f Hf. apply wsum_zero. eapply Forall_impl; [exact Hall|]. exact Hf. }
  unfold free_slots, filled_slots, stored in HA, HB.
  rewrite !Hw in HA, HB
    by (intros c Hc; (unfold c_a || unfold c_b || unfold c_rl); now rewrite Hc).
  rewrite Hp in HA, HB. cbn [pw] in HA, HB. unfold p_a, p_b, p_wl in HA, HB.
  destruct (producer_blocked _ _ Hpb Hnd) as [[E He]|[E Hm]]; [|lia].
  rewrite E in HA, HB. lia.
Qed.

Lemma deadlock_freedom_witness :
  ~ (forall (i : nat) c,
       consumerThreads (run (quiet TProducer 0 30) (demo_boot 2 1 2)) !! i = Some c ->
       kthread_consumer false 0 (glob (run (quiet TProducer 0 30) (demo_boot 2 1 2))) c
       = (glob (run (quiet TProducer 0 30) (demo_boot 2 1 2)), c)).
Proof.
  assert (Hinit : producer_consumer_init demo_kernel (insmod 2 1 2 1)
                  = (0, demo_boot 2 1 2)) by (vm_compute; reflexivity).
  assert (Hq : undisturbed (quiet TProducer 0 30)).
  { unfold undisturbed, quiet. apply List.Forall_forall. intros a Ha.
    apply repeat_spec in Ha. subst a. split; [reflexivity|discriminate]. }
  refine (deadlock_freedom demo_kernel 2 1 2 1 (demo_boot 2 1 2) (quiet TProducer 0 30)
            demo_int demo_int ltac:(lia) Hinit Hq
            (Producer PDownEmpty [] (Task 105 1 50) 2)
            0 _ _ _).
  - vm_compute. reflexivity.
  - discriminate.
  - vm_compute. reflexivity.
Defined.

(** ** What a consumer reads *)

(** Every stored item is a task of the user. *)
Lemma puts_owned k bs pr co uu s :
  reachable k bs pr co uu s -> Forall (fun t => uid t = uu) (puts (klog (glob s))).
Proof.
  intros Hr. destruct (reachable_params _ _ _ _ _ _ Hr) as (_ & _ & _ & Eu).
  destruct Hr as (s0 & sched & Hinit & ->).
  pose proof (run_pass false (tasks k) sched s0 ltac:(discriminate)
                (init_pass false _ _ _ _ _ _ Hinit)) as HP.
  unfold pass_inv, written in HP. rewrite Eu in HP.
  destruct (producerThread (run sched s0)) as [p|] eqn:Hp; [|rewrite HP; constructor].
  destruct HP as (visited & _ & H).
  assert (Hf : Forall (fun t => uid t = uu) (List.filter (matches uu) visited)).
  { apply List.Forall_forall. intros t Ht. apply List.filter_In in Ht as [_ Ht].
    unfold matches in Ht. apply Z.eqb_eq in Ht. exact Ht. }
  assert (Hpre : exists rest, List.filter (matches uu) visited
                              = puts (klog (glob (run sched s0))) ++ rest).
  { destruct (p_pc p); try (destruct H as (rest & H & _));
      rewrite <- ?app_assoc in H; eauto. }
  destruct Hpre as (rest & E). rewrite E in Hf.
  apply Forall_app in Hf as [Hf _]. exact Hf.
Qed.

(** While a consumer is inside the critical section, everything stored
    has been logged, so what has been read is part of the log. *)
Lemma inside_written s i c :
  Inv s -> consumerThreads s !! i = Some c -> c_mx c = 1 ->
  wsum c_mx (consumerThreads s) = 1 /\
  exists pending,
    puts (klog (glob s)) = read_out s ++ pending /\
    Z.of_nat (length pending) >= wsum c_a (consumerThreads s) /\
    forall b, buffer (glob s) = Some b ->
      window b (buffSize (glob s))
        (head (glob s) + wsum c_h (consumerThreads s)) pending.
Proof.
  intros HI Hi Hc.
  assert (Halive : c_pc c <> CDone) by (unfold c_mx in Hc; destruct (c_pc c); congruence).
  destruct (alive_phase s i c HI Hi Halive) as (Hxm & _).
  pose proof (inv_mutex s HI) as Imx. pose proof (inv_sems s HI) as (_ & _ & Im).
  pose proof (wsum_lookup_le c_mx _ _ _ c_mx_nonneg Hi) as Lmx.
  pose proof (pweights_nonneg (producerThread s)) as (Np & _ & Nb & _).
  assert (Hpm : pw p_mx (producerThread s) = 0) by lia.
  split; [lia|].
  destruct (inv_items s HI) as (pending & Hwr & _ & _ & Hfu & _ & Hwin).
  exists pending. unfold written in Hwr.
  assert (Hph : p_in_hand (producerThread s) = []).
  { destruct (producerThread s) as [p|]; [|reflexivity]. cbn in *.
    unfold p_mx in Hpm. destruct (p_pc p); try reflexivity; discriminate. }
  rewrite Hph, app_nil_r in Hwr. split; [exact Hwr|]. split; [lia|exact Hwin].
Qed.

(** X16. A consumer never reads a slot that was not written and never
    follows a pointer that is not a task.  In every reachable state no
    consumer has faulted; a consumer about to execute [task =
    buffer[head]] finds the buffer allocated, [head] within it, and in that
    slot a task that the producer has stored and logged, owned by [uuid];
    and from there to its [printk] the consumer's [task] is such a task.
    The producer's [buffer[tail] = task] has [tail] within [buffSize], and
    within the allocated buffer as long as [producer_consumer_exit] has
    not freed it. *)
Theorem buffer_accesses_safe (k : kernel) (bs pr co uu : Z) (s : system) :
  is_int bs -> is_int co ->
  reachable k bs pr co uu s ->
  (forall (i : nat) c, consumerThreads s !! i = Some c -> c_pc c <> CFault) /\
  (forall (i : nat) c, consumerThreads s !! i = Some c -> c_pc c = CRead ->
     exists b t,
       buffer (glob s) = Some b /\
       0 <= head (glob s) < Z.of_nat (length b) /\
       b !! Z.to_nat (head (glob s)) = Some (Some t) /\
       In t (puts (klog (glob s))) /\ uid t = uu) /\
  (forall (i : nat) c, consumerThreads s !! i = Some c -> c_rl c = 1 ->
     exists t, c_task c = Some t /\ In t (puts (klog (glob s))) /\ uid t = uu) /\
  (forall p, producerThread s = Some p -> p_pc p = PWrite ->
     0 <= tail (glob s) < bs /\
     (x_freed (rmmod s) = false ->
      exists b, buffer (glob s) = Some b /\ tail (glob s) < Z.of_nat (length b))).
Proof.
  intros Hbs Hco Hr.
  pose proof (reachable_Inv _ _ _ _ _ _ Hbs Hco Hr) as HI.
  pose proof (puts_owned _ _ _ _ _ _ Hr) as Hown.
  rewrite List.Forall_forall in Hown.
  destruct (reachable_params _ _ _ _ _ _ Hr) as (Eb & _).
  pose proof (inv_size s HI) as Isz. pose proof (inv_head s HI) as Ihd.
  pose proof (inv_tail s HI) as Itl.
  split; [|split; [|split]].
  - intros i c Hi. exact (proj1 (Forall_lookup_1 _ _ _ _ (inv_ok s HI) Hi)).
  - intros i c Hi Hpc.
    assert (Hmx : c_mx c = 1) by (unfold c_mx; rewrite Hpc; reflexivity).
    destruct (inside_written s i c HI Hi Hmx) as (Hone & pending & Hwr & Hlen & Hwin).
    destruct (alive_phase s i c HI Hi ltac:(rewrite Hpc; discriminate))
      as (_ & _ & (b & Hb & Hbl) & _).
    assert (Hh : wsum c_h (consumerThreads s) = 0).
    { rewrite (wsum_exclusive c_mx c_h _ i c c_mx_nonneg
                 ltac:(intros c0; unfold c_mx, c_h; destruct (c_pc c0); auto; discriminate)
                 Hi ltac:(lia)).
      unfold c_h. rewrite Hpc. reflexivity. }
    pose proof (wsum_lookup_le c_a _ _ _
                  (fun c => proj1 (proj1 (proj2 (weights_nonneg c)))) Hi) as La.
    assert (Hca : c_a c = 1) by (unfold c_a; rewrite Hpc; reflexivity).
    destruct pending as [|t rest]; [cbn in Hlen; lia|].
    pose proof (Hwin b Hb 0%nat t eq_refl) as Hw0.
    rewrite Hh, !Z.add_0_r, Z.mod_small in Hw0 by lia.
    exists b, t. split; [exact Hb|]. split; [lia|]. split; [exact Hw0|].
    assert (Hin : In t (puts (klog (glob s)))).
    { rewrite Hwr. apply in_or_app. right. left. reflexivity. }
    split; [exact Hin|]. apply Hown, Hin.
  - intros i c Hi Hrl.
    assert (Hmx : c_mx c = 1)
      by (unfold c_mx, c_rl in *; destruct (c_pc c); congruence).
    destruct (inside_written s i c HI Hi Hmx) as (Hone & pending & Hwr & _).
    destruct (proj2 (Forall_lookup_1 _ _ _ _ (inv_ok s HI) Hi) Hrl) as [t Ht].
    exists t. split; [exact Ht|].
    assert (Hin : In t (puts (klog (glob s)))).
    { rewrite Hwr. unfold read_out. apply in_or_app. left. apply in_or_app. right.
      apply in_flat_map. exists c. split.
      - apply list_elem_of_In. eapply list_elem_of_lookup_2; eauto.
      - unfold c_in_hand, c_rl in *. rewrite Ht.
        destruct (c_pc c); try discriminate; left; reflexivity. }
    split; [exact Hin|]. apply Hown, Hin.
  - intros p Hp Hpc. split; [lia|]. intros Hfree.
    pose proof (inv_buffer s HI) as Hbuf.
    destruct (buffer (glob s)) as [b|]; [|congruence].
    exists b. split; [reflexivity|lia].
Qed.

Lemma buffer_accesses_safe_witness :
  c_pc (Consumer CDownFull "Consumer-1" false (Some (Task 102 1 20)) 980 "00:00:00")
  <> CFault.
Proof.
  refine (proj1 (buffer_accesses_safe demo_kernel 2 1 2 1 _ demo_int demo_int
                   (demo_reachable demo_sched)) 0%nat _ _).
  vm_compute. reflexivity.
Defined.

(** ** One whole put, one whole take *)

Lemma run_producer_steps n now : forall g p cs x,
  run (quiet TProducer now n) (System g (Some p) cs x)
  = System (fst (producer_steps n g p)) (Some (snd (producer_steps n g p))) cs x.
Proof.
  induction n as [|n IH]; intros g p cs x; [reflexivity|].
  cbn [quiet repeat run fold_left producer_steps].
  change (fold_left step ?l ?s) with (run l s).
  unfold step. cbn [who producerThread signal_pending glob consumerThreads rmmod].
  destruct (kthread_producer false g p) as [g1 p1]. apply IH.
Qed.

Lemma run_consumer_steps n i clock : forall g p cs x c,
  cs !! i = Some c ->
  run (quiet (TConsumer i) clock n) (System g p cs x)
  = System (fst (consumer_steps n clock g c)) p
      (<[i := snd (consumer_steps n clock g c)]> cs) x.
Proof.
  induction n as [|n IH]; intros g p cs x c Hi.
  - cbn. rewrite list_insert_id by exact Hi. reflexivity.
  - cbn [quiet repeat run fold_left consumer_steps].
    change (fold_left step ?l ?s) with (run l s).
    unfold step.
    cbn [who producerThread signal_pending now glob consumerThreads rmmod].
    rewrite Hi. destruct (kthread_consumer false clock g c) as [g1 c1].
    fold (quiet (TConsumer i) clock n).
    rewrite (IH g1 p (<[i := c1]> cs) x c1).
    + rewrite list_insert_insert_eq. reflexivity.
    + apply list_lookup_insert_eq. eapply lookup_lt_Some; eauto.
Qed.

(** X17. One whole put.  A producer at its wait for a free slot, with a
    free slot and the lock available, executes eight statements and is back
    at the head of its loop: the task is stored at [tail], [tail] advances
    by one modulo [buffSize], the count goes up by one, one "Produced"
    record with the new count, the old [tail] and the task is appended to
    the log, [empty] is one lower, [full] one higher, [mutex] as before, and
    [head] and the totals are untouched. *)
Theorem put_effect (g : globals) (p : producer) :
  p_pc p = PDownEmpty -> 0 < empty g -> 0 < mutex g ->
  0 <= tail g < buffSize g -> buffSize g <= Int.INT_MAX ->
  producer_steps 8 g p = after_put g p.
Proof.
  intros Hpc He Hm Ht Hb.
  destruct p as [pc todo t cnt]. cbn in Hpc. subst pc.
  destruct g as [bs pr co uu em fu mu bf hd tl tc tn lg]. cbn in *.
  destruct (rem_wrap_succ tl bs Ht Hb) as [Erem _].
  unfold after_put. cbn [producer_steps].
  unfold kthread_producer at 1, down_interruptible.
  cbn [p_pc empty]. rewrite (proj2 (Z.ltb_lt 0 em) He).
  unfold kthread_producer at 1, down_interruptible.
  cbn [p_pc p_goto mutex set_empty]. rewrite (proj2 (Z.ltb_lt 0 mu) Hm).
  cbn -[Z.rem Int.wrap_int Z.modulo buffer_write].
  unfold buffer_write. cbn [buffer tail].
  destruct bf as [b|]; [destruct (0 <=? tl)|];
    cbn -[Z.rem Int.wrap_int Z.modulo]; unfold up; rewrite Erem;
    repeat f_equal; lia.
Qed.

Lemma put_effect_witness :
  producer_steps 8 (Globals 2 1 1 1 2 0 1 (Some [None; None]) 0 0 0 0 [])
    (Producer PDownEmpty [] (Task 101 1 10) 0)
  = after_put (Globals 2 1 1 1 2 0 1 (Some [None; None]) 0 0 0 0 [])
      (Producer PDownEmpty [] (Task 101 1 10) 0).
Proof.
  apply put_effect; cbn; unfold Int.INT_MAX; lia || reflexivity.
Defined.

(** X18. One whole take.  A consumer at its wait for an item, with an
    item and the lock available and a task in the slot under [head],
    executes eleven statements and is back at the head of its loop: it has
    that task, [head] advances by one modulo [buffSize], [totalConsumed]
    goes up by one, the elapsed time, the clock minus the task's
    [start_time], is added to [totalProcessNanoseconds], one "Consumed"
    record with the consumer's name, the new [totalConsumed], the old
    [head], the task, and the elapsed time with its rendering is appended
    to the log, [full] is one lower, [empty] one higher, [mutex] as before.
    The slot itself is left as it was, and [tail] is untouched. *)
Theorem take_effect (now : Z) (g : globals) (c : consumer) (t : task_struct) :
  c_pc c = CDownFull -> 0 < full g -> 0 < mutex g ->
  0 <= head g < buffSize g -> buffSize g <= Int.INT_MAX ->
  buffer_read g (head g) = Some t ->
  consumer_steps 11 now g c = after_take now g c t.
Proof.
  intros Hpc Hf Hm Hh Hb Hrd.
  destruct c as [pc name stop tk ns tf]. cbn in Hpc. subst pc.
  destruct g as [bs pr co uu em fu mu bf hd tl tc tn lg]. cbn in *.
  destruct (rem_wrap_succ hd bs Hh Hb) as [Erem _].
  unfold after_take. cbn [consumer_steps].
  unfold kthread_consumer at 1, down_interruptible.
  cbn [c_pc full]. rewrite (proj2 (Z.ltb_lt 0 fu) Hf).
  unfold kthread_consumer at 1, down_interruptible.
  cbn [c_pc c_goto mutex set_full]. rewrite (proj2 (Z.ltb_lt 0 mu) Hm).
  unfold kthread_consumer at 1.
  cbn [c_pc c_goto set_mutex head c_name c_should_stop c_taskTime c_timeFormat].
  unfold buffer_read at 1. cbn [buffer]. unfold buffer_read in Hrd. cbn in Hrd.
  rewrite Hrd.
  cbn -[Z.rem Int.wrap_int Int.wrap_long Z.modulo Fmt.consumer_timeFormat].
  unfold up. rewrite Erem. repeat f_equal; lia.
Qed.

Lemma take_effect_witness :
  consumer_steps 11 1000
    (Globals 2 1 1 1 1 1 1 (Some [Some (Task 101 1 10); None]) 0 1 0 0 [])
    (Consumer CDownFull "Consumer-1" false None 0 EmptyString)
  = after_take 1000
      (Globals 2 1 1 1 1 1 1 (Some [Some (Task 101 1 10); None]) 0 1 0 0 [])
      (Consumer CDownFull "Consumer-1" false None 0 EmptyString) (Task 101 1 10).
Proof.
  apply take_effect; cbn; unfold Int.INT_MAX; lia || reflexivity.
Defined.

(** X19. A put followed by a take hands the task over.  With the buffer
    allocated, [head = tail], a free slot and the lock available: after the
    producer's eight statements and then the eleven statements of consumer
    [i], that consumer holds the very task the producer stored, the log has
    gained the "Produced" record and then the "Consumed" record of that
    task at that slot, [head] and [tail] are both one further, and the three
    semaphores are where they were. *)
Theorem put_take_round_trip (g : globals) (p : producer) (cs : list consumer)
    (x : exit_thread) (i : nat) (c : consumer) (now : Z) (b : list (option task_struct)) :
  p_pc p = PDownEmpty -> cs !! i = Some c -> c_pc c = CDownFull ->
  0 < empty g -> 0 < mutex g -> 0 <= full g ->
  buffer g = Some b -> Z.of_nat (length b) = buffSize g ->
  head g = tail g -> 0 <= tail g < buffSize g -> buffSize g <= Int.INT_MAX ->
  let s' := run (quiet TProducer now 8 ++ quiet (TConsumer i) now 11)
              (System g (Some p) cs x) in
  (c_task <$> consumerThreads s' !! i) = Some (Some (p_task p)) /\
  klog (glob s')
  = klog g ++ [Produced (Int.wrap_int (p_count p + 1)) (tail g) (p_task p);
               Consumed (c_name c) (Int.wrap_int (totalConsumed g + 1)) (tail g)
                 (p_task p) (Int.wrap_long (now - start_time (p_task p)))
                 (Fmt.consumer_timeFormat
                    (Int.wrap_long (now - start_time (p_task p))))] /\
  head (glob s') = (tail g + 1) mod buffSize g /\
  tail (glob s') = (tail g + 1) mod buffSize g /\
  empty (glob s') = empty g /\ full (glob s') = full g /\ mutex (glob s') = mutex g.
Proof.
  intros Hpc Hi Hcpc He Hm Hf Hb Hlen Hht Ht Hmax. cbv zeta.
  destruct g as [bs pr co uu em fu mu bf hd tl tc tn lg].
  cbn [empty full mutex buffer head tail buffSize klog totalConsumed] in *.
  subst bf hd.
  rewrite run_app, run_producer_steps,
    (put_effect (Globals bs pr co uu em fu mu (Some b) tl tl tc tn lg) p
       Hpc He Hm Ht Hmax).
  rewrite (run_consumer_steps 11 i now _ _ _ _ c Hi).
  unfold after_put. cbn [fst snd].
  rewrite (take_effect now _ c (p_task p) Hcpc).
  - unfold after_take. cbv zeta. cbn [fst snd glob consumerThreads klog head tail empty full mutex
                              buffSize totalConsumed].
    split.
    { rewrite list_lookup_insert_eq; [reflexivity|eapply lookup_lt_Some; eauto]. }
    rewrite <- app_assoc. cbn [app].
    repeat split; try reflexivity; lia.
  - cbn. lia.
  - cbn. exact Hm.
  - cbn. lia.
  - cbn. exact Hmax.
  - unfold buffer_read, buffer_write. cbn.
    destruct (Z.leb_spec 0 tl); [|lia]. cbn.
    rewrite list_lookup_insert_eq by lia. reflexivity.
Qed.

Lemma put_take_round_trip_witness :
  klog (glob (run (quiet TProducer 0 8 ++ quiet (TConsumer 0) 0 11)
                (System (Globals 2 1 1 1 2 0 1 (Some [None; None]) 0 0 0 0 [])
                   (Some (Producer PDownEmpty [] (Task 101 1 10) 0))
                   [Consumer CDownFull "Consumer-1" false None 0 EmptyString]
                   (ExitThread (XStop 0) EmptyString))))
  = [Produced 1 0 (Task 101 1 10);
     Consumed "Consumer-1" 1 0 (Task 101 1 10) (Int.wrap_long (0 - 10))
       (Fmt.consumer_timeFormat (Int.wrap_long (0 - 10)))].
Proof.
  refine (proj1 (proj2 (put_take_round_trip
     (Globals 2 1 1 1 2 0 1 (Some [None; None]) 0 0 0 0 [])
     (Producer PDownEmpty [] (Task 101 1 10) 0)
     [Consumer CDownFull "Consumer-1" false None 0 EmptyString]
     (ExitThread (XStop 0) EmptyString) 0%nat
     (Consumer CDownFull "Consumer-1" false None 0 EmptyString) 0 [None; None]
     _ _ _ _ _ _ _ _ _ _ _)));
    cbn; unfold Int.INT_MAX; lia || reflexivity.
Defined.
